(** * hartodb-go: a shallow embedding of the record codec, the transaction
    engine, the compaction worker and the query evaluator.

    Source files embedded here: Record.go (src/Schema.go), Transaction.go
    (src/Transaction.go), Table.go and Cleanup.go (src/unnamed/part_000),
    Query.go (src/unnamed/part_001).

    Conventions.
    - Go integers are [Z]; every conversion that wraps is written out
      ([to_uint64], [to_int64], [int_of_uint], ...), and so is every sum on
      [int] that can wrap ([int_add]).  [int] and [uint] are the 64-bit
      types of the usual targets.  A buffer in memory has at most
      [maxAlloc] bytes, so an index that passed a bounds check is
      incremented with [+].
    - A byte is a [Z] in [0, 256); a Go [string] is a Rocq [string] (a
      sequence of 8-bit characters).
    - A Go [error] is kept by its message ([Err msg]); a run-time panic
      (index or slice bounds out of range) is [Panic].
    - A method that mutates its receiver through a pointer returns the
      receiver's new value next to its result.
    - Mutexes are not modelled: every function is run alone.  The
      goroutine of the cleanup worker and its enumeration of the data
      directory are left out: [cleanupTable] is called on a given table.
    - Text printed to standard output is dropped. *)

From Stdlib Require Import ZArith String Ascii List Bool Lia.
From Stdlib Require Import Floats.SpecFloat.
From stdpp Require Import base option list gmap strings pretty.

Open Scope Z_scope.

(** ** Results of Go calls *)

Inductive result (A : Type) : Type :=
| Ok (a : A)
| Err (msg : string)
| Panic (msg : string).
Arguments Ok {A} a.
Arguments Err {A} msg.
Arguments Panic {A} msg.

#[global] Instance result_ret : MRet result := fun _ a => Ok a.
#[global] Instance result_bind : MBind result := fun _ _ f m =>
  match m with
  | Ok a => f a
  | Err e => Err e
  | Panic p => Panic p
  end.

(** A computation over a mutable state [S]: the state reached is returned
    also when the call ends in an error, as the effects performed before a
    Go [return err] stay. *)
Definition St (S A : Type) : Type := S -> result A * S.

Definition st_ret {S A} (a : A) : St S A := fun s => (Ok a, s).
Definition st_bind {S A B} (m : St S A) (k : A -> St S B) : St S B := fun s =>
  match m s with
  | (Ok a, s') => k a s'
  | (Err e, s') => (Err e, s')
  | (Panic p, s') => (Panic p, s')
  end.
Definition st_fail {S A} (msg : string) : St S A := fun s => (Err msg, s).
Definition st_lift {S A} (r : result A) : St S A := fun s => (r, s).
(** [if err != nil { return fmt.Errorf(..., err) }] *)
Definition st_wrap {S A} (f : string -> string) (m : St S A) : St S A := fun s =>
  match m s with
  | (Err e, s') => (Err (f e), s')
  | other => other
  end.

Declare Scope st_scope.
Delimit Scope st_scope with st.
Notation "x <~ m ;; k" := (st_bind m (fun x => k))
  (at level 100, m at next level, right associativity) : st_scope.
Notation "m ;;; k" := (st_bind m (fun _ => k))
  (at level 100, right associativity) : st_scope.

(** ** Integer conversions *)

Definition to_uint64 (z : Z) : Z := z mod 2 ^ 64.
Definition to_int64 (z : Z) : Z := (z + 2 ^ 63) mod 2 ^ 64 - 2 ^ 63.
Definition to_uint16 (z : Z) : Z := z mod 2 ^ 16.
Definition to_byte (z : Z) : Z := z mod 256.

(** [int(n)] for a [uint] [n], and [a + b] on [int]. *)
Definition int_of_uint (n : N) : Z := to_int64 (Z.of_N n).
Definition int_add (a b : Z) : Z := to_int64 (a + b).

(** Little-endian bytes of a value, and back. *)
Fixpoint le_bytes (n : nat) (v : Z) : list Z :=
  match n with
  | O => []
  | S k => v mod 256 :: le_bytes k (v / 256)
  end.

Fixpoint le_value (bs : list Z) : Z :=
  match bs with
  | [] => 0
  | b :: rest => b + 256 * le_value rest
  end.

Definition bytes_of_string (s : string) : list Z :=
  (fun c => Z.of_N (N_of_ascii c)) <$> list_ascii_of_string s.
Definition string_of_bytes (bs : list Z) : string :=
  string_of_list_ascii ((fun b => ascii_of_N (Z.to_N b)) <$> bs).

(** ** float64

    A float64 is a [spec_float] of precision 53 and exponent bound 1024. *)
Abbreviation float64 := spec_float (only parsing).

#[global] Instance spec_float_eq_dec : EqDecision spec_float.
Proof. solve_decision. Defined.

(** [float64(n)] for an unsigned integer [n]: round to nearest even. *)
Definition float64_of_int (n : Z) : float64 := binary_normalize 53 1024 n 0 false.

(** The integer part of a finite, non-negative float, when there is one
    that a uint64 holds. *)
Definition trunc_uint64 (v : float64) : option Z :=
  match v with
  | S754_zero _ => Some 0
  | S754_finite s m e =>
      let t := if 0 <=? e then Z.pos m * 2 ^ e else Z.pos m / 2 ^ (- e) in
      if t =? 0 then Some 0
      else if s then None
      else if t <? 2 ^ 64 then Some t else None
  | _ => None
  end.

(** ** Values held in [interface{}] *)

Inductive value : Type :=
| VNil
| VInt (n : Z)
| VInt64 (n : Z)
| VFloat64 (f : float64)
| VString (s : string)
| VBool (b : bool).

#[global] Instance value_eq_dec : EqDecision value.
Proof. solve_decision. Defined.

(** Go's [==] on two interface values: same dynamic type and equal values
    (floats by IEEE equality). *)
Definition iface_eq (a b : value) : bool :=
  match a, b with
  | VNil, VNil => true
  | VInt x, VInt y => x =? y
  | VInt64 x, VInt64 y => x =? y
  | VFloat64 x, VFloat64 y => SFeqb x y
  | VString x, VString y => String.eqb x y
  | VBool x, VBool y => Bool.eqb x y
  | _, _ => false
  end.

(** [m[k]] without the comma-ok form: the nil interface when absent. *)
Definition index_map (m : gmap string value) (k : string) : value :=
  default VNil (m !! k).

(** ** Table.go: tables and fields *)

Definition fileEnding : string := ".htdb".

Definition String_ : string := "string".
Definition Int : string := "int".
Definition Float : string := "float".
Definition Bool_ : string := "bool".
Definition TimeID : string := "timeID".

Definition PrimaryKey : string := "primary_key".
Definition NotNull : string := "not_null".
Definition Unique : string := "unique".

Record Field : Type := mkField {
  Name : string;
  Type_ : string;
  Length : N;
  Constraints : list string
}.

Record Table : Type := mkTable {
  TableName : string;
  Fields : list Field;
  SchemaPath : string
}.

Definition timePKField : Field :=
  mkField "id" "timeID" 8 [PrimaryKey; NotNull; Unique].

(** ** Record.go: records *)

Record RecordMetadata : Type := mkRecordMetadata {
  IsCurrent : bool;
  IsDeleted : bool;
  IsLocked : bool;
  TransactionID : Z
}.

Record FieldMetadata : Type := mkFieldMetadata { IsNull : bool }.

Record Record_ : Type := mkRecord {
  ID : Z;
  Metadata : RecordMetadata;
  FieldsData : gmap string value;
  FieldsMeta : gmap string FieldMetadata;
  RefOffsets : gmap string (Z * Z)
}.

Definition set_IsCurrent (b : bool) (m : RecordMetadata) : RecordMetadata :=
  mkRecordMetadata b (IsDeleted m) (IsLocked m) (TransactionID m).
Definition set_IsDeleted (b : bool) (m : RecordMetadata) : RecordMetadata :=
  mkRecordMetadata (IsCurrent m) b (IsLocked m) (TransactionID m).
Definition set_IsLocked (b : bool) (m : RecordMetadata) : RecordMetadata :=
  mkRecordMetadata (IsCurrent m) (IsDeleted m) b (TransactionID m).
Definition set_TransactionID (t : Z) (m : RecordMetadata) : RecordMetadata :=
  mkRecordMetadata (IsCurrent m) (IsDeleted m) (IsLocked m) t.

Definition set_Metadata (m : RecordMetadata) (r : Record_) : Record_ :=
  mkRecord (ID r) m (FieldsData r) (FieldsMeta r) (RefOffsets r).
Definition set_FieldsData (d : gmap string value) (r : Record_) : Record_ :=
  mkRecord (ID r) (Metadata r) d (FieldsMeta r) (RefOffsets r).
Definition set_FieldsMeta (d : gmap string FieldMetadata) (r : Record_) : Record_ :=
  mkRecord (ID r) (Metadata r) (FieldsData r) d (RefOffsets r).
Definition set_RefOffsets (d : gmap string (Z * Z)) (r : Record_) : Record_ :=
  mkRecord (ID r) (Metadata r) (FieldsData r) (FieldsMeta r) d.

(** [NewRecord(id, data)]: the loop over [data] overwrites the entries put
    for ["id"], so [data]'s entries win. *)
Definition NewRecord (id : Z) (data : gmap string value) : Record_ :=
  mkRecord id
    (mkRecordMetadata true false false 0)
    (data ∪ {[ "id" := VInt64 id ]})
    (((fun v => mkFieldMetadata (bool_decide (v = VNil))) <$> data)
       ∪ {[ "id" := mkFieldMetadata false ]})
    ∅.

Definition locked_msg (holder : Z) : string :=
  "record is locked by another transaction: " +:+ pretty holder.

(** [(r *Record) Lock(transactionID)] *)
Definition Lock (transactionID : Z) : St Record_ unit := fun r =>
  if IsLocked (Metadata r) && negb (TransactionID (Metadata r) =? transactionID)
  then (Err (locked_msg (TransactionID (Metadata r))), r)
  else (Ok tt,
        set_Metadata
          (set_TransactionID transactionID (set_IsLocked true (Metadata r))) r).

(** [(r *Record) Unlock()] *)
Definition Unlock : St Record_ unit := fun r =>
  (Ok tt, set_Metadata (set_TransactionID 0 (set_IsLocked false (Metadata r))) r).

(** [(r *Record) MarkDeleted(transactionID)] *)
Definition MarkDeleted (transactionID : Z) : St Record_ unit := fun r =>
  if IsLocked (Metadata r) && negb (TransactionID (Metadata r) =? transactionID)
  then (Err (locked_msg (TransactionID (Metadata r))), r)
  else (Ok tt, set_Metadata (set_IsDeleted true (Metadata r)) r).

(** [(r *Record) Clone(transactionID)]; [now] is the reading of
    [time.Now().UnixNano()]. *)
Definition Clone (now : Z) (transactionID : Z) (r : Record_) : result Record_ :=
  if IsLocked (Metadata r) && negb (TransactionID (Metadata r) =? transactionID)
  then Err (locked_msg (TransactionID (Metadata r)))
  else
    let newID := now in
    Ok (mkRecord newID
          (mkRecordMetadata false (IsDeleted (Metadata r)) true transactionID)
          (<[ "id" := VInt64 newID ]> (FieldsData r))
          (<[ "id" := mkFieldMetadata false ]> (FieldsMeta r))
          (RefOffsets r)).

(** ** Go run-time parameters

    What the model leaves open of the Go implementation and of its
    library is taken as parameters:
    - [uint64(v)] for a float [v] whose integer part a uint64 cannot hold
      (the result is implementation-dependent);
    - the text [fmt.Sprintf("%v", v)] prints for a float64;
    - encoding/json: the text [json.MarshalIndent] writes for a table, and
      what [json.Unmarshal] reads from a text that [MarshalIndent] did not
      write (see [content] below for a text that it did write);
    - the text [fmt.Errorf(format)] makes of a format that holds a ['%']
      and comes without arguments. *)
Class GoRuntime : Type := mkGoRuntime {
  uint64_unrepresentable : float64 -> Z;
  Sprint_float64 : float64 -> string;
  json_MarshalIndent : Table -> list Z;
  json_Unmarshal : list Z -> result Table;
  Errorf_verbs : string -> string
}.

(** ** Byte buffers

    [make([]byte, n)] and a file read by [os.ReadFile] are lists whose
    capacity is their length.  A slice received as an argument has a length
    and a capacity of its own: [sl_arr] holds the bytes from its start to
    its capacity, [sl_len] its length. *)
Record bslice : Type := mkSlice { sl_arr : list Z; sl_len : Z }.

Definition sl_cap (s : bslice) : Z := Z.of_nat (length (sl_arr s)).
Definition slice_of (l : list Z) : bslice := mkSlice l (Z.of_nat (length l)).

(** [make([]byte, n)]: the run time refuses a negative length and one of
    more than [maxAlloc] bytes (2^48 on the 64-bit targets). *)
Definition maxAlloc : Z := 2 ^ 48.
Definition make_bytes (n : Z) : result (list Z) :=
  if (n <? 0) || (maxAlloc <? n) then Panic "makeslice: len out of range"
  else Ok (repeat 0 (Z.to_nat n)).

(** [s[i]] *)
Definition sl_index (s : bslice) (i : Z) : result Z :=
  if (0 <=? i) && (i <? sl_len s)
  then Ok (nth (Z.to_nat i) (sl_arr s) 0)
  else Panic "index out of range".

(** [s[lo:hi]] *)
Definition sl_slice (s : bslice) (lo hi : Z) : result bslice :=
  if (0 <=? lo) && (lo <=? hi) && (hi <=? sl_cap s)
  then Ok (mkSlice (drop (Z.to_nat lo) (sl_arr s)) (hi - lo))
  else Panic "slice bounds out of range".

(** [binary.LittleEndian.Uint64(b)] and [Uint16(b)]: each starts with a
    bounds check on its last byte. *)
Definition Uint64 (b : bslice) : result Z :=
  if sl_len b <? 8 then Panic "index out of range"
  else Ok (le_value (take 8 (sl_arr b))).
Definition Uint16 (b : bslice) : result Z :=
  if sl_len b <? 2 then Panic "index out of range"
  else Ok (le_value (take 2 (sl_arr b))).

(** [string(b)] *)
Definition sl_string (b : bslice) : string :=
  string_of_bytes (take (Z.to_nat (sl_len b)) (sl_arr b)).

(** Writing through a sub-slice of a buffer [data] made by [make]. *)
Definition write_at (data : list Z) (off : Z) (bs : list Z) : list Z :=
  take (Z.to_nat off) data ++ bs ++ drop (Z.to_nat off + length bs) data.

Definition in_bounds (data : list Z) (lo hi : Z) : bool :=
  (0 <=? lo) && (lo <=? hi) && (hi <=? Z.of_nat (length data)).

(** [data[off] = b] *)
Definition set_index (data : list Z) (off : Z) (b : Z) : result (list Z) :=
  if (0 <=? off) && (off <? Z.of_nat (length data))
  then Ok (write_at data off [b])
  else Panic "index out of range".

(** [binary.LittleEndian.PutUint64(data[lo:hi], v)] *)
Definition PutUint64 (data : list Z) (lo hi : Z) (v : Z) : result (list Z) :=
  if negb (in_bounds data lo hi) then Panic "slice bounds out of range"
  else if hi - lo <? 8 then Panic "index out of range"
  else Ok (write_at data lo (le_bytes 8 v)).

(** [binary.LittleEndian.PutUint16(data[lo:hi], v)] *)
Definition PutUint16 (data : list Z) (lo hi : Z) (v : Z) : result (list Z) :=
  if negb (in_bounds data lo hi) then Panic "slice bounds out of range"
  else if hi - lo <? 2 then Panic "index out of range"
  else Ok (write_at data lo (le_bytes 2 v)).

(** [copy(data[lo:hi], v)] for a string [v] *)
Definition copy_string (data : list Z) (lo hi : Z) (v : string) : result (list Z) :=
  if negb (in_bounds data lo hi) then Panic "slice bounds out of range"
  else Ok (write_at data lo (take (Z.to_nat (hi - lo)) (bytes_of_string v))).

(** The bytes the fields of a record take: for every field but ["id"] one
    byte of null flag and [Length] bytes of cell. *)
Definition fieldsSize (fields : list Field) : Z :=
  fold_left (fun acc field =>
               if String.eqb (Name field) "id" then acc
               else acc + Z.of_N (Length field) + 1) fields 0.

(** The loop both [Serialize] and [GetAllRecords] run over the fields to
    add these bytes up:
    [recordSize += int(field.Length); recordSize += 1], on [int]. *)
Definition recordSize_from (recordSize : Z) (fields : list Field) : Z :=
  fold_left (fun recordSize field =>
               if String.eqb (Name field) "id" then recordSize
               else int_add (int_add recordSize (int_of_uint (Length field))) 1)
    fields recordSize.

Section Codec.
Context `{GoRuntime}.

(** [uint64(v)] for a float64 [v] *)
Definition uint64_of_float64 (v : float64) : Z :=
  match trunc_uint64 v with
  | Some n => n
  | None => to_uint64 (uint64_unrepresentable v)
  end.

(** The payload of one non-null field: the [switch field.Type] of
    [Serialize]. *)
Definition Serialize_payload (r : Record_) (field : Field) (value : value)
    (data : list Z) (offset : Z) : result (list Z) :=
  let fl := int_of_uint (Length field) in
  if String.eqb (Type_ field) TimeID then
    match value with
    | VInt64 v => PutUint64 data offset (int_add offset fl) (to_uint64 v)
    | _ => Err ("field '" +:+ Name field +:+ "' requires an int64 value")
    end
  else if String.eqb (Type_ field) Int then
    match value with
    | VInt v => PutUint64 data offset (int_add offset fl) (to_uint64 v)
    | VInt64 v => PutUint64 data offset (int_add offset fl) (to_uint64 v)
    | _ => Err ("field '" +:+ Name field +:+ "' requires an int or int64 value")
    end
  else if String.eqb (Type_ field) Float then
    match value with
    | VFloat64 v => PutUint64 data offset (int_add offset fl) (uint64_of_float64 v)
    | _ => Err ("field '" +:+ Name field +:+ "' requires a float64 value")
    end
  else if String.eqb (Type_ field) String_ then
    match value with
    | VString v => copy_string data offset (int_add offset fl) v
    | _ => Err ("field '" +:+ Name field +:+ "' requires a string value")
    end
  else if String.eqb (Type_ field) "ref" then
    match RefOffsets r !! Name field with
    | None => Err ("missing ref offsets for field '" +:+ Name field +:+ "'")
    | Some offsets =>
        data ← PutUint64 data offset (offset + 8) (to_uint64 (fst offsets));
        PutUint64 data (offset + 8) (offset + 16) (to_uint64 (snd offsets))
    end
  else Err ("unsupported field type '" +:+ Type_ field +:+ "'").

(** The second loop of [Serialize]. *)
Fixpoint Serialize_fields (r : Record_) (fields : list Field)
    (data : list Z) (offset : Z) : result (list Z) :=
  match fields with
  | [] => Ok data
  | field :: rest =>
      if String.eqb (Name field) "id" then Serialize_fields r rest data offset
      else
        let fieldMeta := default (mkFieldMetadata true) (FieldsMeta r !! Name field) in
        data ← set_index data offset (if IsNull fieldMeta then 1 else 0);
        let offset := offset + 1 in
        match FieldsData r !! Name field with
        | None => Serialize_fields r rest data (int_add offset (int_of_uint (Length field)))
        | Some value =>
            if IsNull fieldMeta
            then Serialize_fields r rest data (int_add offset (int_of_uint (Length field)))
            else
              data ← Serialize_payload r field value data offset;
              Serialize_fields r rest data (int_add offset (int_of_uint (Length field)))
        end
  end.

Definition metaByte_of (m : RecordMetadata) : Z :=
  Z.lor (Z.lor (if IsCurrent m then 1 else 0) (if IsDeleted m then 2 else 0))
        (if IsLocked m then 4 else 0).

(** [(r *Record) Serialize(fields)] *)
Definition Serialize (r : Record_) (fields : list Field) : result (list Z) :=
  let recordSize := recordSize_from (8 + 4) fields in
  data ← make_bytes recordSize;
  data ← PutUint64 data 0 8 (to_uint64 (ID r));
  data ← set_index data 8 (metaByte_of (Metadata r));
  data ← PutUint16 data 9 11 (to_uint16 (TransactionID (Metadata r)));
  data ← set_index data 11 (to_byte (Z.shiftr (TransactionID (Metadata r)) 16));
  Serialize_fields r fields data 12.

End Codec.

(** The loop of [DeserializeRecord] over the fields. *)
Fixpoint Deserialize_fields (data : bslice) (fields : list Field)
    (record : Record_) (offset : Z) : result Record_ :=
  match fields with
  | [] => Ok record
  | field :: rest =>
      if String.eqb (Name field) "id" then
        Deserialize_fields data rest
          (set_FieldsMeta (<[ "id" := mkFieldMetadata false ]> (FieldsMeta record))
             (set_FieldsData (<[ "id" := VInt64 (ID record) ]> (FieldsData record))
                record))
          offset
      else
        let fl := int_of_uint (Length field) in
        b ← sl_index data offset;
        let isNull := b =? 1 in
        let record :=
          set_FieldsMeta (<[ Name field := mkFieldMetadata isNull ]> (FieldsMeta record))
            record in
        let offset := offset + 1 in
        if isNull then Deserialize_fields data rest record (int_add offset fl)
        else
          record ←
            (if String.eqb (Type_ field) TimeID || String.eqb (Type_ field) Int then
               cell ← sl_slice data offset (int_add offset fl);
               bits ← Uint64 cell;
               Ok (set_FieldsData
                     (<[ Name field := VInt64 (to_int64 bits) ]> (FieldsData record))
                     record)
             else if String.eqb (Type_ field) Float then
               cell ← sl_slice data offset (int_add offset fl);
               bits ← Uint64 cell;
               Ok (set_FieldsData
                     (<[ Name field := VFloat64 (float64_of_int bits) ]> (FieldsData record))
                     record)
             else if String.eqb (Type_ field) String_ then
               cell ← sl_slice data offset (int_add offset fl);
               Ok (set_FieldsData
                     (<[ Name field := VString (sl_string cell) ]> (FieldsData record))
                     record)
             else if String.eqb (Type_ field) "ref" then
               cell ← sl_slice data offset (offset + 8);
               start ← Uint64 cell;
               cell ← sl_slice data (offset + 8) (offset + 16);
               end_ ← Uint64 cell;
               Ok (set_RefOffsets
                     (<[ Name field := (to_int64 start, to_int64 end_) ]> (RefOffsets record))
                     record)
             else Ok record);
          Deserialize_fields data rest record (int_add offset fl)
  end.

(** [DeserializeRecord(data, fields)] *)
Definition DeserializeRecord (data : bslice) (fields : list Field) : result Record_ :=
  if sl_len data <? 12 then Err "data too short to be a valid record"
  else
    cell ← sl_slice data 0 8;
    id ← Uint64 cell;
    metaByte ← sl_index data 8;
    cell ← sl_slice data 9 11;
    txLow ← Uint16 cell;
    txHigh ← sl_index data 11;
    let record :=
      mkRecord (to_int64 id)
        (mkRecordMetadata
           (negb (Z.land metaByte 1 =? 0))
           (negb (Z.land metaByte 2 =? 0))
           (negb (Z.land metaByte 4 =? 0))
           (Z.lor txLow (Z.shiftl txHigh 16)))
        ∅ ∅ ∅ in
    Deserialize_fields data fields record 12.

(** ** The data directory

    The file system is a map from cleaned path strings to nodes: a path
    is the names of its directories and its own name, joined by slashes,
    with no empty name, no ["."] and no [".."] among them, and no two paths
    name the same node (no links).  A path that is a key of the map is
    there; for a path that is not, the error is the one of the walk through
    its directories ([path_errno]).

    The program builds its paths by putting names and slashes together and
    cleans none of them; two of its paths name the same node only when
    they are the same string as long as the names put together hold no
    slash.  The properties that tell the files of a table apart are stated
    for such tables ([plain_names]).

    A file holds bytes; a file written by [json.MarshalIndent] is kept as
    the table it was written from, and [json.Unmarshal] reads from it what
    encoding/json makes of that table ([json_Table]). *)
Inductive content : Type :=
| Raw (bytes : list Z)
| Json (t : Table).

Inductive node : Type :=
| Dir
| File (c : content).

Record World : Type := mkWorld {
  fs : gmap string node;
  transactionCounter : Z;
  recordIDCounter : Z
}.

Definition set_fs (f : gmap string node) (w : World) : World :=
  mkWorld f (transactionCounter w) (recordIDCounter w).

Record HTDB : Type := mkHTDB { mainPath : string }.

Definition slash : ascii := "/"%char.
Definition dquote : string := String (ascii_of_nat 34) EmptyString.

(** The directory a path lies in: the text before its last slash. *)
Fixpoint dir_of_aux (cs : list ascii) : option (list ascii) :=
  match cs with
  | [] => None
  | c :: rest =>
      match dir_of_aux rest with
      | Some d => Some (c :: d)
      | None => if Ascii.eqb c slash then Some [] else None
      end
  end.
Definition dir_of (path : string) : option string :=
  string_of_list_ascii <$> dir_of_aux (list_ascii_of_string path).

(** The error numbers of a path that cannot be looked up. *)
Inductive errno : Type := ENOENT | ENOTDIR | ENAMETOOLONG | EINVAL.

#[global] Instance errno_eq_dec : EqDecision errno.
Proof. solve_decision. Defined.

Definition errno_text (e : errno) : string :=
  match e with
  | ENOENT => "no such file or directory"
  | ENOTDIR => "not a directory"
  | ENAMETOOLONG => "file name too long"
  | EINVAL => "invalid argument"
  end.

(** The text of a [*PathError]. *)
Definition path_error (op path : string) (e : errno) : string :=
  op +:+ " " +:+ path +:+ ": " +:+ errno_text e.
Definition is_a_directory (op path : string) : string :=
  op +:+ " " +:+ path +:+ ": is a directory".

(** The limits of a name and of a path (Linux). *)
Definition NAME_MAX : nat := 255.
Definition PATH_MAX : nat := 4096.

(** The walk of the kernel through the directories of a path: [seen] is
    the text before the name at hand, last character first, and [len] the
    length of that name.  Each directory has to be there and to be a
    directory, and no name is longer than [NAME_MAX]; the first failure
    gives the error. *)
Fixpoint walk (f : gmap string node) (cs seen : list ascii) (len : nat)
    : option errno :=
  match cs with
  | [] => if (NAME_MAX <? len)%nat then Some ENAMETOOLONG else None
  | c :: rest =>
      if Ascii.eqb c slash then
        if (NAME_MAX <? len)%nat then Some ENAMETOOLONG
        else
          match f !! string_of_list_ascii (rev seen) with
          | Some Dir => walk f rest (c :: seen) 0
          | Some (File _) => Some ENOTDIR
          | None => Some ENOENT
          end
      else walk f rest (c :: seen) (S len)
  end.

Definition has_NUL (path : string) : bool :=
  existsb (Ascii.eqb Ascii.zero) (list_ascii_of_string path).

(** What stands in the way of a path before its own name is looked up:
    a NUL byte, its length, or a failure of the walk. *)
Definition path_errno (f : gmap string node) (path : string) : option errno :=
  if has_NUL path then Some EINVAL
  else if (PATH_MAX <=? String.length path)%nat then Some ENAMETOOLONG
  else if String.eqb path EmptyString then Some ENOENT
  else walk f (list_ascii_of_string path) [] 0.

(** The error number of a path that is no key of the map. *)
Definition absent_errno (f : gmap string node) (path : string) : errno :=
  default ENOENT (path_errno f path).

(** *** encoding/json

    [json.Marshal] writes a string rune by rune: a byte at which no valid
    UTF-8 sequence starts ([utf8.DecodeRuneInString] gives [RuneError] and
    the size 1) is written as U+FFFD, and that is what [json.Unmarshal]
    reads back. *)
Definition continuation (b : Z) : bool := (128 <=? b) && (b <=? 191).

(** The size of the UTF-8 sequence at the head of [bs]; 0 when none
    starts there. *)
Definition rune_size (bs : list Z) : nat :=
  match bs with
  | [] => 0
  | b0 :: rest =>
      if b0 <? 128 then 1
      else if (194 <=? b0) && (b0 <=? 223) then
        match rest with
        | b1 :: _ => if continuation b1 then 2 else 0
        | _ => 0
        end
      else if (224 <=? b0) && (b0 <=? 239) then
        match rest with
        | b1 :: b2 :: _ =>
            if ((if b0 =? 224 then 160 else 128) <=? b1)
               && (b1 <=? (if b0 =? 237 then 159 else 191))
               && continuation b2
            then 3 else 0
        | _ => 0
        end
      else if (240 <=? b0) && (b0 <=? 244) then
        match rest with
        | b1 :: b2 :: b3 :: _ =>
            if ((if b0 =? 240 then 144 else 128) <=? b1)
               && (b1 <=? (if b0 =? 244 then 143 else 191))
               && continuation b2 && continuation b3
            then 4 else 0
        | _ => 0
        end
      else 0
  end.

(** U+FFFD in UTF-8. *)
Definition replacement : list Z := [239; 191; 189].

(** [skip] bytes are left of the sequence that was found valid. *)
Fixpoint utf8_replace (skip : nat) (bs : list Z) : list Z :=
  match bs with
  | [] => []
  | b :: rest =>
      match skip with
      | S k => b :: utf8_replace k rest
      | O =>
          match rune_size bs with
          | O => replacement ++ utf8_replace 0 rest
          | S k => b :: utf8_replace k rest
          end
      end
  end.

(** A string, a field and a table as they come back from their JSON text.
    [SchemaPath] comes back too; [GetTable] overwrites it. *)
Definition json_string (s : string) : string :=
  string_of_bytes (utf8_replace 0 (bytes_of_string s)).
Definition json_Field (f : Field) : Field :=
  mkField (json_string (Name f)) (json_string (Type_ f)) (Length f)
    (json_string <$> Constraints f).
Definition json_Table (t : Table) : Table :=
  mkTable (json_string (TableName t)) (json_Field <$> Fields t)
    (json_string (SchemaPath t)).

Section Engine.
Context `{GoRuntime}.

Definition content_bytes (c : content) : list Z :=
  match c with
  | Raw bytes => bytes
  | Json t => json_MarshalIndent t
  end.

Definition decode_json (c : content) : result Table :=
  match c with
  | Raw bytes => json_Unmarshal bytes
  | Json t => Ok (json_Table t)
  end.

(** [_, err := os.Stat(path)]: the error number, none when the path is
    there. *)
Definition os_Stat (w : World) (path : string) : option errno :=
  match fs w !! path with
  | Some _ => None
  | None => Some (absent_errno (fs w) path)
  end.

(** [_, err := os.Stat(path); os.IsNotExist(err)] *)
Definition os_IsNotExist (w : World) (path : string) : bool :=
  bool_decide (os_Stat w path = Some ENOENT).

(** [os.ReadFile(path)] *)
Definition os_ReadFile (path : string) : St World content := fun w =>
  match fs w !! path with
  | Some (File c) => (Ok c, w)
  | Some Dir => (Err (is_a_directory "read" path), w)
  | None => (Err (path_error "open" path (absent_errno (fs w) path)), w)
  end.

(** [os.Create(path)]: the file is created or truncated. *)
Definition os_Create (path : string) : St World unit := fun w =>
  match fs w !! path with
  | Some Dir => (Err (is_a_directory "open" path), w)
  | Some (File _) => (Ok tt, set_fs (<[ path := File (Raw []) ]> (fs w)) w)
  | None =>
      match path_errno (fs w) path with
      | None => (Ok tt, set_fs (<[ path := File (Raw []) ]> (fs w)) w)
      | Some e => (Err (path_error "open" path e), w)
      end
  end.

(** [os.WriteFile(path, c, 0644)] *)
Definition os_WriteFile (path : string) (c : content) : St World unit := fun w =>
  match fs w !! path with
  | Some Dir => (Err (is_a_directory "open" path), w)
  | Some (File _) => (Ok tt, set_fs (<[ path := File c ]> (fs w)) w)
  | None =>
      match path_errno (fs w) path with
      | None => (Ok tt, set_fs (<[ path := File c ]> (fs w)) w)
      | Some e => (Err (path_error "open" path e), w)
      end
  end.

(** [file.Write(data)] on a file opened for writing at [path]: the bytes
    are added at its end. *)
Definition file_Write (path : string) (data : list Z) : St World unit := fun w =>
  match fs w !! path with
  | Some (File c) =>
      (Ok tt, set_fs (<[ path := File (Raw (content_bytes c ++ data)) ]> (fs w)) w)
  | _ => (Err ("write " +:+ path +:+ ": bad file descriptor"), w)
  end.

(** The text of a [*LinkError]. *)
Definition link_error (op oldpath newpath reason : string) : string :=
  op +:+ " " +:+ oldpath +:+ " " +:+ newpath +:+ ": " +:+ reason.

(** [os.Rename(oldpath, newpath)] for a regular file at [oldpath]: the
    code renames only the temporary file it has just created. *)
Definition os_Rename (oldpath newpath : string) : St World unit := fun w =>
  match fs w !! oldpath with
  | None =>
      (Err (link_error "rename" oldpath newpath
              (errno_text (absent_errno (fs w) oldpath))), w)
  | Some n =>
      match fs w !! newpath with
      | Some Dir => (Err (link_error "rename" oldpath newpath "file exists"), w)
      | Some (File _) => (Ok tt, set_fs (<[ newpath := n ]> (delete oldpath (fs w))) w)
      | None =>
          match path_errno (fs w) newpath with
          | None => (Ok tt, set_fs (<[ newpath := n ]> (delete oldpath (fs w))) w)
          | Some e => (Err (link_error "rename" oldpath newpath (errno_text e)), w)
          end
      end
  end.

(** [os.Mkdir(path, 0777)] *)
Definition os_Mkdir (path : string) : St World unit := fun w =>
  match fs w !! path with
  | Some _ => (Err ("mkdir " +:+ path +:+ ": file exists"), w)
  | None =>
      match path_errno (fs w) path with
      | None => (Ok tt, set_fs (<[ path := Dir ]> (fs w)) w)
      | Some e => (Err (path_error "mkdir" path e), w)
      end
  end.

(** [os.OpenFile(path, os.O_APPEND|os.O_WRONLY|os.O_CREATE, 0644)] followed
    by [Stat]: the size of the file opened, created empty when absent. *)
Definition os_OpenAppend (path : string) : St World Z := fun w =>
  match fs w !! path with
  | Some Dir => (Err (is_a_directory "open" path), w)
  | Some (File c) => (Ok (Z.of_nat (length (content_bytes c))), w)
  | None =>
      match path_errno (fs w) path with
      | None => (Ok 0, set_fs (<[ path := File (Raw []) ]> (fs w)) w)
      | Some e => (Err (path_error "open" path e), w)
      end
  end.

(** [filepath.Join] on cleaned, non-empty parts. *)
Definition filepath_Join (parts : list string) : string :=
  match parts with
  | [] => EmptyString
  | p :: rest => fold_left (fun acc q => acc +:+ "/" +:+ q) rest p
  end.

(** *** Schema.go *)

Record Schema : Type := mkSchema { name : string; schemaPath : string }.

(** [s.name], for the functions that have a parameter called [name]. *)
Definition Schema_name (s : Schema) : string := name s.

(** A [Response] without its time stamp; used as an error it is kept by
    its [Message]. *)
Record Response : Type := mkResponse { StatusCode : Z; Message : string }.


(** [(db *HTDB) Schema(name)] *)
Definition Schema_ (db : HTDB) (name : string) : St World Schema := fun w =>
  let pathSchema := mainPath db +:+ "/" +:+ name in
  match os_Stat w pathSchema with
  | None => (Ok (mkSchema name pathSchema), w)
  | Some _ => (Err ("Schema " +:+ name +:+ " does not exist"), w)
  end.

(** [(db *HTDB) CreateSchema(name)] *)
Definition CreateSchema (db : HTDB) (name : string) : St World Schema := fun w =>
  let pathSchema := mainPath db +:+ "/" +:+ name in
  if os_IsNotExist w pathSchema then
    (os_Mkdir pathSchema ;;;
     os_Create (pathSchema +:+ "/index.conf" +:+ fileEnding) ;;;
     st_ret (mkSchema name pathSchema))%st w
  else (Err ("Schema " +:+ name +:+ " already exists"), w).

(** *** Table.go *)

Fixpoint validateFieldLengths (fields : list Field) : result unit :=
  match fields with
  | [] => Ok tt
  | f :: rest =>
      if String.eqb (Type_ f) "ref" && negb (Length f =? 128)%N then
        Err ("field '" +:+ Name f +:+ "' of type 'ref' must have a length of "
             +:+ pretty 128 +:+ " bytes")
      else if String.eqb (Type_ f) "timeID" && negb (Length f =? 8)%N then
        Err ("field '" +:+ Name f +:+ "' of type 'timeID' must have a length of 8 bytes")
      else validateFieldLengths rest
  end.

Definition refFilePath_of (schemaPath tableName fieldName : string) : string :=
  schemaPath +:+ "/" +:+ tableName +:+ "." +:+ fieldName +:+ ".data" +:+ fileEnding.

(** The loop of [CreateTable] that creates one data file per ref field. *)
Fixpoint create_ref_files (schemaPath name : string) (fields : list Field)
    : St World (option Response) :=
  match fields with
  | [] => st_ret None
  | field :: rest =>
      if String.eqb (Type_ field) "ref" then
        fun w =>
          match os_Create (refFilePath_of schemaPath name (Name field)) w with
          | (Ok _, w') => create_ref_files schemaPath name rest w'
          | (Err e, w') =>
              (Ok (Some (mkResponse 500 ("Failed to create ref field file: " +:+ e))), w')
          | (Panic p, w') => (Panic p, w')
          end
      else create_ref_files schemaPath name rest
  end.

Definition starts_with_dot (s : string) : bool :=
  match s with
  | String c _ => Ascii.eqb c "."%char
  | EmptyString => false
  end.

(** [(s *Schema) CreateTable(name, fields)] *)
Definition Schema_CreateTable (s : Schema) (name : string) (fields : list Field)
    : St World Response := fun w =>
  let fields := timePKField :: fields in
  let pathTable := schemaPath s +:+ "/" +:+ name +:+ fileEnding in
  let pathConf := schemaPath s +:+ "/" +:+ name +:+ ".conf" +:+ fileEnding in
  if os_IsNotExist w (schemaPath s) then
    (Ok (mkResponse 406 ("Schema " +:+ Schema_name s +:+ " does not exist")), w)
  else if negb (os_IsNotExist w pathTable) then
    (Ok (mkResponse 406 ("Table " +:+ name +:+ " already exists")), w)
  else if String.eqb name EmptyString then
    (Ok (mkResponse 406 "You have to give the table a name"), w)
  else if starts_with_dot name then
    (Ok (mkResponse 406 "Can't name a Table like that, sowwy"), w)
  else if String.eqb name "index" then
    (Ok (mkResponse 406 ("Can't name a Table " +:+ dquote +:+ "index" +:+ dquote
                         +:+ ", sowwy")), w)
  else
    match validateFieldLengths fields with
    | Err e => (Ok (mkResponse 406 e), w)
    | Panic p => (Panic p, w)
    | Ok _ =>
        match os_Create pathTable w with
        | (Err e, w1) => (Ok (mkResponse 500 ("Failed to create table file: " +:+ e)), w1)
        | (Panic p, w1) => (Panic p, w1)
        | (Ok _, w1) =>
            match create_ref_files (schemaPath s) name fields w1 with
            | (Ok (Some resp), w2) => (Ok resp, w2)
            | (Err e, w2) => (Err e, w2)
            | (Panic p, w2) => (Panic p, w2)
            | (Ok None, w2) =>
                match os_Create pathConf w2 with
                | (Err e, w3) => (Ok (mkResponse 500 e), w3)
                | (Panic p, w3) => (Panic p, w3)
                | (Ok _, w3) =>
                    let newTable := mkTable name fields (schemaPath s) in
                    match os_WriteFile pathConf (Json newTable) w3 with
                    | (Err e, w4) =>
                        (Ok (mkResponse 500
                               ("Failed to write JSON to configuration file: " +:+ e)), w4)
                    | (Panic p, w4) => (Panic p, w4)
                    | (Ok _, w4) => (Ok (mkResponse 200 "Table created successfully"), w4)
                    end
                end
            end
        end
    end.

(** [strings.Split(s, ":")] *)
Fixpoint Split_colon_aux (cs : list ascii) (cur : list ascii) : list string :=
  match cs with
  | [] => [string_of_list_ascii (rev cur)]
  | c :: rest =>
      if Ascii.eqb c ":"%char
      then string_of_list_ascii (rev cur) :: Split_colon_aux rest []
      else Split_colon_aux rest (c :: cur)
  end.
Definition Split_colon (s : string) : list string :=
  Split_colon_aux (list_ascii_of_string s) [].

(** [GetTable(tableName, mainPath)] *)
Definition GetTable (tableName : string) (mainPath : string) : St World Table := fun w =>
  let parts := Split_colon tableName in
  let '(schemaName, tableNameOnly) :=
    match parts with
    | p0 :: p1 :: _ => (p0, p1)
    | _ => ("testSchema", tableName)
    end in
  let schemaPath := mainPath +:+ "/" +:+ schemaName in
  let tableConfPath := schemaPath +:+ "/" +:+ tableNameOnly +:+ ".conf" +:+ fileEnding in
  if os_IsNotExist w schemaPath then
    (Err ("schema '" +:+ schemaName +:+ "' does not exist"), w)
  else if os_IsNotExist w tableConfPath then
    (Err ("table '" +:+ tableNameOnly +:+ "' does not exist in schema '"
          +:+ schemaName +:+ "'"), w)
  else
    (tableConf <~ st_wrap (fun e => "failed to read table configuration: " +:+ e)
                    (os_ReadFile tableConfPath) ;;
     table <~ st_wrap (fun e => "failed to parse table configuration: " +:+ e)
                (st_lift (decode_json tableConf)) ;;
     st_ret (mkTable (TableName table) (Fields table) schemaPath))%st w.

(** The loop of [WriteRecords] and of [cleanupTable] that serializes each
    record and writes it to the temporary file. *)
Fixpoint write_records (tempPath : string) (fields : list Field)
    (records : list Record_) : St World unit :=
  match records with
  | [] => st_ret tt
  | record :: rest =>
      (data <~ st_wrap (fun e => "failed to serialize record: " +:+ e)
                 (st_lift (Serialize record fields)) ;;
       st_wrap (fun e => "failed to write record to temporary file: " +:+ e)
         (file_Write tempPath data) ;;;
       write_records tempPath fields rest)%st
  end.

(** [(t *Table) WriteRecords(records)] *)
Definition WriteRecords (t : Table) (records : list Record_) : St World unit :=
  let tablePath := SchemaPath t +:+ "/" +:+ TableName t +:+ fileEnding in
  let tempPath := tablePath +:+ ".temp" in
  (st_wrap (fun e => "failed to create temporary file: " +:+ e) (os_Create tempPath) ;;;
   write_records tempPath (Fields t) records ;;;
   st_wrap (fun e => "failed to replace table file: " +:+ e)
     (os_Rename tempPath tablePath))%st.

(** The loop of [GetAllRecords],
    [for i := 0; i < len(data); i += recordSize], with its [break] on a
    partial record.  A round that does not end the loop has decoded a
    record, of 12 bytes or more, so there are fewer rounds than bytes and
    the [rounds] given by [GetAllRecords] are never used up; [i] stays
    below [len(data)] and [recordSize] is at most [len(data)] once a record
    was read, so [i + recordSize] does not wrap. *)
Fixpoint parse_records (data : list Z) (fields : list Field) (recordSize : Z)
    (i : Z) (rounds : nat) : result (list Record_) :=
  match rounds with
  | O => Ok []
  | S k =>
      if negb (i <? Z.of_nat (length data)) then Ok []
      else if Z.of_nat (length data) <? i + recordSize then Ok []
      else
        recordData ← sl_slice (slice_of data) i (i + recordSize);
        record ← match DeserializeRecord recordData fields with
                 | Err e => Err ("failed to deserialize record: " +:+ e)
                 | other => other
                 end;
        records ← parse_records data fields recordSize (i + recordSize) k;
        Ok (record :: records)
  end.

(** [(t *Table) GetAllRecords()] *)
Definition GetAllRecords (t : Table) : St World (list Record_) := fun w =>
  let tablePath := SchemaPath t +:+ "/" +:+ TableName t +:+ fileEnding in
  if os_IsNotExist w tablePath then (Ok [], w)
  else
    (c <~ st_wrap (fun e => "failed to read table file: " +:+ e)
            (os_ReadFile tablePath) ;;
     let data := content_bytes c in
     let recordSize := int_add (recordSize_from 0 (Fields t)) 12 in
     st_lift (parse_records data (Fields t) recordSize 0 (S (length data))))%st w.

(** *** Record.go: ref data *)

(** [(r *Record) WriteRefData(schema, tableName, fieldName, value)] *)
Definition WriteRefData (schema tableName fieldName : string) (value : string)
    : St (World * Record_) unit := fun '(w, r) =>
  let refFilePath := refFilePath_of schema tableName fieldName in
  match os_OpenAppend refFilePath w with
  | (Err e, w') => (Err ("failed to open ref field file: " +:+ e), (w', r))
  | (Panic p, w') => (Panic p, (w', r))
  | (Ok start, w') =>
      match file_Write refFilePath (bytes_of_string value) w' with
      | (Err e, w'') => (Err ("failed to write to ref field file: " +:+ e), (w'', r))
      | (Panic p, w'') => (Panic p, (w'', r))
      | (Ok _, w'') =>
          (Ok tt,
           (w'', set_RefOffsets
                   (<[ fieldName := (start, start + Z.of_nat (String.length value)) ]>
                      (RefOffsets r)) r))
      end
  end.

(** [(r *Record) ReadRefData(schema, tableName, fieldName)] *)
Definition ReadRefData (r : Record_) (schema tableName fieldName : string)
    : St World string := fun w =>
  match RefOffsets r !! fieldName with
  | None => (Err ("no ref offsets found for field '" +:+ fieldName +:+ "'"), w)
  | Some offsets =>
      let refFilePath := refFilePath_of schema tableName fieldName in
      match os_ReadFile refFilePath w with
      | (Err e, w') => (Err ("failed to read ref field file: " +:+ e), w')
      | (Panic p, w') => (Panic p, w')
      | (Ok c, w') =>
          let data := content_bytes c in
          if (fst offsets <? 0) || (Z.of_nat (length data) <? snd offsets)
             || (snd offsets <? fst offsets)
          then (Err ("invalid ref offsets for field '" +:+ fieldName +:+ "'"), w')
          else (Ok (string_of_bytes
                      (take (Z.to_nat (snd offsets - fst offsets))
                         (drop (Z.to_nat (fst offsets)) data))), w')
      end
  end.

(** *** Transaction.go *)

Inductive TransactionStatus : Type :=
| TransactionActive
| TransactionCommitted
| TransactionRolledBack.

#[global] Instance TransactionStatus_eq_dec : EqDecision TransactionStatus.
Proof. solve_decision. Defined.

(** [StartTime] is written once and never read: it is left out.  The [ID]
    of a transaction is [TxID] here. *)
Record Transaction : Type := mkTransaction {
  TxID : Z;
  Status : TransactionStatus;
  LockedRecords : gmap string Z;
  StagedRecords : gmap string (list Record_);
  db : HTDB
}.

Definition set_Status (st : TransactionStatus) (tx : Transaction) : Transaction :=
  mkTransaction (TxID tx) st (LockedRecords tx) (StagedRecords tx) (db tx).
Definition set_LockedRecords (l : gmap string Z) (tx : Transaction) : Transaction :=
  mkTransaction (TxID tx) (Status tx) l (StagedRecords tx) (db tx).
Definition set_StagedRecords (l : gmap string (list Record_)) (tx : Transaction)
    : Transaction :=
  mkTransaction (TxID tx) (Status tx) (LockedRecords tx) l (db tx).

(** [NewTransaction(db)] *)
Definition NewTransaction (db : HTDB) : St World Transaction := fun w =>
  let id := to_uint64 (transactionCounter w + 1) in
  (Ok (mkTransaction id TransactionActive ∅ ∅ db),
   mkWorld (fs w) id (recordIDCounter w)).

Definition lock_key (table : Table) (record : Record_) : string :=
  TableName table +:+ ":" +:+ pretty (ID record).

(** [(tx *Transaction) lockRecordInternal(table, record)] *)
Definition lockRecordInternal (table : Table) : St (Transaction * Record_) unit :=
  fun '(tx, record) =>
  if negb (bool_decide (Status tx = TransactionActive))
  then (Err "transaction is not active", (tx, record))
  else
    match Lock (TxID tx) record with
    | (Ok _, record') =>
        (Ok tt,
         (set_LockedRecords
            (<[ lock_key table record' := ID record' ]> (LockedRecords tx)) tx,
          record'))
    | (Err e, record') => (Err e, (tx, record'))
    | (Panic p, record') => (Panic p, (tx, record'))
    end.

(** [(tx *Transaction) LockRecord(table, record)] *)
Definition LockRecord (table : Table) : St (Transaction * Record_) unit :=
  lockRecordInternal table.

(** "Lock the record if not already locked": the opening of [StageUpdate]
    and [StageDelete]. *)
Definition lock_if_needed (table : Table) : St (Transaction * Record_) unit :=
  fun '(tx, record) =>
  match LockedRecords tx !! lock_key table record with
  | Some _ => (Ok tt, (tx, record))
  | None => lockRecordInternal table (tx, record)
  end.

(** "Add to staged records" *)
Definition stage (table : Table) (staging : Record_) (tx : Transaction) : Transaction :=
  set_StagedRecords
    (<[ TableName table := default [] (StagedRecords tx !! TableName table) ++ [staging] ]>
       (StagedRecords tx)) tx.

Definition find_field (fields : list Field) (field : string) : option Field :=
  find (fun f => String.eqb (Name f) field) fields.

(** One round of the loop of [StageUpdate] over [updates]. *)
Definition apply_update (table : Table) (field : string) (value : value)
    : St (World * Record_) unit := fun '(w, staging) =>
  match find_field (Fields table) field with
  | None =>
      (Err ("field '" +:+ field +:+ "' does not exist in table '"
            +:+ TableName table +:+ "'"), (w, staging))
  | Some fieldDef =>
      if String.eqb (Type_ fieldDef) "ref" then
        match value with
        | VNil =>
            (Ok tt,
             (w, set_RefOffsets (delete field (RefOffsets staging))
                   (set_FieldsData (delete field (FieldsData staging))
                      (set_FieldsMeta
                         (<[ field := mkFieldMetadata true ]> (FieldsMeta staging))
                         staging))))
        | VString strValue =>
            match WriteRefData (SchemaPath table) (TableName table) field strValue
                    (w, staging) with
            | (Ok _, (w', staging')) =>
                (Ok tt,
                 (w', set_FieldsMeta
                        (<[ field := mkFieldMetadata false ]> (FieldsMeta staging'))
                        (set_FieldsData
                           (<[ field := VString strValue ]> (FieldsData staging'))
                           staging')))
            | other => other
            end
        | _ => (Err ("field '" +:+ field +:+ "' requires a string value"), (w, staging))
        end
      else
        match value with
        | VNil =>
            (Ok tt,
             (w, set_FieldsData (delete field (FieldsData staging))
                   (set_FieldsMeta
                      (<[ field := mkFieldMetadata true ]> (FieldsMeta staging))
                      staging)))
        | _ =>
            (Ok tt,
             (w, set_FieldsMeta
                   (<[ field := mkFieldMetadata false ]> (FieldsMeta staging))
                   (set_FieldsData (<[ field := value ]> (FieldsData staging))
                      staging)))
        end
  end.

(** The loop of [StageUpdate]; [updates] lists the entries of the map in
    the order the [range] loop visits them. *)
Fixpoint apply_updates (table : Table) (updates : list (string * value))
    : St (World * Record_) unit :=
  match updates with
  | [] => st_ret tt
  | (field, value) :: rest =>
      (apply_update table field value ;;; apply_updates table rest)%st
  end.

(** [(tx *Transaction) StageUpdate(table, record, updates)].  The state is
    the world, the transaction and the record passed by pointer; [now] is
    the clock reading taken by [Clone]. *)
Definition StageUpdate (now : Z) (table : Table) (updates : list (string * value))
    : St (World * Transaction * Record_) Record_ := fun '(w, tx, record) =>
  if negb (bool_decide (Status tx = TransactionActive))
  then (Err "transaction is not active", (w, tx, record))
  else
    match lock_if_needed table (tx, record) with
    | (Err e, (tx, record)) => (Err e, (w, tx, record))
    | (Panic p, (tx, record)) => (Panic p, (w, tx, record))
    | (Ok _, (tx, record)) =>
        match Clone now (TxID tx) record with
        | Err e => (Err e, (w, tx, record))
        | Panic p => (Panic p, (w, tx, record))
        | Ok staging =>
            match apply_updates table updates (w, staging) with
            | (Err e, (w, _)) => (Err e, (w, tx, record))
            | (Panic p, (w, _)) => (Panic p, (w, tx, record))
            | (Ok _, (w, staging)) => (Ok staging, (w, stage table staging tx, record))
            end
        end
    end.

(** [(tx *Transaction) StageDelete(table, record)] *)
Definition StageDelete (now : Z) (table : Table)
    : St (Transaction * Record_) unit := fun '(tx, record) =>
  if negb (bool_decide (Status tx = TransactionActive))
  then (Err "transaction is not active", (tx, record))
  else
    match lock_if_needed table (tx, record) with
    | (Ok _, (tx, record)) =>
        match Clone now (TxID tx) record with
        | Err e => (Err e, (tx, record))
        | Panic p => (Panic p, (tx, record))
        | Ok staging =>
            let staging := set_Metadata (set_IsDeleted true (Metadata staging)) staging in
            (Ok tt, (stage table staging tx, record))
        end
    | other => other
    end.

(** The loop of [StageInsert] over the ref fields of the table. *)
Fixpoint write_ref_fields (table : Table) (fields : list Field)
    (data : gmap string value) : St (World * Record_) unit :=
  match fields with
  | [] => st_ret tt
  | field :: rest =>
      if String.eqb (Type_ field) "ref" then
        match data !! Name field with
        | None | Some VNil => write_ref_fields table rest data
        | Some (VString strValue) =>
            (WriteRefData (SchemaPath table) (TableName table) (Name field) strValue ;;;
             write_ref_fields table rest data)%st
        | Some _ => st_fail ("field '" +:+ Name field +:+ "' requires a string value")
        end
      else write_ref_fields table rest data
  end.

(** [(tx *Transaction) StageInsert(table, data)]; [now] is the clock
    reading. *)
Definition StageInsert (now : Z) (table : Table) (data : gmap string value)
    : St (World * Transaction) Record_ := fun '(w, tx) =>
  if negb (bool_decide (Status tx = TransactionActive))
  then (Err "transaction is not active", (w, tx))
  else
    let counter := to_int64 (recordIDCounter w + 1) in
    let w := mkWorld (fs w) (transactionCounter w) counter in
    let id := to_int64 (now + counter) in
    let record := NewRecord id data in
    let record :=
      set_Metadata (set_TransactionID (TxID tx) (set_IsLocked true (Metadata record)))
        record in
    match write_ref_fields table (Fields table) data (w, record) with
    | (Err e, (w, _)) => (Err e, (w, tx))
    | (Panic p, (w, _)) => (Panic p, (w, tx))
    | (Ok _, (w, record)) => (Ok record, (w, stage table record tx))
    end.

(** "Update existing records' is_current flag": the two nested loops of
    [Commit]. *)
Definition demote_one (staged : Record_) (existing : Record_) : Record_ :=
  if iface_eq (index_map (FieldsData existing) "id") (index_map (FieldsData staged) "id")
     && negb (IsDeleted (Metadata staged))
  then set_Metadata (set_IsCurrent false (Metadata existing)) existing
  else existing.

Definition demote_existing (records existingRecords : list Record_) : list Record_ :=
  fold_left (fun existingRecords staged => demote_one staged <$> existingRecords)
    records existingRecords.

(** "Mark staged records as current and not locked" *)
Definition mark_committed (record : Record_) : Record_ :=
  set_Metadata
    (set_TransactionID 0 (set_IsLocked false (set_IsCurrent true (Metadata record))))
    record.

(** One round of the loop of [Commit] over [tx.StagedRecords]. *)
Definition commit_table (tableName : string) (records : list Record_)
    : St (World * Transaction) unit := fun '(w, tx) =>
  match GetTable tableName (mainPath (db tx)) w with
  | (Err e, w) =>
      (Err ("failed to get table '" +:+ tableName +:+ "': " +:+ e), (w, tx))
  | (Panic p, w) => (Panic p, (w, tx))
  | (Ok table, w) =>
      match GetAllRecords table w with
      | (Err e, w) =>
          (Err ("failed to get existing records for table '" +:+ tableName
                +:+ "': " +:+ e), (w, tx))
      | (Panic p, w) => (Panic p, (w, tx))
      | (Ok existingRecords, w) =>
          let existingRecords := demote_existing records existingRecords in
          let records := mark_committed <$> records in
          let tx := set_StagedRecords (<[ tableName := records ]> (StagedRecords tx)) tx in
          match WriteRecords table (existingRecords ++ records) w with
          | (Err e, w) =>
              (Err ("failed to write records to table '" +:+ tableName
                    +:+ "': " +:+ e), (w, tx))
          | (Panic p, w) => (Panic p, (w, tx))
          | (Ok _, w) => (Ok tt, (w, tx))
          end
      end
  end.

Fixpoint commit_tables (staged : list (string * list Record_))
    : St (World * Transaction) unit :=
  match staged with
  | [] => st_ret tt
  | (tableName, records) :: rest =>
      (commit_table tableName records ;;; commit_tables rest)%st
  end.

(** [(tx *Transaction) Commit()].  The tables are visited in the order
    [map_to_list] lists them (Go leaves the order open). *)
Definition Commit : St (World * Transaction) unit := fun '(w, tx) =>
  if negb (bool_decide (Status tx = TransactionActive))
  then (Err "transaction is not active", (w, tx))
  else
    match commit_tables (map_to_list (StagedRecords tx)) (w, tx) with
    | (Ok _, (w, tx)) => (Ok tt, (w, set_Status TransactionCommitted tx))
    | other => other
    end.

(** "Unlock records": the inner loop of [Rollback]. *)
Definition unlock_held (txID : Z) (existing : Record_) : Record_ :=
  if IsLocked (Metadata existing) && (TransactionID (Metadata existing) =? txID)
  then set_Metadata (set_TransactionID 0 (set_IsLocked false (Metadata existing))) existing
  else existing.

Definition rollback_table (tableName : string) : St (World * Transaction) unit :=
  fun '(w, tx) =>
  match GetTable tableName (mainPath (db tx)) w with
  | (Err e, w) =>
      (Err ("failed to get table '" +:+ tableName +:+ "': " +:+ e), (w, tx))
  | (Panic p, w) => (Panic p, (w, tx))
  | (Ok table, w) =>
      match GetAllRecords table w with
      | (Err e, w) =>
          (Err ("failed to get existing records for table '" +:+ tableName
                +:+ "': " +:+ e), (w, tx))
      | (Panic p, w) => (Panic p, (w, tx))
      | (Ok existingRecords, w) =>
          match WriteRecords table (unlock_held (TxID tx) <$> existingRecords) w with
          | (Err e, w) =>
              (Err ("failed to write records to table '" +:+ tableName
                    +:+ "': " +:+ e), (w, tx))
          | (Panic p, w) => (Panic p, (w, tx))
          | (Ok _, w) => (Ok tt, (w, tx))
          end
      end
  end.

Fixpoint rollback_tables (names : list string) : St (World * Transaction) unit :=
  match names with
  | [] => st_ret tt
  | tableName :: rest => (rollback_table tableName ;;; rollback_tables rest)%st
  end.

(** [(tx *Transaction) Rollback()] *)
Definition Rollback : St (World * Transaction) unit := fun '(w, tx) =>
  if negb (bool_decide (Status tx = TransactionActive))
  then (Err "transaction is not active", (w, tx))
  else
    match rollback_tables (fst <$> map_to_list (StagedRecords tx)) (w, tx) with
    | (Ok _, (w, tx)) => (Ok tt, (w, set_Status TransactionRolledBack tx))
    | other => other
    end.

(** *** TableManager.go

    The registry maps the id of a live transaction to a pointer to it; the
    model keeps the ids and passes the transaction along. *)
Record TableManager : Type := mkTableManager {
  tm_db : HTDB;
  transactions : gset Z
}.

Definition NewTableManager (db : HTDB) : TableManager := mkTableManager db ∅.

(** [(tm *TableManager) BeginTransaction()] *)
Definition BeginTransaction : St (World * TableManager) Transaction := fun '(w, tm) =>
  match NewTransaction (tm_db tm) w with
  | (Ok tx, w) => (Ok tx, (w, mkTableManager (tm_db tm) ({[ TxID tx ]} ∪ transactions tm)))
  | (Err e, w) => (Err e, (w, tm))
  | (Panic p, w) => (Panic p, (w, tm))
  end.

(** [(tm *TableManager) CommitTransaction(tx)] *)
Definition CommitTransaction : St (World * TableManager * Transaction) unit :=
  fun '(w, tm, tx) =>
  if negb (bool_decide (TxID tx ∈ transactions tm))
  then (Err "transaction not found", (w, tm, tx))
  else
    match Commit (w, tx) with
    | (Ok _, (w, tx)) =>
        (Ok tt, (w, mkTableManager (tm_db tm) (transactions tm ∖ {[ TxID tx ]}), tx))
    | (Err e, (w, tx)) => (Err e, (w, tm, tx))
    | (Panic p, (w, tx)) => (Panic p, (w, tm, tx))
    end.

(** [(tm *TableManager) RollbackTransaction(tx)] *)
Definition RollbackTransaction : St (World * TableManager * Transaction) unit :=
  fun '(w, tm, tx) =>
  if negb (bool_decide (TxID tx ∈ transactions tm))
  then (Err "transaction not found", (w, tm, tx))
  else
    match Rollback (w, tx) with
    | (Ok _, (w, tx)) =>
        (Ok tt, (w, mkTableManager (tm_db tm) (transactions tm ∖ {[ TxID tx ]}), tx))
    | (Err e, (w, tx)) => (Err e, (w, tm, tx))
    | (Panic p, (w, tx)) => (Panic p, (w, tm, tx))
    end.

(** [fmt.Errorf(format)] without arguments: a format that holds no ['%']
    is the message. *)
Definition fmt_Errorf (format : string) : string :=
  if existsb (Ascii.eqb "%"%char) (list_ascii_of_string format)
  then Errorf_verbs format
  else format.

(** The call [tm.RollbackTransaction(tx)] whose result is dropped. *)
Definition rollback_quietly (w : World) (tm : TableManager) (tx : Transaction)
    : World * TableManager :=
  let '(_, (w, tm, _)) := RollbackTransaction (w, tm, tx) in (w, tm).

(** [(tm *TableManager) CreateTable(schemaName, tableName, fields)] *)
Definition CreateTable (schemaName tableName : string) (fields : list Field)
    : St (World * TableManager) Table := fun '(w, tm) =>
  match Schema_ (tm_db tm) schemaName w with
  | (Err e, w) => (Err e, (w, tm))
  | (Panic p, w) => (Panic p, (w, tm))
  | (Ok schema, w) =>
      match Schema_CreateTable schema tableName fields w with
      | (Err e, w) => (Err e, (w, tm))
      | (Panic p, w) => (Panic p, (w, tm))
      | (Ok resp, w) =>
          if 400 <=? StatusCode resp then (Err (fmt_Errorf (Message resp)), (w, tm))
          else
            match GetTable (schemaName +:+ ":" +:+ tableName) (mainPath (tm_db tm)) w with
            | (Ok table, w) => (Ok table, (w, tm))
            | (Err e, w) => (Err e, (w, tm))
            | (Panic p, w) => (Panic p, (w, tm))
            end
      end
  end.

(** [(tm *TableManager) GetTable(schemaName, tableName)] *)
Definition TableManager_GetTable (tm : TableManager) (schemaName tableName : string)
    : St World Table :=
  GetTable (schemaName +:+ ":" +:+ tableName) (mainPath (tm_db tm)).

(** [(tm *TableManager) InsertRecord(table, data)].  The record returned
    is the one staged, as [Commit] has marked it. *)
Definition InsertRecord (now : Z) (table : Table) (data : gmap string value)
    : St (World * TableManager) Record_ := fun '(w, tm) =>
  match BeginTransaction (w, tm) with
  | (Err e, s) => (Err e, s)
  | (Panic p, s) => (Panic p, s)
  | (Ok tx, (w, tm)) =>
      match StageInsert now table data (w, tx) with
      | (Err e, (w, tx)) => (Err e, rollback_quietly w tm tx)
      | (Panic p, (w, tx)) => (Panic p, (w, tm))
      | (Ok record, (w, tx)) =>
          match CommitTransaction (w, tm, tx) with
          | (Ok _, (w, tm, _)) => (Ok (mark_committed record), (w, tm))
          | (Err e, (w, tm, _)) => (Err e, (w, tm))
          | (Panic p, (w, tm, _)) => (Panic p, (w, tm))
          end
      end
  end.

(** [(tm *TableManager) UpdateRecord(table, record, updates)] *)
Definition UpdateRecord (now : Z) (table : Table) (updates : list (string * value))
    : St (World * TableManager * Record_) Record_ := fun '(w, tm, record) =>
  match BeginTransaction (w, tm) with
  | (Err e, (w, tm)) => (Err e, (w, tm, record))
  | (Panic p, (w, tm)) => (Panic p, (w, tm, record))
  | (Ok tx, (w, tm)) =>
      match StageUpdate now table updates (w, tx, record) with
      | (Err e, (w, tx, record)) =>
          let '(w, tm) := rollback_quietly w tm tx in (Err e, (w, tm, record))
      | (Panic p, (w, tx, record)) => (Panic p, (w, tm, record))
      | (Ok updatedRecord, (w, tx, record)) =>
          match CommitTransaction (w, tm, tx) with
          | (Ok _, (w, tm, _)) => (Ok (mark_committed updatedRecord), (w, tm, record))
          | (Err e, (w, tm, _)) => (Err e, (w, tm, record))
          | (Panic p, (w, tm, _)) => (Panic p, (w, tm, record))
          end
      end
  end.

(** [(tm *TableManager) DeleteRecord(table, record)] *)
Definition DeleteRecord (now : Z) (table : Table)
    : St (World * TableManager * Record_) unit := fun '(w, tm, record) =>
  match BeginTransaction (w, tm) with
  | (Err e, (w, tm)) => (Err e, (w, tm, record))
  | (Panic p, (w, tm)) => (Panic p, (w, tm, record))
  | (Ok tx, (w, tm)) =>
      match StageDelete now table (tx, record) with
      | (Err e, (tx, record)) =>
          let '(w, tm) := rollback_quietly w tm tx in (Err e, (w, tm, record))
      | (Panic p, (tx, record)) => (Panic p, (w, tm, record))
      | (Ok _, (tx, record)) =>
          match CommitTransaction (w, tm, tx) with
          | (Ok _, (w, tm, _)) => (Ok tt, (w, tm, record))
          | (Err e, (w, tm, _)) => (Err e, (w, tm, record))
          | (Panic p, (w, tm, _)) => (Panic p, (w, tm, record))
          end
      end
  end.

Definition is_current (record : Record_) : bool :=
  IsCurrent (Metadata record) && negb (IsDeleted (Metadata record)).

(** [(tm *TableManager) GetCurrentRecords(table)] *)
Definition GetCurrentRecords (table : Table) : St World (list Record_) :=
  (records <~ GetAllRecords table ;; st_ret (List.filter is_current records))%st.

(** [(tm *TableManager) GetRecordByID(table, id)] *)
Definition GetRecordByID (table : Table) (id : Z) : St World Record_ :=
  (records <~ GetAllRecords table ;;
   match find (fun record => (ID record =? id) && IsCurrent (Metadata record)) records with
   | Some record => st_ret record
   | None => st_fail "record not found"
   end)%st.

(** *** Cleanup.go *)

(** The second loop of [cleanupRefField]: it copies each range still in
    use to the temporary file and gives the records their new offsets.
    The records come back as the loop leaves them in memory. *)
Fixpoint compact_refs (tempRefPath fieldName : string) (refData : list Z)
    (records : list Record_) (offsetMap : gmap (Z * Z) (Z * Z)) (currentOffset : Z)
    : St World (list Record_) :=
  match records with
  | [] => st_ret []
  | record :: rest =>
      match RefOffsets record !! fieldName with
      | None =>
          (rest' <~ compact_refs tempRefPath fieldName refData rest offsetMap currentOffset ;;
           st_ret (record :: rest'))%st
      | Some offsets =>
          match offsetMap !! offsets with
          | Some newOffsets =>
              let record :=
                set_RefOffsets (<[ fieldName := newOffsets ]> (RefOffsets record)) record in
              (rest' <~ compact_refs tempRefPath fieldName refData rest offsetMap
                          currentOffset ;;
               st_ret (record :: rest'))%st
          | None =>
              let '(start, end_) := offsets in
              if (start <? 0) || (Z.of_nat (length refData) <? end_) || (end_ <? start)
              then
                (rest' <~ compact_refs tempRefPath fieldName refData rest offsetMap
                            currentOffset ;;
                 st_ret (record :: rest'))%st
              else
                let data := take (Z.to_nat (end_ - start)) (drop (Z.to_nat start) refData) in
                let newStart := currentOffset in
                let newEnd := newStart + Z.of_nat (length data) in
                let newOffsets := (newStart, newEnd) in
                let record :=
                  set_RefOffsets (<[ fieldName := newOffsets ]> (RefOffsets record)) record in
                (st_wrap (fun e => "failed to write ref data to temporary file: " +:+ e)
                   (file_Write tempRefPath data) ;;;
                 rest' <~ compact_refs tempRefPath fieldName refData rest
                            (<[ offsets := newOffsets ]> offsetMap) newEnd ;;
                 st_ret (record :: rest'))%st
          end
      end
  end.

(** "Create a map of used offsets" *)
Definition usedRanges (fieldName : string) (records : list Record_) : gset (Z * Z) :=
  fold_left (fun used record =>
               match RefOffsets record !! fieldName with
               | Some offsets => {[ offsets ]} ∪ used
               | None => used
               end) records ∅.

(** [(w *CleanupWorker) cleanupRefField(schema, tableName, fieldName, records)];
    the records are returned as the function leaves them. *)
Definition cleanupRefField (db : HTDB) (schema tableName fieldName : string)
    (records : list Record_) : St World (list Record_) := fun w =>
  let refFilePath :=
    filepath_Join [mainPath db; schema; tableName +:+ "." +:+ fieldName +:+ ".data" +:+ fileEnding] in
  if os_IsNotExist w refFilePath then (Ok records, w)
  else
    (c <~ st_wrap (fun e => "failed to read ref field file: " +:+ e)
            (os_ReadFile refFilePath) ;;
     let refData := content_bytes c in
     if bool_decide (usedRanges fieldName records = ∅) then st_ret records
     else
       let tempRefPath := refFilePath +:+ ".temp" in
       st_wrap (fun e => "failed to create temporary ref file: " +:+ e)
         (os_Create tempRefPath) ;;;
       records' <~ compact_refs tempRefPath fieldName refData records ∅ 0 ;;
       st_wrap (fun e => "failed to replace ref field file: " +:+ e)
         (os_Rename tempRefPath refFilePath) ;;;
       st_ret records')%st w.

(** The last loop of [cleanupTable]: an error of [cleanupRefField] is
    printed and dropped. *)
Fixpoint cleanup_ref_fields (db : HTDB) (schema tableName : string)
    (fields : list Field) (currentRecords : list Record_) : St World unit :=
  match fields with
  | [] => st_ret tt
  | field :: rest =>
      if String.eqb (Type_ field) "ref" then
        fun w =>
          match cleanupRefField db schema tableName (Name field) currentRecords w with
          | (Ok currentRecords, w) =>
              cleanup_ref_fields db schema tableName rest currentRecords w
          | (Err _, w) => cleanup_ref_fields db schema tableName rest currentRecords w
          | (Panic p, w) => (Panic p, w)
          end
      else cleanup_ref_fields db schema tableName rest currentRecords
  end.

(** [(w *CleanupWorker) cleanupTable(schema, tableName)] *)
Definition cleanupTable (db : HTDB) (schema tableName : string) : St World unit :=
  let tableConfPath :=
    filepath_Join [mainPath db; schema; tableName +:+ ".conf" +:+ fileEnding] in
  let tableDataPath := filepath_Join [mainPath db; schema; tableName +:+ fileEnding] in
  (tableConf <~ st_wrap (fun e => "failed to read table configuration: " +:+ e)
                  (os_ReadFile tableConfPath) ;;
   table <~ st_wrap (fun e => "failed to parse table configuration: " +:+ e)
              (st_lift (decode_json tableConf)) ;;
   let table :=
     mkTable (TableName table) (Fields table) (filepath_Join [mainPath db; schema]) in
   records <~ st_wrap (fun e => "failed to read records: " +:+ e) (GetAllRecords table) ;;
   let currentRecords := List.filter is_current records in
   if (length currentRecords =? length records)%nat then st_ret tt
   else
     let tempDataPath := tableDataPath +:+ ".temp" in
     st_wrap (fun e => "failed to create temporary file: " +:+ e)
       (os_Create tempDataPath) ;;;
     write_records tempDataPath (Fields table) currentRecords ;;;
     st_wrap (fun e => "failed to replace table file: " +:+ e)
       (os_Rename tempDataPath tableDataPath) ;;;
     cleanup_ref_fields db schema tableName (Fields table) currentRecords)%st.

(** *** Query.go *)

Record FilterCondition : Type := mkFilterCondition {
  Field_ : string;
  Operator : string;
  Value : value
}.

Record Query : Type := mkQuery {
  table : Table;
  limitCount : Z;
  sortField : string;
  sortAscending : bool;
  conditions : list FilterCondition
}.

(** [(tm *TableManager) Select(table)] *)
Definition Select (table : Table) : Query := mkQuery table (-1) EmptyString true [].

(** [(q *Query) Sort(field, ascending)] *)
Definition Sort (field : string) (ascending : bool) (q : Query) : Query :=
  mkQuery (table q) (limitCount q) field ascending (conditions q).

(** [(q *Query) Limit(count)] *)
Definition Limit (count : Z) (q : Query) : Query :=
  mkQuery (table q) count (sortField q) (sortAscending q) (conditions q).

(** [(q *Query) Where(field, operator, value)] *)
Definition Where (field operator : string) (value : value) (q : Query) : Query :=
  mkQuery (table q) (limitCount q) (sortField q) (sortAscending q)
    (conditions q ++ [mkFilterCondition field operator value]).

(** [equals(a, b)] *)
Definition equals (a b : value) : bool :=
  match a with
  | VString aVal => match b with VString bVal => String.eqb aVal bVal | _ => false end
  | VInt aVal =>
      match b with
      | VInt bVal => aVal =? bVal
      | VFloat64 bVal => SFeqb (float64_of_int aVal) bVal
      | _ => false
      end
  | VFloat64 aVal =>
      match b with
      | VFloat64 bVal => SFeqb aVal bVal
      | VInt bVal => SFeqb aVal (float64_of_int bVal)
      | _ => false
      end
  | VBool aVal => match b with VBool bVal => Bool.eqb aVal bVal | _ => false end
  | _ => false
  end.

(** [lessThan(a, b)] *)
Definition lessThan (a b : value) : bool :=
  match a with
  | VString aVal => match b with VString bVal => String.ltb aVal bVal | _ => false end
  | VInt aVal =>
      match b with
      | VInt bVal => aVal <? bVal
      | VFloat64 bVal => SFltb (float64_of_int aVal) bVal
      | _ => false
      end
  | VFloat64 aVal =>
      match b with
      | VFloat64 bVal => SFltb aVal bVal
      | VInt bVal => SFltb aVal (float64_of_int bVal)
      | _ => false
      end
  | _ => false
  end.

(** [greaterThan(a, b)] *)
Definition greaterThan (a b : value) : bool :=
  match a with
  | VString aVal => match b with VString bVal => String.ltb bVal aVal | _ => false end
  | VInt aVal =>
      match b with
      | VInt bVal => bVal <? aVal
      | VFloat64 bVal => SFltb bVal (float64_of_int aVal)
      | _ => false
      end
  | VFloat64 aVal =>
      match b with
      | VFloat64 bVal => SFltb bVal aVal
      | VInt bVal => SFltb (float64_of_int bVal) aVal
      | _ => false
      end
  | _ => false
  end.

(** [greaterThanOrEqual(a, b)] and [lessThanOrEqual(a, b)] *)
Definition greaterThanOrEqual (a b : value) : bool := greaterThan a b || equals a b.
Definition lessThanOrEqual (a b : value) : bool := lessThan a b || equals a b.

(** One round of the loop of [matchesConditions]. *)
Definition matchesCondition (record : Record_) (condition : FilterCondition) : bool :=
  match FieldsData record !! Field_ condition with
  | None => false
  | Some fieldValue =>
      let op := Operator condition in
      if String.eqb op "=" then equals fieldValue (Value condition)
      else if String.eqb op "!=" then negb (equals fieldValue (Value condition))
      else if String.eqb op ">" then greaterThan fieldValue (Value condition)
      else if String.eqb op ">=" then greaterThanOrEqual fieldValue (Value condition)
      else if String.eqb op "<" then lessThan fieldValue (Value condition)
      else if String.eqb op "<=" then lessThanOrEqual fieldValue (Value condition)
      else false
  end.

(** [matchesConditions(record, conditions)] *)
Definition matchesConditions (record : Record_) (conditions : list FilterCondition)
    : bool :=
  forallb (matchesCondition record) conditions.

(** [fmt.Sprintf("%v", v)] *)
Definition Sprintf_v (v : value) : string :=
  match v with
  | VNil => "<nil>"
  | VInt n => pretty n
  | VInt64 n => pretty n
  | VFloat64 f => Sprint_float64 f
  | VString s => s
  | VBool b => if b then "true" else "false"
  end.

(** The closure [less] of [sortRecords], on the two records compared. *)
Definition less (field : string) (ascending : bool) (recI recJ : Record_) : bool :=
  match FieldsData recI !! field, FieldsData recJ !! field with
  | None, _ => false
  | Some _, None => true
  | Some valI, Some valJ =>
      let result :=
        match valI with
        | VString strI =>
            String.ltb strI (match valJ with VString strJ => strJ | _ => EmptyString end)
        | VInt intI => intI <? (match valJ with VInt intJ => intJ | _ => 0 end)
        | VFloat64 floatI =>
            SFltb floatI (match valJ with VFloat64 floatJ => floatJ | _ => S754_zero false end)
        | _ => String.ltb (Sprintf_v valI) (Sprintf_v valJ)
        end in
      if ascending then result else negb result
  end.

(** [sort.Slice] is Go's library.  On a slice of at most 12 elements it
    runs [insertionSortLessFunc] (Go 1.19 and later):
    [for i := a + 1; i < b; i++ { for j := i; j > a && less(data[j], data[j-1]); j-- { swap } }].
    [sink lt x before] lets [x] move left through [before], the elements
    on its left listed nearest first, and returns them with [x] in place.
    Longer slices take other paths of the library, which are not embedded:
    what is proved of [sort_Slice] is stated for at most 12 elements. *)
Fixpoint sink {A : Type} (lt : A -> A -> bool) (x : A) (before : list A) : list A :=
  match before with
  | [] => [x]
  | y :: rest => if lt x y then y :: sink lt x rest else x :: y :: rest
  end.

Definition sort_Slice {A : Type} (lt : A -> A -> bool) (data : list A) : list A :=
  rev (fold_left (fun before x => sink lt x before) data []).

(** [sortRecords(records, field, ascending)] *)
Definition sortRecords (records : list Record_) (field : string) (ascending : bool)
    : list Record_ :=
  sort_Slice (fun recJ recJ1 => less field ascending recJ recJ1) records.

(** [(q *Query) GetAll()] *)
Definition GetAll (q : Query) : St World (list Record_) :=
  (records <~ GetAllRecords (table q) ;;
   let currentRecords := List.filter is_current records in
   let currentRecords :=
     if (0 <? length (conditions q))%nat
     then List.filter (fun record => matchesConditions record (conditions q)) currentRecords
     else currentRecords in
   let currentRecords :=
     if negb (String.eqb (sortField q) EmptyString)
     then sortRecords currentRecords (sortField q) (sortAscending q)
     else currentRecords in
   if (0 <? limitCount q) && (limitCount q <? Z.of_nat (length currentRecords))
   then st_ret (take (Z.to_nat (limitCount q)) currentRecords)
   else st_ret currentRecords)%st.

End Engine.

(** ** Running a sequence of calls *)

(** The next call of a scenario, made when the call before returned. *)
Definition step {S A B} (x : result A * S) (k : A -> S -> result B) : result B :=
  match x with
  | (Ok a, s) => k a s
  | (Err e, _) => Err e
  | (Panic p, _) => Panic p
  end.

(** ** Example data *)

Definition example_db : HTDB := mkHTDB "data".
Definition empty_root : World := mkWorld {[ "data" := Dir ]} 0 0.
Definition valField : Field := mkField "val" Int 8 [].
Definition nField : Field := mkField "n" Int 8 [].
Definition xField : Field := mkField "x" Float 8 [].
Definition bodyField : Field := mkField "body" "ref" 128 [].

(** A runtime for closed examples; none of them converts an out-of-range
    float, prints a float, reads JSON text that was not written by
    [json.MarshalIndent] or makes an error of a format with a ['%']. *)
Definition example_runtime : GoRuntime :=
  mkGoRuntime (fun _ => 2 ^ 63) (fun _ => EmptyString) (fun _ => [])
    (fun _ => Err "unexpected end of JSON input") (fun format => format).

(** A record that transaction 1 has locked. *)
Definition locked_by_1 : Record_ :=
  mkRecord 1001 (mkRecordMetadata true false true 1)
    {[ "id" := VInt64 1001; "val" := VInt64 7 ]}
    {[ "id" := mkFieldMetadata false; "val" := mkFieldMetadata false ]} ∅.

(** A data directory whose default schema holds a table [t]. *)
Definition default_schema_world : World :=
  mkWorld
    {[ "data" := Dir;
       "data/testSchema" := Dir;
       "data/testSchema/t.conf.htdb" :=
         File (Json (mkTable "t" [timePKField; valField] "data/testSchema"));
       "data/testSchema/t.htdb" := File (Raw []) ]} 0 0.

(** Two records with the same value of [n]. *)
Definition tie_first : Record_ :=
  mkRecord 1 (mkRecordMetadata true false false 0)
    {[ "id" := VInt64 1; "n" := VInt64 5 ]}
    {[ "id" := mkFieldMetadata false; "n" := mkFieldMetadata false ]} ∅.
Definition tie_second : Record_ :=
  mkRecord 2 (mkRecordMetadata true false false 0)
    {[ "id" := VInt64 2; "n" := VInt64 5 ]}
    {[ "id" := mkFieldMetadata false; "n" := mkFieldMetadata false ]} ∅.



(** [tx] holds the lock of [r]. *)
Definition holds_lock (tx : Z) (r : Record_) : Prop :=
  IsLocked (Metadata r) = true /\ TransactionID (Metadata r) = tx.

(** [math.Float64bits] on zeros, infinities and finite values in normal
    form: the bit pattern of the IEEE-754 double. *)
Definition Float64bits (v : float64) : Z :=
  let sign (s : bool) := if s then 2 ^ 63 else 0 in
  match v with
  | S754_zero s => sign s
  | S754_infinity s => sign s + 2047 * 2 ^ 52
  | S754_nan => 2047 * 2 ^ 52 + 2 ^ 51
  | S754_finite s m e =>
      if Z.pos m <? 2 ^ 52 then sign s + Z.pos m
      else sign s + (e + 1075) * 2 ^ 52 + (Z.pos m - 2 ^ 52)
  end.

(** The float64 1.5. *)
Definition one_and_a_half : float64 := S754_finite false 6755399441055744 (-52).

(** A record whose float field [x] holds 1.5. *)
Definition float_record : Record_ := NewRecord 1001 {[ "x" := VFloat64 one_and_a_half ]}.

(** ** Scenarios

    Each scenario starts from an empty data directory, creates the schema
    [testSchema] (the one [Commit] finds a table in, since it looks the
    table up by its bare name) and a table [t] in it.  The numbers 1000,
    2000, ... are the successive clock readings. *)
Section Scenarios.
Context `{GoRuntime}.

(** Encode the record, decode the bytes: the bytes of the cell of [x] and
    the value decoded for [x]. *)
Definition float_round_trip : result (list Z * option value) :=
  bytes ← Serialize float_record [timePKField; xField];
  record ← DeserializeRecord (slice_of bytes) [timePKField; xField];
  Ok (take 8 (drop 13 bytes), FieldsData record !! "x").

(** What a scenario reports of a record: id, [IsCurrent], [IsDeleted] and
    the value of a field. *)
Definition version_view (field : string) (record : Record_) : Z * bool * bool * value :=
  (ID record, IsCurrent (Metadata record), IsDeleted (Metadata record),
   index_map (FieldsData record) field).

(** Insert [{val: 1}]; in a second transaction stage the update
    [{val: 2}] of that record and commit; read the table file. *)
Definition update_scenario : result (list (Z * bool * bool * value)) :=
  step (CreateSchema example_db "testSchema" empty_root) (fun _ w =>
  step (CreateTable "testSchema" "t" [valField] (w, NewTableManager example_db))
    (fun t '(w, tm) =>
  step (InsertRecord 1000 t {[ "val" := VInt 1 ]} (w, tm)) (fun r '(w, tm) =>
  step (BeginTransaction (w, tm)) (fun tx '(w, tm) =>
  step (StageUpdate 2000 t [("val", VInt 2)] (w, tx, r)) (fun _ '(w, tx, _) =>
  step (CommitTransaction (w, tm, tx)) (fun _ '(w, _, _) =>
  step (GetAllRecords t w) (fun records _ =>
  Ok (version_view "val" <$> records)))))))).

(** What a scenario reports of a record with the ref field [body]: id,
    the offsets read from the table file and the payload they address. *)
Definition ref_view (t : Table) (w : World) (record : Record_)
    : Z * option (Z * Z) * result string :=
  (ID record, RefOffsets record !! "body",
   fst (ReadRefData record (SchemaPath t) (TableName t) "body" w)).

Definition file_length (w : World) (path : string) : option Z :=
  match fs w !! path with
  | Some (File c) => Some (Z.of_nat (length (content_bytes c)))
  | _ => None
  end.

(** Insert the bodies "aaa", "bbb", "ccc"; delete the first and the third
    record; run the cleanup of the table; report the length of the sidecar
    and what the table file holds. *)
Definition compaction_scenario
    : result (option Z * list (Z * option (Z * Z) * result string)) :=
  step (CreateSchema example_db "testSchema" empty_root) (fun _ w =>
  step (CreateTable "testSchema" "t" [bodyField] (w, NewTableManager example_db))
    (fun t '(w, tm) =>
  step (InsertRecord 1000 t {[ "body" := VString "aaa" ]} (w, tm)) (fun r1 '(w, tm) =>
  step (InsertRecord 2000 t {[ "body" := VString "bbb" ]} (w, tm)) (fun _ '(w, tm) =>
  step (InsertRecord 3000 t {[ "body" := VString "ccc" ]} (w, tm)) (fun r3 '(w, tm) =>
  step (DeleteRecord 4000 t (w, tm, r1)) (fun _ '(w, tm, _) =>
  step (DeleteRecord 5000 t (w, tm, r3)) (fun _ '(w, _, _) =>
  step (cleanupTable example_db "testSchema" "t" w) (fun _ w =>
  step (GetAllRecords t w) (fun records _ =>
  Ok (file_length w "data/testSchema/t.body.data.htdb",
      ref_view t w <$> records)))))))))).

(** Insert [n] = 3, 1, 4, 1, 5, 9, 2 and run
    [Select(t).Where("n", ">=", 2).Sort("n", true).Limit(3).GetAll()];
    report the values of [n] of the records returned. *)
Definition query_scenario : result (list value) :=
  step (CreateSchema example_db "testSchema" empty_root) (fun _ w =>
  step (CreateTable "testSchema" "t" [nField] (w, NewTableManager example_db))
    (fun t '(w, tm) =>
  step (InsertRecord 1000 t {[ "n" := VInt 3 ]} (w, tm)) (fun _ '(w, tm) =>
  step (InsertRecord 2000 t {[ "n" := VInt 1 ]} (w, tm)) (fun _ '(w, tm) =>
  step (InsertRecord 3000 t {[ "n" := VInt 4 ]} (w, tm)) (fun _ '(w, tm) =>
  step (InsertRecord 4000 t {[ "n" := VInt 1 ]} (w, tm)) (fun _ '(w, tm) =>
  step (InsertRecord 5000 t {[ "n" := VInt 5 ]} (w, tm)) (fun _ '(w, tm) =>
  step (InsertRecord 6000 t {[ "n" := VInt 9 ]} (w, tm)) (fun _ '(w, tm) =>
  step (InsertRecord 7000 t {[ "n" := VInt 2 ]} (w, tm)) (fun _ '(w, _) =>
  step (GetAll (Limit 3 (Sort "n" true (Where "n" ">=" (VInt 2) (Select t)))) w)
    (fun records _ =>
  Ok ((fun record => index_map (FieldsData record) "n") <$> records))))))))))).

End Scenarios.

(** ** Predicates of the properties

    What the theorems below say of buffers, records and worlds. *)

(** What a successful write into the buffer keeps: the length, and the
    bytes before the place written. *)
Definition keeps (n : nat) (data out : list Z) : Prop :=
  length out = length data /\ take n out = take n data.

(** The cell of the field is wide enough for what [DeserializeRecord]
    reads from it: 8 bytes for a [timeID], an [int] or a [float], 16 for a
    [ref]; the field [id] has no cell. *)
Definition readable (field : Field) : bool :=
  String.eqb (Name field) "id"
  || (if String.eqb (Type_ field) TimeID || String.eqb (Type_ field) Int
         || String.eqb (Type_ field) Float
      then (8 <=? Length field)%N
      else if String.eqb (Type_ field) String_ then true
      else if String.eqb (Type_ field) "ref" then (16 <=? Length field)%N
      else true).

(** Two slices of length [n] that hold the same first [n] bytes. *)
Definition same_prefix (n : Z) (data1 data2 : bslice) : Prop :=
  sl_len data1 = n /\ sl_len data2 = n /\ n <= sl_cap data1 /\ n <= sl_cap data2
  /\ take (Z.to_nat n) (sl_arr data1) = take (Z.to_nat n) (sl_arr data2).

(** What the [switch field.Type] of [DeserializeRecord] makes of the cell
    of a non-null field. *)
Definition read_cell (field : Field) (cell : list Z) (record : Record_) : Record_ :=
  if String.eqb (Type_ field) TimeID || String.eqb (Type_ field) Int then
    set_FieldsData
      (<[ Name field := VInt64 (to_int64 (le_value (take 8 cell))) ]> (FieldsData record))
      record
  else if String.eqb (Type_ field) Float then
    set_FieldsData
      (<[ Name field := VFloat64 (float64_of_int (le_value (take 8 cell))) ]>
         (FieldsData record))
      record
  else if String.eqb (Type_ field) String_ then
    set_FieldsData (<[ Name field := VString (string_of_bytes cell) ]> (FieldsData record))
      record
  else if String.eqb (Type_ field) "ref" then
    set_RefOffsets
      (<[ Name field := (to_int64 (le_value (take 8 cell)),
                         to_int64 (le_value (take 8 (drop 8 cell)))) ]>
         (RefOffsets record))
      record
  else record.

(** The null flag [Serialize] writes for a field. *)
Definition null_flag (r : Record_) (field : Field) : bool :=
  IsNull (default (mkFieldMetadata true) (FieldsMeta r !! Name field)).

(** The cell as it is read: what was written, then the zeros of [make]. *)
Definition padded (field : Field) (cell : list Z) : list Z :=
  cell ++ repeat 0 (N.to_nat (Length field) - length cell).

(** A record with no entry in any of its maps. *)
Definition empty_record : Record_ :=
  mkRecord 0 (mkRecordMetadata false false false 0) ∅ ∅ ∅.

(** The bytes a pair of offsets addresses in a sidecar. *)
Definition ref_slice (data : list Z) (offsets : Z * Z) : list Z :=
  take (Z.to_nat (snd offsets - fst offsets)) (drop (Z.to_nat (fst offsets)) data).

(** The check of [ReadRefData] and of [cleanupRefField] on offsets. *)
Definition valid_offsets (data : list Z) (offsets : Z * Z) : bool :=
  negb ((fst offsets <? 0) || (Z.of_nat (length data) <? snd offsets)
        || (snd offsets <? fst offsets)).

(** [r'] is [r] but for its offsets of [fieldName]: offsets that address
    bytes of the old sidecar address the same bytes in the new one, other
    offsets are as they were. *)
Definition payload_kept (fieldName : string) (old_data new_data : list Z)
    (r r' : Record_) : Prop :=
  ID r' = ID r /\ Metadata r' = Metadata r /\ FieldsData r' = FieldsData r
  /\ FieldsMeta r' = FieldsMeta r
  /\ (forall k, k <> fieldName -> RefOffsets r' !! k = RefOffsets r !! k)
  /\ match RefOffsets r !! fieldName with
     | None => RefOffsets r' !! fieldName = None
     | Some old =>
         if valid_offsets old_data old
         then exists new,
                RefOffsets r' !! fieldName = Some new
                /\ valid_offsets new_data new = true
                /\ ref_slice new_data new = ref_slice old_data old
         else RefOffsets r' !! fieldName = Some old
     end.

(** The same of the map from old to new offsets that [cleanupRefField]
    builds. *)
Definition map_kept (old_data new_data : list Z) (m : gmap (Z * Z) (Z * Z)) : Prop :=
  forall old new, m !! old = Some new ->
    valid_offsets old_data old = true /\ valid_offsets new_data new = true
    /\ ref_slice new_data new = ref_slice old_data old.

(** What the loops of [Commit] and [Rollback] leave of a transaction. *)
Definition same_identity (tx tx' : Transaction) : Prop :=
  TxID tx' = TxID tx /\ Status tx' = Status tx /\ db tx' = db tx
  /\ LockedRecords tx' = LockedRecords tx.

(** The length rule of [validateFieldLengths] for one field. *)
Definition length_rule (f : Field) : Prop :=
  (Type_ f = "ref" -> Length f = 128%N) /\ (Type_ f = "timeID" -> Length f = 8%N).

(** No path of the first world is missing from the second. *)
Definition grows (w w' : World) : Prop :=
  forall k, fs w !! k <> None -> fs w' !! k <> None.

(** The names of the table and of its fields hold no slash: the paths of
    its files are cleaned, each file an entry of the schema directory. *)
Definition slash_free (s : string) : Prop := ~ In slash (list_ascii_of_string s).
Definition plain_names (t : Table) : Prop :=
  slash_free (TableName t) /\ Forall (fun field => slash_free (Name field)) (Fields t).

(** A text that is valid UTF-8, and a field whose texts are: encoding/json
    gives them back as they are. *)
Definition utf8 (s : string) : Prop := json_string s = s.
Definition utf8_field (f : Field) : Prop :=
  utf8 (Name f) /\ utf8 (Type_ f) /\ Forall utf8 (Constraints f).

(** The reasons for which [CreateTable] refuses a table: [os.Stat] reports
    the schema directory missing; it does not report the table file
    missing (the file is there, or its path cannot be looked up: a
    directory on it is a regular file, a name is too long); the name; the
    lengths of the fields. *)
Definition refused (s : Schema) (name : string) (fields : list Field)
    (w : World) : Prop :=
  os_Stat w (schemaPath s) = Some ENOENT
  \/ os_Stat w (schemaPath s +:+ "/" +:+ name +:+ fileEnding) <> Some ENOENT
  \/ name = EmptyString
  \/ starts_with_dot name = true
  \/ name = "index"%string
  \/ ~ Forall length_rule (timePKField :: fields).

(** The record is current, not deleted and meets every condition of the
    query. *)
Definition selected (q : Query) (record : Record_) : bool :=
  is_current record && matchesConditions record (conditions q).

(** No field called [name] is decoded as a float or as a string: the field
    is the id, or its type is neither "float" nor "string". *)
Definition int64_column (fields : list Field) (name : string) : bool :=
  forallb (fun field =>
             negb (String.eqb (Name field) name)
             || String.eqb (Name field) "id"
             || negb (String.eqb (Type_ field) Float || String.eqb (Type_ field) String_))
    fields.

(** The entry of a decoded record is an [int64], or there is none. *)
Definition int64_or_absent (entry : option value) : bool :=
  match entry with
  | None | Some (VInt64 _) => true
  | _ => false
  end.

(** The two worlds hold the same files, but for the sidecars of [t]. *)
Definition off_sidecars (t : Table) (w w' : World) : Prop :=
  forall path,
    (forall fieldName, path <> refFilePath_of (SchemaPath t) (TableName t) fieldName) ->
    fs w' !! path = fs w !! path.

(** Nothing but the sidecars of the ref fields of the table has changed
    from [w] to [w']. *)
Definition only_sidecars (t : Table) (w w' : World) : Prop :=
  forall path,
    (forall field, In field (Fields t) -> Type_ field = "ref"%string ->
       path <> refFilePath_of (SchemaPath t) (TableName t) (Name field)) ->
    fs w' !! path = fs w !! path.

(** The record is locked by [holder], and the next transaction gets
    another id. *)
Definition stale_lock (holder : Z) (w : World) (record : Record_) : Prop :=
  holds_lock holder record /\ to_uint64 (transactionCounter w + 1) <> holder.

Section Predicates.
Context `{GoRuntime}.

(** [stored] is what decoding the encoding of [r] gives. *)
Definition reread (fields : list Field) (r stored : Record_) : Prop :=
  exists bytes, Serialize r fields = Ok bytes
                /\ DeserializeRecord (slice_of bytes) fields = Ok stored.

(** What the cell of a non-null field holds after [Serialize_payload]. *)
Definition cell_of (r : Record_) (field : Field) (value : value) : option (list Z) :=
  if String.eqb (Type_ field) TimeID then
    match value with VInt64 v => Some (le_bytes 8 (to_uint64 v)) | _ => None end
  else if String.eqb (Type_ field) Int then
    match value with
    | VInt v | VInt64 v => Some (le_bytes 8 (to_uint64 v))
    | _ => None
    end
  else if String.eqb (Type_ field) Float then
    match value with VFloat64 v => Some (le_bytes 8 (uint64_of_float64 v)) | _ => None end
  else if String.eqb (Type_ field) String_ then
    match value with
    | VString v => Some (take (N.to_nat (Length field)) (bytes_of_string v))
    | _ => None
    end
  else if String.eqb (Type_ field) "ref" then
    match RefOffsets r !! Name field with
    | Some offsets =>
        Some (le_bytes 8 (to_uint64 (fst offsets)) ++ le_bytes 8 (to_uint64 (snd offsets)))
    | None => None
    end
  else None.

(** The bytes [Serialize] writes into the cell of a field: none when the
    field is null or has no value. *)
Definition stored_cell (r : Record_) (field : Field) : option (list Z) :=
  match FieldsData r !! Name field with
  | None => Some []
  | Some value => if null_flag r field then Some [] else cell_of r field value
  end.

(** What decoding returns for a field, given what encoding wrote. *)
Definition read_as (r r' : Record_) (field : Field) : Prop :=
  exists cell,
    stored_cell r field = Some cell
    /\ FieldsMeta r' !! Name field = Some (mkFieldMetadata (null_flag r field))
    /\ let read :=
         if null_flag r field then empty_record
         else read_cell field (padded field cell) empty_record in
       FieldsData r' !! Name field = FieldsData read !! Name field
       /\ RefOffsets r' !! Name field = RefOffsets read !! Name field.

(** What [DeserializeRecord] returns in [r'] for a field of the record
    [r] that [Serialize] encoded: the null flag; nothing for a null field;
    an integer in the range of int64 as an [int64]; a float whose integer
    part a uint64 holds ([trunc_uint64]) as the float of that integer part,
    and any other float (below -1, too large, infinite or not a number) as
    the float of some uint64, the one the platform converts it to; a
    string cut or padded with zero bytes to the width of the field; the
    offsets of a ref field, which are zero when the record carries no value
    for the field, and never the value itself. *)
Definition read_back (r r' : Record_) (field : Field) : Prop :=
  let name := Name field in
  let width := N.to_nat (Length field) in
  FieldsMeta r' !! name = Some (mkFieldMetadata (null_flag r field))
  /\ (null_flag r field = true ->
      FieldsData r' !! name = None /\ RefOffsets r' !! name = None)
  /\ (null_flag r field = false ->
      (forall n, Type_ field = TimeID \/ Type_ field = Int ->
         FieldsData r !! name = Some (VInt n) \/ FieldsData r !! name = Some (VInt64 n) ->
         - 2 ^ 63 <= n < 2 ^ 63 ->
         FieldsData r' !! name = Some (VInt64 n))
      /\ (forall v, Type_ field = Float -> FieldsData r !! name = Some (VFloat64 v) ->
          match trunc_uint64 v with
          | Some n => FieldsData r' !! name = Some (VFloat64 (float64_of_int n))
          | None =>
              exists bits,
                0 <= bits < 2 ^ 64
                /\ FieldsData r' !! name = Some (VFloat64 (float64_of_int bits))
          end)
      /\ (forall s, Type_ field = String_ -> FieldsData r !! name = Some (VString s) ->
          FieldsData r' !! name
          = Some (VString (string_of_bytes
                             (take width (bytes_of_string s ++ repeat 0 width)))))
      /\ (Type_ field = "ref"%string ->
          FieldsData r' !! name = None
          /\ (FieldsData r !! name = None -> RefOffsets r' !! name = Some (0, 0))
          /\ (forall first last,
                FieldsData r !! name <> None ->
                RefOffsets r !! name = Some (first, last) ->
                - 2 ^ 63 <= first < 2 ^ 63 -> - 2 ^ 63 <= last < 2 ^ 63 ->
                RefOffsets r' !! name = Some (first, last)))).

End Predicates.

(** ** The loops over the fields on unbounded integers

    The same loops with [Z.of_N (Length field)] for [int(field.Length)],
    [+] for the sums on [int] and a buffer of any size: what the code
    computes when the record size is an [int] ([fits], and the lemmas
    [Serialize_exact], [DeserializeRecord_exact] and [parse_records_exact]
    below).  The layout of a record is proved on them. *)
Definition fits (fields : list Field) : Prop := fieldsSize fields + 12 < 2 ^ 63.

Module Exact.

Section Codec.
Context `{GoRuntime}.

Definition Serialize_payload (r : Record_) (field : Field) (value : value)
    (data : list Z) (offset : Z) : result (list Z) :=
  let fl := Z.of_N (Length field) in
  if String.eqb (Type_ field) TimeID then
    match value with
    | VInt64 v => PutUint64 data offset (offset + fl) (to_uint64 v)
    | _ => Err ("field '" +:+ Name field +:+ "' requires an int64 value")
    end
  else if String.eqb (Type_ field) Int then
    match value with
    | VInt v => PutUint64 data offset (offset + fl) (to_uint64 v)
    | VInt64 v => PutUint64 data offset (offset + fl) (to_uint64 v)
    | _ => Err ("field '" +:+ Name field +:+ "' requires an int or int64 value")
    end
  else if String.eqb (Type_ field) Float then
    match value with
    | VFloat64 v => PutUint64 data offset (offset + fl) (uint64_of_float64 v)
    | _ => Err ("field '" +:+ Name field +:+ "' requires a float64 value")
    end
  else if String.eqb (Type_ field) String_ then
    match value with
    | VString v => copy_string data offset (offset + fl) v
    | _ => Err ("field '" +:+ Name field +:+ "' requires a string value")
    end
  else if String.eqb (Type_ field) "ref" then
    match RefOffsets r !! Name field with
    | None => Err ("missing ref offsets for field '" +:+ Name field +:+ "'")
    | Some offsets =>
        data ← PutUint64 data offset (offset + 8) (to_uint64 (fst offsets));
        PutUint64 data (offset + 8) (offset + 16) (to_uint64 (snd offsets))
    end
  else Err ("unsupported field type '" +:+ Type_ field +:+ "'").

Fixpoint Serialize_fields (r : Record_) (fields : list Field)
    (data : list Z) (offset : Z) : result (list Z) :=
  match fields with
  | [] => Ok data
  | field :: rest =>
      if String.eqb (Name field) "id" then Serialize_fields r rest data offset
      else
        let fieldMeta := default (mkFieldMetadata true) (FieldsMeta r !! Name field) in
        data ← set_index data offset (if IsNull fieldMeta then 1 else 0);
        let offset := offset + 1 in
        match FieldsData r !! Name field with
        | None => Serialize_fields r rest data (offset + Z.of_N (Length field))
        | Some value =>
            if IsNull fieldMeta
            then Serialize_fields r rest data (offset + Z.of_N (Length field))
            else
              data ← Serialize_payload r field value data offset;
              Serialize_fields r rest data (offset + Z.of_N (Length field))
        end
  end.

Definition Serialize (r : Record_) (fields : list Field) : result (list Z) :=
  let recordSize := 8 + 4 + fieldsSize fields in
  let data := repeat 0 (Z.to_nat recordSize) in
  data ← PutUint64 data 0 8 (to_uint64 (ID r));
  data ← set_index data 8 (metaByte_of (Metadata r));
  data ← PutUint16 data 9 11 (to_uint16 (TransactionID (Metadata r)));
  data ← set_index data 11 (to_byte (Z.shiftr (TransactionID (Metadata r)) 16));
  Serialize_fields r fields data 12.

End Codec.

Fixpoint Deserialize_fields (data : bslice) (fields : list Field)
    (record : Record_) (offset : Z) : result Record_ :=
  match fields with
  | [] => Ok record
  | field :: rest =>
      if String.eqb (Name field) "id" then
        Deserialize_fields data rest
          (set_FieldsMeta (<[ "id" := mkFieldMetadata false ]> (FieldsMeta record))
             (set_FieldsData (<[ "id" := VInt64 (ID record) ]> (FieldsData record))
                record))
          offset
      else
        let fl := Z.of_N (Length field) in
        b ← sl_index data offset;
        let isNull := b =? 1 in
        let record :=
          set_FieldsMeta (<[ Name field := mkFieldMetadata isNull ]> (FieldsMeta record))
            record in
        let offset := offset + 1 in
        if isNull then Deserialize_fields data rest record (offset + fl)
        else
          record ←
            (if String.eqb (Type_ field) TimeID || String.eqb (Type_ field) Int then
               cell ← sl_slice data offset (offset + fl);
               bits ← Uint64 cell;
               Ok (set_FieldsData
                     (<[ Name field := VInt64 (to_int64 bits) ]> (FieldsData record))
                     record)
             else if String.eqb (Type_ field) Float then
               cell ← sl_slice data offset (offset + fl);
               bits ← Uint64 cell;
               Ok (set_FieldsData
                     (<[ Name field := VFloat64 (float64_of_int bits) ]> (FieldsData record))
                     record)
             else if String.eqb (Type_ field) String_ then
               cell ← sl_slice data offset (offset + fl);
               Ok (set_FieldsData
                     (<[ Name field := VString (sl_string cell) ]> (FieldsData record))
                     record)
             else if String.eqb (Type_ field) "ref" then
               cell ← sl_slice data offset (offset + 8);
               start ← Uint64 cell;
               cell ← sl_slice data (offset + 8) (offset + 16);
               end_ ← Uint64 cell;
               Ok (set_RefOffsets
                     (<[ Name field := (to_int64 start, to_int64 end_) ]> (RefOffsets record))
                     record)
             else Ok record);
          Deserialize_fields data rest record (offset + fl)
  end.

Definition DeserializeRecord (data : bslice) (fields : list Field) : result Record_ :=
  if sl_len data <? 12 then Err "data too short to be a valid record"
  else
    cell ← sl_slice data 0 8;
    id ← Uint64 cell;
    metaByte ← sl_index data 8;
    cell ← sl_slice data 9 11;
    txLow ← Uint16 cell;
    txHigh ← sl_index data 11;
    let record :=
      mkRecord (to_int64 id)
        (mkRecordMetadata
           (negb (Z.land metaByte 1 =? 0))
           (negb (Z.land metaByte 2 =? 0))
           (negb (Z.land metaByte 4 =? 0))
           (Z.lor txLow (Z.shiftl txHigh 16)))
        ∅ ∅ ∅ in
    Deserialize_fields data fields record 12.

Fixpoint parse_records (data : list Z) (fields : list Field) (recordSize : Z)
    (i : Z) (count : nat) : result (list Record_) :=
  match count with
  | O => Ok []
  | S k =>
      let recordData := mkSlice (drop (Z.to_nat i) data) recordSize in
      record ← match DeserializeRecord recordData fields with
               | Err e => Err ("failed to deserialize record: " +:+ e)
               | other => other
               end;
      records ← parse_records data fields recordSize (i + recordSize) k;
      Ok (record :: records)
  end.

End Exact.

(** ** Proof steps *)

Ltac bool_hyps :=
  repeat match goal with
         | H : (_ && _) = true |- _ => apply andb_prop in H; destruct H
         | H : negb _ = false |- _ => apply negb_false_iff in H
         | H : negb _ = true |- _ => apply negb_true_iff in H
         | H : (_ <=? _) = true |- _ => apply Z.leb_le in H
         | H : (_ <? _) = true |- _ => apply Z.ltb_lt in H
         | H : (_ <=? _) = false |- _ => apply Z.leb_gt in H
         | H : (_ <? _) = false |- _ => apply Z.ltb_ge in H
         end.

(** ** Example data of the properties *)

Section ExampleData.
#[local] Existing Instance example_runtime.

(** The table [t] of [default_schema_world]. *)
Definition example_table : Table :=
  mkTable "t" [timePKField; valField] "data/testSchema".

(** The bytes [Serialize] returns for a record, none when it fails. *)
Definition encoding_of (r : Record_) (fields : list Field) : list Z :=
  match Serialize r fields with
  | Ok bytes => bytes
  | _ => []
  end.

(** [default_schema_world] with a table file of 25 bytes: one record of 21
    bytes and 4 bytes more. *)
Definition ragged_world : World :=
  mkWorld
    {[ "data" := Dir;
       "data/testSchema" := Dir;
       "data/testSchema/t.conf.htdb" := File (Json example_table);
       "data/testSchema/t.htdb" := File (Raw (repeat 0 25)) ]} 0 0.

(** A version of [locked_by_1] that is no longer current. *)
Definition superseded : Record_ :=
  mkRecord 1000 (mkRecordMetadata false false false 0)
    {[ "id" := VInt64 1000; "val" := VInt64 6 ]}
    {[ "id" := mkFieldMetadata false; "val" := mkFieldMetadata false ]} ∅.

(** [default_schema_world] after [WriteRecords] of a superseded and of a
    current record, and that world after the cleanup of the table. *)
Definition written_world : World :=
  snd (WriteRecords example_table [superseded; locked_by_1] default_schema_world).
Definition cleaned_world : World :=
  snd (cleanupTable example_db "testSchema" "t" written_world).

(** A data directory with the sidecar of the ref field [body] of a table
    [t] of the schema [s]. *)
Definition sidecar_world : World :=
  mkWorld {[ "data" := Dir; "data/s" := Dir;
             "data/s/t.body.data.htdb" := File (Raw (bytes_of_string "aaabbbccc")) ]} 0 0.

(** A record whose payload is the bytes 3 to 6 of that sidecar, and the
    same record when the payload has moved to the front. *)
Definition survivor : Record_ :=
  mkRecord 2002 (mkRecordMetadata true false false 0)
    {[ "id" := VInt64 2002 ]}
    {[ "id" := mkFieldMetadata false; "body" := mkFieldMetadata false ]}
    {[ "body" := (3, 6) ]}.

Definition survivor_moved : Record_ :=
  mkRecord 2002 (mkRecordMetadata true false false 0)
    {[ "id" := VInt64 2002 ]}
    {[ "id" := mkFieldMetadata false; "body" := mkFieldMetadata false ]}
    {[ "body" := (0, 3) ]}.

(** The world and the record after writing the payload "ddd" of
    [survivor]. *)
Definition appended : World * Record_ :=
  snd (WriteRefData "data/s" "t" "body" "ddd" (sidecar_world, survivor)).

(** An active transaction of [example_db] with nothing staged, a table
    manager that has it registered, and the transaction once committed. *)
Definition fresh_tx : Transaction :=
  mkTransaction 1 TransactionActive ∅ ∅ example_db.
Definition manager_of_fresh_tx : TableManager := mkTableManager example_db {[ 1 ]}.
Definition committed_tx : Transaction :=
  mkTransaction 1 TransactionCommitted ∅ ∅ example_db.

(** The table [t] with the field [n], a world whose table file holds
    [tie_first] and [tie_second], and what [GetAllRecords] reads there. *)
Definition n_table : Table := mkTable "t" [timePKField; nField] "data/testSchema".
Definition two_rows_world : World :=
  snd (WriteRecords n_table [tie_first; tie_second] default_schema_world).
Definition two_rows : list Record_ :=
  match fst (GetAllRecords n_table two_rows_world) with
  | Ok records => records
  | _ => []
  end.

(** The condition [n = 5]. *)
Definition n_is_5 : FilterCondition := mkFilterCondition "n" "=" (VInt 5).

(** The world after creating the schema [testSchema] in an empty data
    directory, and after creating the table [t] in it. *)
Definition schema_world : World :=
  snd (CreateSchema example_db "testSchema" empty_root).
Definition table_world : World :=
  fst (snd (CreateTable "testSchema" "t" [valField]
              (schema_world, NewTableManager example_db))).

(** The table [t] with a ref field [body], and a data directory whose
    default schema holds it, with no record yet. *)
Definition notes_table : Table :=
  mkTable "t" [timePKField; valField; bodyField] "data/testSchema".
Definition notes_world : World :=
  mkWorld
    {[ "data" := Dir;
       "data/testSchema" := Dir;
       "data/testSchema/t.conf.htdb" := File (Json notes_table);
       "data/testSchema/t.htdb" := File (Raw []) ]} 0 0.

(** That world and a table manager after two inserts, the records the
    table file holds then, and the second of them as read from the file. *)
Definition stocked : World * TableManager :=
  snd (InsertRecord 200 notes_table {[ "val" := VInt 6; "body" := VString "bbb" ]}
         (snd (InsertRecord 100 notes_table
                 {[ "val" := VInt 5; "body" := VString "aaa" ]}
                 (notes_world, NewTableManager example_db)))).
Definition stocked_rows : list Record_ :=
  match fst (GetAllRecords notes_table (fst stocked)) with
  | Ok records => records
  | _ => []
  end.
Definition stocked_row : Record_ := default empty_record (last stocked_rows).

(** Inserting [{val: 7, body: "ccc"}] there at the clock reading 1000: the
    record returned, the world and the table manager. *)
Definition inserted : result Record_ * (World * TableManager) :=
  InsertRecord 1000 notes_table {[ "val" := VInt 7; "body" := VString "ccc" ]} stocked.
Definition inserted_record : Record_ :=
  match fst inserted with
  | Ok r => r
  | _ => empty_record
  end.

(** Updating [stocked_row] there at the clock reading 2000, and deleting
    it at the clock reading 3000. *)
Definition row_updated : result Record_ * (World * TableManager * Record_) :=
  UpdateRecord 2000 notes_table [("val"%string, VInt 8); ("body"%string, VString "ddd")]
    (fst stocked, snd stocked, stocked_row).
Definition row_version : Record_ :=
  match fst row_updated with
  | Ok r => r
  | _ => empty_record
  end.
Definition row_deleted : result unit * (World * TableManager * Record_) :=
  DeleteRecord 3000 notes_table (fst stocked, snd stocked, stocked_row).

(** Staging an insert and an update there in a transaction of their own. *)
Definition third_tx : Transaction :=
  mkTransaction 3 TransactionActive ∅ ∅ example_db.
Definition insert_staged : result Record_ * (World * Transaction) :=
  StageInsert 1000 notes_table {[ "val" := VInt 7; "body" := VString "ccc" ]}
    (fst stocked, third_tx).

(** Updating [locked_by_1], which the first transaction may lock, in the
    table [t] of [default_schema_world] at the clock reading 2000. *)
Definition updated : result Record_ * (World * TableManager * Record_) :=
  UpdateRecord 2000 example_table [("val"%string, VInt 8)]
    (default_schema_world, NewTableManager example_db, locked_by_1).
Definition updated_record : Record_ :=
  match fst updated with
  | Ok r => r
  | _ => empty_record
  end.

(** Staging an insert into the table [t] of [written_world], whose second
    record the first transaction holds, in that transaction, and rolling
    it back. *)
Definition staging : result Record_ * (World * Transaction) :=
  StageInsert 1000 example_table {[ "val" := VInt 7 ]} (written_world, fresh_tx).
Definition rolled_back : result unit * (World * Transaction) :=
  Rollback (snd staging).

End ExampleData.

(** * Properties *)

(** ** Record locking *)

Lemma locked_msg_inj (a b : Z) : locked_msg a = locked_msg b -> a = b.
Proof.
  unfold locked_msg. intros E.
  apply (inj pretty). revert E. generalize (pretty a) (pretty b).
  intros s1 s2 E. vm_compute in E. congruence.
Qed.

Lemma Lock_free (r : Record_) (tx : Z) :
  IsLocked (Metadata r) = false \/ TransactionID (Metadata r) = tx ->
  Lock tx r =
  (Ok tt, set_Metadata (set_TransactionID tx (set_IsLocked true (Metadata r))) r).
Proof.
  intros [E | E]; unfold Lock; rewrite E.
  - reflexivity.
  - rewrite Z.eqb_refl, andb_false_r. reflexivity.
Qed.

Lemma Lock_held (r : Record_) (tx holder : Z) :
  holds_lock holder r -> holder <> tx ->
  Lock tx r = (Err (locked_msg holder), r).
Proof.
  intros [L T] N. unfold Lock. rewrite L, T.
  destruct (Z.eqb_spec holder tx) as [E | _]; [contradiction | reflexivity].
Qed.

(** C7: for every record [r] and transaction id [tx], [Lock] succeeds when
    [r] is unlocked or locked by [tx] itself, leaving every field but the
    lock bit and the transaction id as it was and making [tx] the holder;
    when another transaction [holder] holds the lock it fails with the
    lock-conflict error whose message carries [holder] (distinct holders
    give distinct messages) and leaves [r] unchanged, and so does
    [lockRecordInternal], which leaves the transaction unchanged too; a
    record has at most one holder, and after a successful lock by [tx] every
    other transaction is refused. *)
Theorem Lock_at_most_one_holder (r : Record_) (tx : Z) :
  (IsLocked (Metadata r) = false \/ TransactionID (Metadata r) = tx ->
   exists r', Lock tx r = (Ok tt, r') /\ holds_lock tx r'
     /\ ID r' = ID r /\ IsCurrent (Metadata r') = IsCurrent (Metadata r)
     /\ IsDeleted (Metadata r') = IsDeleted (Metadata r)
     /\ FieldsData r' = FieldsData r /\ FieldsMeta r' = FieldsMeta r
     /\ RefOffsets r' = RefOffsets r)
  /\ (forall holder, holds_lock holder r -> holder <> tx ->
      Lock tx r = (Err (locked_msg holder), r))
  /\ (forall holder other, locked_msg holder = locked_msg other -> holder = other)
  /\ (forall table txn holder,
      Status txn = TransactionActive -> holds_lock holder r -> holder <> TxID txn ->
      lockRecordInternal table (txn, r) = (Err (locked_msg holder), (txn, r)))
  /\ (forall t1 t2, holds_lock t1 r -> holds_lock t2 r -> t1 = t2)
  /\ (forall r' other, Lock tx r = (Ok tt, r') -> other <> tx ->
      Lock other r' = (Err (locked_msg tx), r')).
Proof.
  repeat split.
  - intros Free. eexists. split; [apply Lock_free; exact Free |].
    repeat split; reflexivity.
  - intros holder Held N. apply Lock_held; assumption.
  - apply locked_msg_inj.
  - intros table txn holder Active Held N. unfold lockRecordInternal.
    rewrite Active. rewrite bool_decide_eq_true_2 by reflexivity. cbn.
    rewrite (Lock_held _ _ _ Held N). reflexivity.
  - intros t1 t2 [_ T1] [_ T2]. congruence.
  - intros r' other L N. apply Lock_held; [| congruence].
    unfold Lock in L.
    destruct (IsLocked (Metadata r) && negb (TransactionID (Metadata r) =? tx));
      [discriminate |].
    injection L as <-. split; reflexivity.
Qed.

Lemma Lock_at_most_one_holder_witness :
  Lock 2 locked_by_1 = (Err (locked_msg 1), locked_by_1).
Proof.
  apply (proj1 (proj2 (Lock_at_most_one_holder locked_by_1 2)) 1).
  - split; reflexivity.
  - discriminate.
Defined.

(** ** Reading a table that was never written *)




(** ** Decoding short buffers *)

Lemma Deserialize_fields_no_error (fields : list Field) :
  forall data record offset msg,
    Deserialize_fields data fields record offset <> Err msg.
Proof.
  induction fields as [| field rest IH]; intros data record offset msg; cbn.
  - discriminate.
  - destruct (String.eqb (Name field) "id"); [apply IH |].
    unfold sl_index.
    destruct ((0 <=? offset) && (offset <? sl_len data)); cbn; [| discriminate].
    destruct (nth (Z.to_nat offset) (sl_arr data) 0 =? 1); [apply IH |].
    match goal with
    | |- mbind _ ?payload <> _ => destruct payload as [record' | e | p] eqn:E
    end; cbn; [apply IH | | discriminate].
    exfalso. revert E. unfold sl_slice, Uint64.
    repeat match goal with
           | |- context [if ?c then _ else _] => destruct c; cbn
           end; discriminate.
Qed.

(** X1: the only error [DeserializeRecord] returns is the one of its
    check against 12 bytes: a buffer of 12 bytes or more never gets an
    error result, whatever the fields are. *)
Lemma DeserializeRecord_long_no_error (data : bslice) (fields : list Field) (msg : string) :
  12 <= sl_len data -> DeserializeRecord data fields <> Err msg.
Proof.
  intros Long. unfold DeserializeRecord.
  destruct (Z.ltb_spec (sl_len data) 12) as [Short | _]; [lia |].
  unfold sl_slice, Uint64, Uint16, sl_index.
  repeat match goal with
         | |- context [if ?c then _ else _] => destruct c; cbn
         end; try discriminate; apply Deserialize_fields_no_error.
Qed.

Lemma DeserializeRecord_long_no_error_witness :
  12 <= sl_len (slice_of (repeat 0 12))
  /\ DeserializeRecord (slice_of (repeat 0 12)) [timePKField; valField]
     <> Err "data too short to be a valid record".
Proof.
  split; [cbn; lia |].
  apply (DeserializeRecord_long_no_error (slice_of (repeat 0 12))).
  cbn. lia.
Defined.

(** C5: a buffer of 12 zero bytes is shorter than the 21 bytes of a record
    of a table with one [int] field; [DeserializeRecord] passes its length
    check and panics on the first byte past the header. *)
Theorem DeserializeRecord_short_buffer_panics :
  fieldsSize [timePKField; valField] + 12 = 21
  /\ DeserializeRecord (slice_of (repeat 0 12)) [timePKField; valField]
     = Panic "index out of range".
Proof. split; reflexivity. Qed.

(** ** Staged records *)

Section Staging.
Context `{GoRuntime}.

Lemma WriteRefData_Metadata schema tableName fieldName value w r res w' r' :
  WriteRefData schema tableName fieldName value (w, r) = (res, (w', r')) ->
  Metadata r' = Metadata r.
Proof.
  unfold WriteRefData.
  destruct (os_OpenAppend _ w) as [[start | e | p] w1]; try (intros [= <- <- <-]; reflexivity).
  destruct (file_Write _ _ w1) as [[u | e | p] w2]; intros [= <- <- <-]; reflexivity.
Qed.

Lemma write_ref_fields_Metadata table fields data :
  forall w r res w' r',
    write_ref_fields table fields data (w, r) = (res, (w', r')) ->
    Metadata r' = Metadata r.
Proof.
  induction fields as [| field rest IH]; intros w r res w' r'; cbn.
  - intros [= <- <- <-]. reflexivity.
  - destruct (String.eqb (Type_ field) "ref"); [| apply IH].
    destruct (data !! Name field) as [[| n | n | f | strValue | b] |];
      try apply IH; try (intros [= <- <- <-]; reflexivity).
    unfold st_bind.
    destruct (WriteRefData _ _ _ _ (w, r)) as [res1 [w1 r1]] eqn:E1.
    pose proof (WriteRefData_Metadata _ _ _ _ _ _ _ _ _ E1) as M1.
    destruct res1 as [u | e | p]; try (intros [= <- <- <-]; exact M1).
    intros E2. rewrite (IH _ _ _ _ _ E2). exact M1.
Qed.

(** C6: whenever [StageInsert] returns a record, the transaction is still
    active, the record is the last one of its staged set for the table, and
    the record's [IsCurrent] is true. *)
Theorem StageInsert_stages_current_record
    (now : Z) (table : Table) (data : gmap string value)
    (w w' : World) (tx tx' : Transaction) (record : Record_) :
  StageInsert now table data (w, tx) = (Ok record, (w', tx')) ->
  Status tx' = TransactionActive
  /\ StagedRecords tx' !! TableName table
     = Some (default [] (StagedRecords tx !! TableName table) ++ [record])
  /\ IsCurrent (Metadata record) = true.
Proof.
  unfold StageInsert.
  destruct (bool_decide (Status tx = TransactionActive)) eqn:Active; cbn;
    [| discriminate].
  apply bool_decide_eq_true_1 in Active.
  match goal with
  | |- context [write_ref_fields ?t ?f ?d ?s] =>
      destruct (write_ref_fields t f d s) as [res [w1 r1]] eqn:E
  end.
  apply write_ref_fields_Metadata in E.
  destruct res as [u | e | p]; try discriminate.
  intros [= <- <- <-]. repeat split.
  - exact Active.
  - cbn. apply lookup_insert_eq.
  - rewrite E. reflexivity.
Qed.

End Staging.

Lemma StageInsert_stages_current_record_witness :
  exists record w' tx',
    @StageInsert example_runtime 1000 (mkTable "t" [timePKField; valField] "data/testSchema")
      {[ "val" := VInt 42 ]} (empty_root, mkTransaction 1 TransactionActive ∅ ∅ example_db)
    = (Ok record, (w', tx'))
    /\ Status tx' = TransactionActive
    /\ IsCurrent (Metadata record) = true.
Proof.
  eexists _, _, _. split; [reflexivity |].
  pose proof (@StageInsert_stages_current_record example_runtime 1000
                (mkTable "t" [timePKField; valField] "data/testSchema")
                {[ "val" := VInt 42 ]} empty_root _
                (mkTransaction 1 TransactionActive ∅ ∅ example_db) _ _ eq_refl) as P.
  split; [exact (proj1 P) | exact (proj2 (proj2 P))].
Defined.

(** ** Table lookup *)

Lemma Split_colon_aux_no_colon (cs : list ascii) :
  forall cur, ~ In ":"%char cs ->
    Split_colon_aux cs cur = [string_of_list_ascii (rev cur ++ cs)].
Proof.
  induction cs as [| c rest IH]; intros cur No; cbn.
  - rewrite app_nil_r. reflexivity.
  - destruct (Ascii.eqb_spec c ":"%char) as [-> | Ne].
    + exfalso. apply No. left. reflexivity.
    + rewrite IH by (intros I; apply No; right; exact I).
      cbn. rewrite <- app_assoc. reflexivity.
Qed.

Lemma list_ascii_of_string_app (a b : string) :
  list_ascii_of_string (a +:+ b) = list_ascii_of_string a ++ list_ascii_of_string b.
Proof.
  induction a as [| c a IH]; [reflexivity |].
  change (String c a +:+ b) with (String c (a +:+ b)).
  cbn. rewrite IH. reflexivity.
Qed.

Lemma Split_colon_bare (tableName : string) :
  ~ In ":"%char (list_ascii_of_string tableName) ->
  Split_colon tableName = [tableName].
Proof.
  intros No. unfold Split_colon. rewrite Split_colon_aux_no_colon by exact No.
  cbn. rewrite string_of_list_ascii_of_string. reflexivity.
Qed.

Lemma Split_colon_default (tableName : string) :
  ~ In ":"%char (list_ascii_of_string tableName) ->
  Split_colon ("testSchema:" +:+ tableName) = ["testSchema"; tableName].
Proof.
  intros No. unfold Split_colon. rewrite list_ascii_of_string_app.
  cbn. rewrite Split_colon_aux_no_colon by exact No.
  cbn. rewrite string_of_list_ascii_of_string. reflexivity.
Qed.

(** C9, as the code has it: a table name without a [":"] is looked up in
    the default schema [testSchema]: [GetTable] returns for it, in every
    data directory, what it returns for the name qualified with
    [testSchema]. *)
Theorem GetTable_bare_name_uses_default_schema `{GoRuntime}
    (tableName mainPath : string) (w : World) :
  ~ In ":"%char (list_ascii_of_string tableName) ->
  GetTable tableName mainPath w = GetTable ("testSchema:" +:+ tableName) mainPath w.
Proof.
  intros No. unfold GetTable.
  rewrite (Split_colon_bare _ No), (Split_colon_default _ No). reflexivity.
Qed.

Lemma GetTable_bare_name_uses_default_schema_witness :
  @GetTable example_runtime "t" "data" default_schema_world
  = @GetTable example_runtime "testSchema:t" "data" default_schema_world.
Proof.
  apply (@GetTable_bare_name_uses_default_schema example_runtime "t").
  cbn. intros [E | []]. discriminate E.
Defined.

(** C9, as the spec has it, fails: the bare name ["t"] holds no [":"], and
    its lookup returns the table [t] of the schema [testSchema]. *)
Lemma GetTable_bare_name_resolves :
  (forall H : GoRuntime,
     @GetTable H "t" "data" default_schema_world
     = (Ok (mkTable "t" [timePKField; valField] "data/testSchema"), default_schema_world))
  /\ ~ In ":"%char (list_ascii_of_string "t").
Proof.
  split.
  - intros H. reflexivity.
  - cbn. intros [E | []]. discriminate E.
Qed.

(** ** Sorting *)

Section SortFacts.
Context {A : Type} (lt : A -> A -> bool).





Variable Q : A -> bool.
Hypothesis Q_never_less : forall x y, Q x = true -> lt x y = false.
Hypothesis Q_is_greater : forall x y, Q x = false -> Q y = true -> lt x y = true.








End SortFacts.



Section SortRecords.
Context `{GoRuntime}.





End SortRecords.



(** ** Commit and the superseded version *)

Lemma Clone_fresh_id (now tx : Z) (r staging : Record_) :
  Clone now tx r = Ok staging ->
  index_map (FieldsData staging) "id" = VInt64 now
  /\ IsCurrent (Metadata staging) = false.
Proof.
  unfold Clone.
  destruct (IsLocked (Metadata r) && negb (TransactionID (Metadata r) =? tx));
    [discriminate |].
  intros [= <-]. split; [| reflexivity].
  unfold index_map. cbn. rewrite lookup_insert_eq. reflexivity.
Qed.

(** X3: the loops of [Commit] demote an existing record only when a
    staged record carries the same id: when no staged id equals an existing
    id, the existing records are left as they were read. *)
Lemma demote_existing_other_ids (records existingRecords : list Record_) :
  (forall staged existing,
     In staged records -> In existing existingRecords ->
     iface_eq (index_map (FieldsData existing) "id")
              (index_map (FieldsData staged) "id") = false) ->
  demote_existing records existingRecords = existingRecords.
Proof.
  unfold demote_existing. revert existingRecords.
  induction records as [| staged rest IH]; intros existingRecords Other;
    [reflexivity |].
  cbn [fold_left].
  assert (demote_one staged <$> existingRecords = existingRecords) as ->.
  { assert (forall existing, In existing existingRecords ->
                             demote_one staged existing = existing) as Same.
    { intros existing I. unfold demote_one.
      rewrite (Other staged existing) by (try left; auto). reflexivity. }
    clear Other IH. induction existingRecords as [| e l IHl]; [reflexivity |].
    cbn. rewrite Same by (left; reflexivity). f_equal.
    apply IHl. intros existing I. apply Same. right. exact I. }
  apply IH. intros staged' existing I I'. apply Other; [right |]; assumption.
Qed.

Lemma demote_existing_other_ids_witness :
  demote_existing [tie_second] [tie_first] = [tie_first].
Proof.
  apply (demote_existing_other_ids [tie_second] [tie_first]).
  intros staged existing [<- | []] [<- | []]. reflexivity.
Defined.

(** C1: after inserting [{val: 1}] and committing a staged update to
    [{val: 2}], the table file holds the old version (id 1001) and the new
    one (id 2000), and both have [IsCurrent] true: the old version was not
    demoted. *)
Theorem update_leaves_both_versions_current (H : GoRuntime) :
  @update_scenario H
  = Ok [(1001, true, false, VInt64 1); (2000, true, false, VInt64 2)].
Proof. vm_compute. reflexivity. Qed.

(** ** Compaction of a ref field *)

(** C2: after inserting the bodies "aaa", "bbb", "ccc", deleting the first
    and the third record and running the cleanup, the sidecar is empty,
    three records are left in the table file, and the offsets read back for
    each are [(0, 0)], which address the empty payload. *)
Theorem cleanup_loses_ref_payloads (H : GoRuntime) :
  @compaction_scenario H
  = Ok (Some 0,
        [(1001, Some (0, 0), Ok EmptyString); (2002, Some (0, 0), Ok EmptyString);
         (3003, Some (0, 0), Ok EmptyString)]).
Proof. vm_compute. reflexivity. Qed.

(** ** Float fields *)

(** C3: encoding a record whose float field holds 1.5 stores the integer 1
    in the cell, not the bit pattern of 1.5, and decoding yields 1.0. *)
Theorem float_round_trip_truncates (H : GoRuntime) :
  @float_round_trip H = Ok (le_bytes 8 1, Some (VFloat64 (float64_of_int 1)))
  /\ le_bytes 8 1 <> le_bytes 8 (Float64bits one_and_a_half)
  /\ SFeqb (float64_of_int 1) one_and_a_half = false.
Proof.
  split; [vm_compute; reflexivity |].
  split; [vm_compute; discriminate | vm_compute; reflexivity].
Qed.

(** ** Queries on integer fields *)

(** X2: no comparison accepts an [int64], the type every integer read
    from a table file has: with an [int64] on the left, [equals],
    [greaterThan], [lessThan] and the two derived comparisons are false. *)
Lemma comparisons_reject_int64 (n : Z) (b : value) :
  equals (VInt64 n) b = false /\ greaterThan (VInt64 n) b = false
  /\ lessThan (VInt64 n) b = false /\ greaterThanOrEqual (VInt64 n) b = false
  /\ lessThanOrEqual (VInt64 n) b = false.
Proof. repeat split. Qed.

(** C4: after inserting [n] = 3, 1, 4, 1, 5, 9, 2, the query
    [where n >= 2, sort by n ascending, limit 3] returns no record. *)
Theorem query_on_int_field_matches_nothing (H : GoRuntime) :
  @query_scenario H = Ok [].
Proof. vm_compute. reflexivity. Qed.

(** ** The record codec: what a write keeps, and the size of a record *)

Lemma le_bytes_length (n : nat) (v : Z) : length (le_bytes n v) = n.
Proof. revert v. induction n as [| n IH]; intros v; cbn; [reflexivity | rewrite IH; reflexivity]. Qed.

Lemma le_value_le_bytes (n : nat) (v : Z) :
  le_value (le_bytes n v) = v mod 256 ^ Z.of_nat n.
Proof.
  revert v. induction n as [| n IH]; intros v.
  - cbn. rewrite Z.mod_1_r. reflexivity.
  - cbn [le_bytes le_value]. rewrite IH.
    rewrite Nat2Z.inj_succ, Z.pow_succ_r by lia.
    rewrite Z.rem_mul_r by lia. lia.
Qed.

Lemma write_at_length (data : list Z) (off : Z) (bs : list Z) :
  0 <= off -> off + Z.of_nat (length bs) <= Z.of_nat (length data) ->
  length (write_at data off bs) = length data.
Proof.
  intros H0 H1. unfold write_at.
  rewrite !length_app, length_take, length_drop. lia.
Qed.

Lemma write_at_take (data : list Z) (off : Z) (bs : list Z) (n : nat) :
  (n <= Z.to_nat off)%nat -> (Z.to_nat off <= length data)%nat ->
  take n (write_at data off bs) = take n data.
Proof.
  intros Hn Hl. unfold write_at.
  rewrite take_app_le by (rewrite length_take; lia).
  rewrite take_take. f_equal. lia.
Qed.

Lemma keeps_refl n data : keeps n data data.
Proof. split; reflexivity. Qed.

Lemma keeps_trans n d1 d2 d3 : keeps n d1 d2 -> keeps n d2 d3 -> keeps n d1 d3.
Proof. intros [L1 T1] [L2 T2]. split; congruence. Qed.

Lemma keeps_le n m d1 d2 : (n <= m)%nat -> keeps m d1 d2 -> keeps n d1 d2.
Proof.
  intros Le [L T]. split; [exact L |].
  rewrite <- (Nat.min_l n m Le), <- !take_take, T. reflexivity.
Qed.

Lemma write_at_keeps (data : list Z) (off : Z) (bs : list Z) :
  0 <= off -> off + Z.of_nat (length bs) <= Z.of_nat (length data) ->
  keeps (Z.to_nat off) data (write_at data off bs).
Proof.
  intros H0 H1. split.
  - apply write_at_length; assumption.
  - apply write_at_take; lia.
Qed.

Lemma set_index_keeps data off b out :
  set_index data off b = Ok out -> keeps (Z.to_nat off) data out.
Proof.
  unfold set_index. destruct (_ && _) eqn:B; [| discriminate].
  intros [= <-]. bool_hyps. apply write_at_keeps; cbn; lia.
Qed.

Lemma PutUint64_keeps data lo hi v out :
  PutUint64 data lo hi v = Ok out -> keeps (Z.to_nat lo) data out.
Proof.
  unfold PutUint64, in_bounds.
  destruct (negb _) eqn:B; [discriminate |].
  destruct (hi - lo <? 8) eqn:B2; [discriminate |].
  intros [= <-]. bool_hyps. apply write_at_keeps; [lia |].
  rewrite ?le_bytes_length. cbn. lia.
Qed.

Lemma PutUint16_keeps data lo hi v out :
  PutUint16 data lo hi v = Ok out -> keeps (Z.to_nat lo) data out.
Proof.
  unfold PutUint16, in_bounds.
  destruct (negb _) eqn:B; [discriminate |].
  destruct (hi - lo <? 2) eqn:B2; [discriminate |].
  intros [= <-]. bool_hyps. apply write_at_keeps; [lia |].
  rewrite ?le_bytes_length. cbn. lia.
Qed.

Lemma copy_string_keeps data lo hi v out :
  copy_string data lo hi v = Ok out -> keeps (Z.to_nat lo) data out.
Proof.
  unfold copy_string, in_bounds.
  destruct (negb _) eqn:B; [discriminate |].
  intros [= <-]. bool_hyps. apply write_at_keeps; [lia |].
  rewrite length_take. lia.
Qed.

Lemma fieldsSize_from (fields : list Field) (acc : Z) :
  fold_left (fun acc field =>
               if String.eqb (Name field) "id" then acc
               else acc + Z.of_N (Length field) + 1) fields acc
  = acc + fieldsSize fields.
Proof.
  unfold fieldsSize. revert acc.
  induction fields as [| field rest IH]; intros acc; cbn; [lia |].
  rewrite IH. rewrite (IH (if String.eqb (Name field) "id" then 0 else _)).
  destruct (String.eqb (Name field) "id"); lia.
Qed.

Lemma fieldsSize_cons (field : Field) (rest : list Field) :
  fieldsSize (field :: rest)
  = (if String.eqb (Name field) "id" then 0 else Z.of_N (Length field) + 1)
    + fieldsSize rest.
Proof.
  unfold fieldsSize at 1. cbn [fold_left]. rewrite fieldsSize_from.
  destruct (String.eqb (Name field) "id"); lia.
Qed.

Lemma fieldsSize_nonneg (fields : list Field) : 0 <= fieldsSize fields.
Proof.
  induction fields as [| field rest IH]; [cbn; lia |].
  rewrite fieldsSize_cons. destruct (String.eqb (Name field) "id"); lia.
Qed.

Section CodecFacts.

Context `{GoRuntime}.

(** *** When the record size is an [int], nothing wraps *)

Lemma int_of_uint_exact (n : N) : Z.of_N n < 2 ^ 63 -> int_of_uint n = Z.of_N n.
Proof.
  intros Small. unfold int_of_uint, to_int64.
  rewrite Z.mod_small by lia. lia.
Qed.

Lemma int_add_exact (a b : Z) : - 2 ^ 63 <= a + b < 2 ^ 63 -> int_add a b = a + b.
Proof.
  intros Small. unfold int_add, to_int64.
  rewrite Z.mod_small by lia. lia.
Qed.

Lemma recordSize_from_exact (fields : list Field) :
  forall recordSize,
    0 <= recordSize -> recordSize + fieldsSize fields < 2 ^ 63 ->
    recordSize_from recordSize fields = recordSize + fieldsSize fields.
Proof.
  induction fields as [| field rest IH]; intros recordSize Pos Small.
  - cbn. lia.
  - rewrite fieldsSize_cons in Small. pose proof (fieldsSize_nonneg rest) as NN.
    unfold recordSize_from. cbn [fold_left]. fold (recordSize_from).
    rewrite fieldsSize_cons.
    destruct (String.eqb (Name field) "id").
    + change (fold_left _ rest recordSize) with (recordSize_from recordSize rest).
      rewrite IH by lia. lia.
    + rewrite int_of_uint_exact by lia.
      rewrite (int_add_exact recordSize) by lia. rewrite int_add_exact by lia.
      change (fold_left _ rest ?a) with (recordSize_from a rest).
      rewrite IH by lia. lia.
Qed.

Lemma Serialize_payload_exact r field value data offset :
  0 <= offset -> offset + Z.of_N (Length field) < 2 ^ 63 ->
  Serialize_payload r field value data offset
  = Exact.Serialize_payload r field value data offset.
Proof.
  intros Pos Small. unfold Serialize_payload, Exact.Serialize_payload.
  rewrite int_of_uint_exact by lia. rewrite int_add_exact by lia. reflexivity.
Qed.

Lemma Serialize_fields_exact r fields :
  forall data offset,
    0 <= offset -> offset + fieldsSize fields < 2 ^ 63 ->
    Serialize_fields r fields data offset = Exact.Serialize_fields r fields data offset.
Proof.
  induction fields as [| field rest IH]; intros data offset Pos Small; [reflexivity |].
  rewrite fieldsSize_cons in Small. pose proof (fieldsSize_nonneg rest) as NN.
  cbn [Serialize_fields Exact.Serialize_fields].
  destruct (String.eqb (Name field) "id"); [apply IH; lia |].
  destruct (set_index data offset _) as [d1 | |]; cbn [mbind result_bind]; try reflexivity.
  rewrite int_of_uint_exact by lia. rewrite int_add_exact by lia.
  destruct (FieldsData r !! Name field) as [value |]; [| apply IH; lia].
  destruct (IsNull _); [apply IH; lia |].
  rewrite Serialize_payload_exact by lia.
  destruct (Exact.Serialize_payload r field value d1 (offset + 1)) as [d2 | |];
    cbn [mbind result_bind]; try reflexivity.
  apply IH; lia.
Qed.

Lemma Serialize_exact (r : Record_) (fields : list Field) (bytes : list Z) :
  fits fields ->
  Serialize r fields = Ok bytes -> Exact.Serialize r fields = Ok bytes.
Proof.
  unfold fits. intros Small. pose proof (fieldsSize_nonneg fields) as NN.
  unfold Serialize, Exact.Serialize.
  rewrite recordSize_from_exact by lia. unfold make_bytes.
  destruct ((8 + 4 + fieldsSize fields <? 0) || _); [discriminate |].
  cbn [mbind result_bind].
  destruct (PutUint64 _ 0 8 _) as [d1 | |]; cbn [mbind result_bind]; try discriminate.
  destruct (set_index d1 8 _) as [d2 | |]; cbn [mbind result_bind]; try discriminate.
  destruct (PutUint16 d2 9 11 _) as [d3 | |]; cbn [mbind result_bind]; try discriminate.
  destruct (set_index d3 11 _) as [d4 | |]; cbn [mbind result_bind]; try discriminate.
  rewrite Serialize_fields_exact by lia. exact id.
Qed.

Lemma Deserialize_fields_exact (data : bslice) (fields : list Field) :
  forall record offset,
    0 <= offset -> offset + fieldsSize fields < 2 ^ 63 ->
    Deserialize_fields data fields record offset
    = Exact.Deserialize_fields data fields record offset.
Proof.
  induction fields as [| field rest IH]; intros record offset Pos Small; [reflexivity |].
  rewrite fieldsSize_cons in Small. pose proof (fieldsSize_nonneg rest) as NN.
  cbn [Deserialize_fields Exact.Deserialize_fields].
  destruct (String.eqb (Name field) "id"); [apply IH; lia |].
  destruct (sl_index data offset) as [b | |]; cbn [mbind result_bind]; try reflexivity.
  rewrite int_of_uint_exact by lia. rewrite int_add_exact by lia.
  destruct (b =? 1); [apply IH; lia |].
  match goal with
  | |- mbind _ ?payload = _ => destruct payload as [record' | |]
  end; cbn [mbind result_bind]; try reflexivity.
  apply IH; lia.
Qed.

Lemma DeserializeRecord_exact (data : bslice) (fields : list Field) :
  fits fields -> DeserializeRecord data fields = Exact.DeserializeRecord data fields.
Proof.
  unfold fits. intros Small. pose proof (fieldsSize_nonneg fields) as NN.
  unfold DeserializeRecord, Exact.DeserializeRecord.
  destruct (sl_len data <? 12); [reflexivity |].
  destruct (sl_slice data 0 8) as [c1 | |]; cbn [mbind result_bind]; try reflexivity.
  destruct (Uint64 c1) as [id | |]; cbn [mbind result_bind]; try reflexivity.
  destruct (sl_index data 8) as [m | |]; cbn [mbind result_bind]; try reflexivity.
  destruct (sl_slice data 9 11) as [c2 | |]; cbn [mbind result_bind]; try reflexivity.
  destruct (Uint16 c2) as [lo | |]; cbn [mbind result_bind]; try reflexivity.
  destruct (sl_index data 11) as [hi | |]; cbn [mbind result_bind]; try reflexivity.
  apply Deserialize_fields_exact; lia.
Qed.

Lemma parse_records_exact (data : list Z) (fields : list Field) :
  fits fields ->
  forall count rounds i,
    0 <= i ->
    count = Z.to_nat ((Z.of_nat (length data) - i) / (fieldsSize fields + 12)) ->
    (count < rounds)%nat ->
    parse_records data fields (fieldsSize fields + 12) i rounds
    = Exact.parse_records data fields (fieldsSize fields + 12) i count.
Proof.
  intros Small. pose proof (fieldsSize_nonneg fields) as NN.
  set (size := fieldsSize fields + 12) in *.
  induction count as [| count IH]; intros rounds i Pos Count Fuel.
  - destruct rounds as [| rounds]; [lia |]. cbn [parse_records Exact.parse_records].
    destruct (Z.ltb_spec i (Z.of_nat (length data))) as [Below | _]; [| reflexivity].
    cbn [negb].
    destruct (Z.ltb_spec (Z.of_nat (length data)) (i + size)) as [_ | Whole]; [reflexivity |].
    exfalso.
    assert (1 <= (Z.of_nat (length data) - i) / size).
    { apply Z.div_le_lower_bound; lia. }
    lia.
  - destruct rounds as [| rounds]; [lia |]. cbn [parse_records Exact.parse_records].
    assert (1 <= (Z.of_nat (length data) - i) / size) as One by lia.
    assert (size <= Z.of_nat (length data) - i) as Whole.
    { destruct (Z.le_gt_cases size (Z.of_nat (length data) - i)) as [L | G]; [exact L |].
      assert ((Z.of_nat (length data) - i) / size < 1)
        by (apply Z.div_lt_upper_bound; lia).
      lia. }
    destruct (Z.ltb_spec i (Z.of_nat (length data))) as [_ | Above]; [| lia].
    cbn [negb].
    destruct (Z.ltb_spec (Z.of_nat (length data)) (i + size)) as [Short | _]; [lia |].
    unfold sl_slice, slice_of, sl_cap. cbn [sl_arr sl_len].
    destruct (Z.leb_spec 0 i); [| lia].
    destruct (Z.leb_spec i (i + size)); [| lia].
    destruct (Z.leb_spec (i + size) (Z.of_nat (length data))); [| lia].
    cbn [andb mbind result_bind].
    replace (i + size - i) with size by lia.
    rewrite (DeserializeRecord_exact _ _ Small).
    rewrite (IH rounds (i + size)); [reflexivity | lia | | lia].
    replace (Z.of_nat (length data) - (i + size))
      with (Z.of_nat (length data) - i + (-1) * size) by lia.
    rewrite Z.div_add by lia. lia.
Qed.


Lemma Serialize_payload_keeps r field value data offset out :
  0 <= offset ->
  Exact.Serialize_payload r field value data offset = Ok out ->
  keeps (Z.to_nat offset) data out.
Proof.
  intros Pos. unfold Exact.Serialize_payload.
  repeat match goal with
         | |- context [if String.eqb ?a ?b then _ else _] => destruct (String.eqb a b)
         end;
    try discriminate.
  - destruct value; try discriminate. apply PutUint64_keeps.
  - destruct value; try discriminate; apply PutUint64_keeps.
  - destruct value; try discriminate. apply PutUint64_keeps.
  - destruct value; try discriminate. apply copy_string_keeps.
  - destruct (RefOffsets r !! Name field) as [offsets |]; [| discriminate].
    destruct (PutUint64 data offset (offset + 8) _) as [d1 | |] eqn:E1; cbn;
      try discriminate.
    intros E2. apply PutUint64_keeps in E1, E2.
    eapply keeps_trans; [exact E1 |].
    eapply keeps_le; [| exact E2]. lia.
Qed.

Lemma Serialize_fields_keeps r fields :
  forall data offset out,
    0 <= offset ->
    Exact.Serialize_fields r fields data offset = Ok out ->
    keeps (Z.to_nat offset) data out.
Proof.
  induction fields as [| field rest IH]; intros data offset out Pos; cbn.
  - intros [= <-]. apply keeps_refl.
  - destruct (String.eqb (Name field) "id"); [apply IH; exact Pos |].
    destruct (set_index data offset _) as [d1 | |] eqn:E1; cbn; try discriminate.
    apply set_index_keeps in E1.
    assert (forall d out', Exact.Serialize_fields r rest d (offset + 1 + Z.of_N (Length field)) = Ok out' ->
                           keeps (Z.to_nat offset) d out') as Tail.
    { intros d out' E. apply IH in E; [| lia]. eapply keeps_le; [| exact E]. lia. }
    destruct (FieldsData r !! Name field) as [value |].
    + destruct (IsNull _).
      * intros E. eapply keeps_trans; [exact E1 | apply Tail; exact E].
      * destruct (Exact.Serialize_payload r field value d1 (offset + 1)) as [d2 | |] eqn:E2;
          cbn; try discriminate.
        apply Serialize_payload_keeps in E2; [| lia].
        intros E. eapply keeps_trans; [exact E1 |].
        eapply keeps_trans; [eapply keeps_le; [| exact E2]; lia | apply Tail; exact E].
    + intros E. eapply keeps_trans; [exact E1 | apply Tail; exact E].
Qed.

Lemma Serialize_size (r : Record_) (fields : list Field) (bytes : list Z) :
  Exact.Serialize r fields = Ok bytes ->
  Z.of_nat (length bytes) = 12 + fieldsSize fields.
Proof.
  unfold Exact.Serialize. pose proof (fieldsSize_nonneg fields) as NN.
  destruct (PutUint64 _ 0 8 _) as [d1 | |] eqn:E1; cbn; try discriminate.
  destruct (set_index d1 8 _) as [d2 | |] eqn:E2; cbn; try discriminate.
  destruct (PutUint16 d2 9 11 _) as [d3 | |] eqn:E3; cbn; try discriminate.
  destruct (set_index d3 11 _) as [d4 | |] eqn:E4; cbn; try discriminate.
  intros E5.
  apply PutUint64_keeps in E1. apply set_index_keeps in E2.
  apply PutUint16_keeps in E3. apply set_index_keeps in E4.
  apply Serialize_fields_keeps in E5; [| lia].
  destruct E1 as [L1 _], E2 as [L2 _], E3 as [L3 _], E4 as [L4 _], E5 as [L5 _].
  rewrite L5, L4, L3, L2, L1, repeat_length. lia.
Qed.

Lemma to_int64_add_l (a b : Z) : to_int64 (to_int64 a + b) = to_int64 (a + b).
Proof.
  unfold to_int64. f_equal.
  replace ((a + 2 ^ 63) mod 2 ^ 64 - 2 ^ 63 + b + 2 ^ 63)
    with ((a + 2 ^ 63) mod 2 ^ 64 + b) by lia.
  rewrite Z.add_mod_idemp_l by lia. f_equal. lia.
Qed.

Lemma to_int64_add_r (a b : Z) : to_int64 (a + to_int64 b) = to_int64 (a + b).
Proof. rewrite (Z.add_comm a), to_int64_add_l. f_equal. lia. Qed.

Lemma recordSize_from_mod (fields : list Field) :
  forall recordSize,
    recordSize_from (to_int64 recordSize) fields
    = to_int64 (recordSize + fieldsSize fields).
Proof.
  induction fields as [| field rest IH]; intros recordSize.
  - cbn. f_equal. lia.
  - rewrite fieldsSize_cons. unfold recordSize_from. cbn [fold_left].
    change (fold_left _ rest ?a) with (recordSize_from a rest).
    destruct (String.eqb (Name field) "id").
    + rewrite IH. f_equal; lia.
    + unfold int_add, int_of_uint.
      rewrite to_int64_add_r, to_int64_add_l, <- Z.add_assoc, to_int64_add_l, IH.
      f_equal; lia.
Qed.

(** The size [Serialize] allocates is the one [GetAllRecords] reads by. *)
Lemma recordSize_writer_reader (fields : list Field) :
  recordSize_from (8 + 4) fields = int_add (recordSize_from 0 fields) 12.
Proof.
  change (8 + 4) with (to_int64 12). change 0 with (to_int64 0) at 1.
  rewrite !recordSize_from_mod. unfold int_add. rewrite to_int64_add_l.
  f_equal. lia.
Qed.

Lemma Serialize_payload_same_length r field value data offset out :
  Serialize_payload r field value data offset = Ok out -> length out = length data.
Proof.
  unfold Serialize_payload.
  repeat match goal with
         | |- context [if String.eqb ?a ?b then _ else _] => destruct (String.eqb a b)
         end;
    try discriminate.
  - destruct value; try discriminate. intros E. apply PutUint64_keeps in E. apply E.
  - destruct value; try discriminate; intros E; apply PutUint64_keeps in E; apply E.
  - destruct value; try discriminate. intros E. apply PutUint64_keeps in E. apply E.
  - destruct value; try discriminate. intros E. apply copy_string_keeps in E. apply E.
  - destruct (RefOffsets r !! Name field) as [offsets |]; [| discriminate].
    destruct (PutUint64 data offset (offset + 8) _) as [d1 | |] eqn:E1; cbn;
      try discriminate.
    intros E2. apply PutUint64_keeps in E1, E2.
    destruct E1 as [L1 _], E2 as [L2 _]. congruence.
Qed.

Lemma Serialize_fields_same_length r fields :
  forall data offset out,
    Serialize_fields r fields data offset = Ok out -> length out = length data.
Proof.
  induction fields as [| field rest IH]; intros data offset out; cbn [Serialize_fields].
  - intros [= <-]. reflexivity.
  - destruct (String.eqb (Name field) "id"); [apply IH |].
    destruct (set_index data offset _) as [d1 | |] eqn:E1; cbn [mbind result_bind];
      try discriminate.
    apply set_index_keeps in E1. destruct E1 as [L1 _].
    destruct (FieldsData r !! Name field) as [value |].
    + destruct (IsNull _).
      * intros E. apply IH in E. congruence.
      * destruct (Serialize_payload r field value d1 (offset + 1)) as [d2 | |] eqn:E2;
          cbn [mbind result_bind]; try discriminate.
        apply Serialize_payload_same_length in E2.
        intros E. apply IH in E. congruence.
    + intros E. apply IH in E. congruence.
Qed.

(** X4: whenever [Serialize] returns a buffer for a record and a field
    list, the buffer has exactly the record size [GetAllRecords] computes
    for that field list, wrap-around included; when the sizes of the
    fields add up to an [int] ([fits]), that is 12 bytes of header and, for
    every field not named "id", one byte of null flag and [Length] bytes
    of cell. *)
Theorem Serialize_length (r : Record_) (fields : list Field) (bytes : list Z) :
  Serialize r fields = Ok bytes ->
  Z.of_nat (length bytes) = int_add (recordSize_from 0 fields) 12
  /\ (fits fields -> Z.of_nat (length bytes) = 12 + fieldsSize fields).
Proof.
  intros S. split.
  - rewrite <- recordSize_writer_reader. revert S. unfold Serialize, make_bytes.
    destruct (Z.ltb_spec (recordSize_from (8 + 4) fields) 0) as [| Pos];
      [discriminate |].
    destruct (maxAlloc <? _); [discriminate |]. cbn [orb mbind result_bind].
    destruct (PutUint64 _ 0 8 _) as [d1 | |] eqn:E1; cbn [mbind result_bind];
      try discriminate.
    destruct (set_index d1 8 _) as [d2 | |] eqn:E2; cbn [mbind result_bind];
      try discriminate.
    destruct (PutUint16 d2 9 11 _) as [d3 | |] eqn:E3; cbn [mbind result_bind];
      try discriminate.
    destruct (set_index d3 11 _) as [d4 | |] eqn:E4; cbn [mbind result_bind];
      try discriminate.
    intros E5.
    apply PutUint64_keeps in E1. apply set_index_keeps in E2.
    apply PutUint16_keeps in E3. apply set_index_keeps in E4.
    apply Serialize_fields_same_length in E5.
    destruct E1 as [L1 _], E2 as [L2 _], E3 as [L3 _], E4 as [L4 _].
    rewrite E5, L4, L3, L2, L1, repeat_length. lia.
  - intros Fits. apply (Serialize_size r). apply Serialize_exact; assumption.
Qed.

End CodecFacts.

(** ** The record codec: decoding a buffer of the record size *)

Lemma Deserialize_fields_header (fields : list Field) :
  forall data record offset r,
    Exact.Deserialize_fields data fields record offset = Ok r ->
    ID r = ID record /\ Metadata r = Metadata record.
Proof.
  induction fields as [| field rest IH]; intros data record offset r; cbn.
  - intros [= <-]. split; reflexivity.
  - destruct (String.eqb (Name field) "id").
    { intros E. apply IH in E. exact E. }
    destruct (sl_index data offset) as [b | |]; cbn; try discriminate.
    destruct (b =? 1).
    { intros E. apply IH in E. exact E. }
    match goal with
    | |- mbind _ ?payload = _ -> _ => destruct payload as [record' | |] eqn:E
    end; cbn; try discriminate.
    intros E'. apply IH in E'. destruct E' as [-> ->].
    revert E.
    repeat match goal with
           | |- context [if ?c then _ else _] => destruct c
           end;
      repeat match goal with
             | |- context [mbind _ ?m] =>
                 let x := fresh in destruct m as [x | |]; cbn; try discriminate
             end;
      intros [= <-]; split; reflexivity.
Qed.

Lemma sl_index_ok (data : bslice) (i : Z) :
  0 <= i < sl_len data -> sl_index data i = Ok (nth (Z.to_nat i) (sl_arr data) 0).
Proof.
  intros R. unfold sl_index.
  destruct (Z.leb_spec 0 i); [| lia]. destruct (Z.ltb_spec i (sl_len data)); [| lia].
  reflexivity.
Qed.

Lemma sl_slice_ok (data : bslice) (lo hi : Z) :
  0 <= lo <= hi -> hi <= sl_cap data ->
  sl_slice data lo hi = Ok (mkSlice (drop (Z.to_nat lo) (sl_arr data)) (hi - lo)).
Proof.
  intros R C. unfold sl_slice.
  destruct (Z.leb_spec 0 lo); [| lia]. destruct (Z.leb_spec lo hi); [| lia].
  destruct (Z.leb_spec hi (sl_cap data)); [| lia]. reflexivity.
Qed.

Lemma Uint64_ok (b : bslice) :
  8 <= sl_len b -> Uint64 b = Ok (le_value (take 8 (sl_arr b))).
Proof.
  intros L. unfold Uint64. destruct (Z.ltb_spec (sl_len b) 8); [lia | reflexivity].
Qed.

Lemma Uint16_ok (b : bslice) :
  2 <= sl_len b -> Uint16 b = Ok (le_value (take 2 (sl_arr b))).
Proof.
  intros L. unfold Uint16. destruct (Z.ltb_spec (sl_len b) 2); [lia | reflexivity].
Qed.

Lemma Deserialize_fields_total (fields : list Field) :
  forall data record offset,
    0 <= offset -> offset + fieldsSize fields = sl_len data ->
    sl_len data <= sl_cap data ->
    Forall (fun field => readable field = true) fields ->
    exists r, Exact.Deserialize_fields data fields record offset = Ok r.
Proof.
  induction fields as [| field rest IH]; intros data record offset Pos Size Cap All; cbn.
  - eexists. reflexivity.
  - apply Forall_cons in All. destruct All as [R All].
    rewrite fieldsSize_cons in Size. pose proof (fieldsSize_nonneg rest) as NN.
    unfold readable in R.
    destruct (String.eqb (Name field) "id").
    { apply IH; try assumption; lia. }
    cbn in R.
    assert (forall record', exists r,
               Exact.Deserialize_fields data rest record' (offset + 1 + Z.of_N (Length field)) = Ok r)
      as Tail.
    { intros record'. apply IH; try assumption; lia. }
    rewrite sl_index_ok by lia. cbn.
    destruct (_ =? 1); [apply Tail |].
    destruct (String.eqb (Type_ field) TimeID), (String.eqb (Type_ field) Int),
      (String.eqb (Type_ field) Float), (String.eqb (Type_ field) String_),
      (String.eqb (Type_ field) "ref"); cbn in R |- *;
      try apply N.leb_le in R;
      rewrite ?sl_slice_ok by lia; cbn;
      rewrite ?Uint64_ok by (cbn; lia); cbn;
      rewrite ?sl_slice_ok by lia; cbn;
      rewrite ?Uint64_ok by (cbn; lia); cbn;
      apply Tail.
Qed.

Lemma DeserializeRecord_succeeds (data : bslice) (fields : list Field) :
  Forall (fun field => readable field = true) fields ->
  sl_len data = fieldsSize fields + 12 -> sl_len data <= sl_cap data ->
  exists r, Exact.DeserializeRecord data fields = Ok r.
Proof.
  intros All Size Cap. pose proof (fieldsSize_nonneg fields) as NN.
  unfold Exact.DeserializeRecord.
  destruct (Z.ltb_spec (sl_len data) 12); [lia |].
  rewrite (sl_slice_ok data 0 8) by lia. cbn [mbind result_bind].
  rewrite Uint64_ok by (cbn; lia). cbn [mbind result_bind].
  rewrite (sl_index_ok data 8) by lia. cbn [mbind result_bind].
  rewrite (sl_slice_ok data 9 11) by lia. cbn [mbind result_bind].
  rewrite Uint16_ok by (cbn; lia). cbn [mbind result_bind].
  rewrite (sl_index_ok data 11) by lia. cbn [mbind result_bind].
  apply Deserialize_fields_total; try assumption; lia.
Qed.

(** X5: when every field is wide enough for its type ([readable]), a
    buffer whose length is the record size (and within its capacity, which
    is an [int] as that of every slice) is decoded: [DeserializeRecord]
    returns a record, neither an error nor a panic, whatever the bytes
    are. *)
Theorem DeserializeRecord_total (data : bslice) (fields : list Field) :
  Forall (fun field => readable field = true) fields ->
  sl_len data = fieldsSize fields + 12 -> sl_len data <= sl_cap data ->
  sl_cap data < 2 ^ 63 ->
  exists r, DeserializeRecord data fields = Ok r.
Proof.
  intros All Size Cap Int.
  rewrite DeserializeRecord_exact by (unfold fits; lia).
  apply DeserializeRecord_succeeds; assumption.
Qed.

Lemma parse_records_total (data : list Z) (fields : list Field) :
  Forall (fun field => readable field = true) fields ->
  forall count i,
    0 <= i ->
    i + Z.of_nat count * (fieldsSize fields + 12) <= Z.of_nat (length data) ->
    exists records,
      Exact.parse_records data fields (fieldsSize fields + 12) i count = Ok records
      /\ length records = count.
Proof.
  intros All. pose proof (fieldsSize_nonneg fields) as NN.
  induction count as [| count IH]; intros i Pos Fits; cbn [Exact.parse_records].
  - exists []. split; reflexivity.
  - destruct (DeserializeRecord_succeeds
                (mkSlice (drop (Z.to_nat i) data) (fieldsSize fields + 12)) fields All)
      as [record E].
    + reflexivity.
    + unfold sl_cap. cbn. rewrite length_drop. lia.
    + rewrite E. cbn.
      destruct (IH (i + (fieldsSize fields + 12))) as (records & E' & L); [lia | lia |].
      rewrite E'. cbn. exists (record :: records). split; [reflexivity | cbn; lia].
Qed.

Section ReadFacts.

Context `{GoRuntime}.

Lemma os_IsNotExist_present (w : World) (path : string) (n : node) :
  fs w !! path = Some n -> os_IsNotExist w path = false.
Proof.
  intros Present. unfold os_IsNotExist, os_Stat. rewrite Present. reflexivity.
Qed.

Lemma os_IsNotExist_there (w : World) (path : string) :
  fs w !! path <> None -> os_IsNotExist w path = false.
Proof.
  intros Present. destruct (fs w !! path) as [n |] eqn:L; [| contradiction].
  exact (os_IsNotExist_present _ _ _ L).
Qed.

Lemma os_IsNotExist_absent (w : World) (path : string) :
  os_IsNotExist w path = true -> fs w !! path = None.
Proof.
  intros Missing. apply bool_decide_eq_true_1 in Missing. unfold os_Stat in Missing.
  destruct (fs w !! path); [discriminate | reflexivity].
Qed.

(** What [GetAllRecords] computes for a table file that is there, when the
    record size is an [int]. *)
Lemma GetAllRecords_present (t : Table) (w : World) (c : content) :
  fits (Fields t) ->
  fs w !! (SchemaPath t +:+ "/" +:+ TableName t +:+ fileEnding) = Some (File c) ->
  GetAllRecords t w
  = (Exact.parse_records (content_bytes c) (Fields t) (fieldsSize (Fields t) + 12) 0
       (Z.to_nat (Z.of_nat (length (content_bytes c)) / (fieldsSize (Fields t) + 12))),
     w).
Proof.
  unfold fits. intros Small Present. pose proof (fieldsSize_nonneg (Fields t)) as NN.
  unfold GetAllRecords. rewrite (os_IsNotExist_present _ _ _ Present).
  unfold st_bind, st_wrap, os_ReadFile, st_lift. rewrite Present.
  rewrite recordSize_from_exact by lia. rewrite int_add_exact by lia.
  change (0 + fieldsSize (Fields t) + 12) with (fieldsSize (Fields t) + 12).
  set (size := fieldsSize (Fields t) + 12).
  set (n := Z.of_nat (length (content_bytes c))).
  assert (0 <= n / size <= n) as Q.
  { split; [apply Z.div_pos; lia |]. apply Z.div_le_upper_bound; nia. }
  f_equal. apply parse_records_exact; [exact Small | lia | | lia].
  fold n. f_equal. f_equal. lia.
Qed.

(** X6: when the fields of a table are wide enough for their types, their
    sizes add up to an [int] and the table file is there, [GetAllRecords]
    succeeds, leaves the world as it is and returns as many records as
    whole records fit the file: the length of the file divided by the
    record size, rounded down; bytes after the last whole record are
    ignored. *)
Theorem GetAllRecords_whole_records (t : Table) (w : World) (c : content) :
  Forall (fun field => readable field = true) (Fields t) ->
  fits (Fields t) ->
  fs w !! (SchemaPath t +:+ "/" +:+ TableName t +:+ fileEnding) = Some (File c) ->
  exists records,
    GetAllRecords t w = (Ok records, w)
    /\ Z.of_nat (length records)
       = Z.of_nat (length (content_bytes c)) / (fieldsSize (Fields t) + 12).
Proof.
  intros All Small Present. pose proof (fieldsSize_nonneg (Fields t)) as NN.
  rewrite (GetAllRecords_present _ _ _ Small Present).
  set (size := fieldsSize (Fields t) + 12).
  set (n := Z.of_nat (length (content_bytes c))).
  assert (0 <= n / size) as Q by (apply Z.div_pos; lia).
  destruct (parse_records_total (content_bytes c) (Fields t) All (Z.to_nat (n / size)) 0)
    as (records & E & L).
  - lia.
  - rewrite Z2Nat.id by exact Q. fold size. fold n.
    pose proof (Z.mul_div_le n size). lia.
  - exists records. fold size in E. rewrite E.
    split; [reflexivity | lia].
Qed.

End ReadFacts.

(** ** The record codec: the header of a record *)

Lemma PutUint64_inv data lo hi v out :
  PutUint64 data lo hi v = Ok out -> out = write_at data lo (le_bytes 8 v).
Proof.
  unfold PutUint64. destruct (negb _); [discriminate |].
  destruct (_ <? 8); [discriminate |]. intros [= <-]. reflexivity.
Qed.

Lemma PutUint16_inv data lo hi v out :
  PutUint16 data lo hi v = Ok out -> out = write_at data lo (le_bytes 2 v).
Proof.
  unfold PutUint16. destruct (negb _); [discriminate |].
  destruct (_ <? 2); [discriminate |]. intros [= <-]. reflexivity.
Qed.

Lemma set_index_inv data off b out :
  set_index data off b = Ok out -> out = write_at data off [b].
Proof.
  unfold set_index. destruct (_ && _); [| discriminate]. intros [= <-]. reflexivity.
Qed.

Lemma to_int64_to_uint64 (z : Z) :
  - 2 ^ 63 <= z < 2 ^ 63 -> to_int64 (to_uint64 z) = z.
Proof.
  intros R. unfold to_int64, to_uint64.
  rewrite Zplus_mod_idemp_l. rewrite Z.mod_small by lia. lia.
Qed.

Lemma metaByte_flags (m : RecordMetadata) :
  negb (Z.land (metaByte_of m) 1 =? 0) = IsCurrent m
  /\ negb (Z.land (metaByte_of m) 2 =? 0) = IsDeleted m
  /\ negb (Z.land (metaByte_of m) 4 =? 0) = IsLocked m.
Proof.
  unfold metaByte_of. destruct (IsCurrent m), (IsDeleted m), (IsLocked m);
    repeat split; reflexivity.
Qed.

Lemma transaction_id_24_bits (t : Z) :
  Z.lor (to_uint16 t) (Z.shiftl (to_byte (Z.shiftr t 16)) 16) = t mod 2 ^ 24.
Proof.
  unfold to_uint16, to_byte. change 256 with (2 ^ 8).
  apply Z.bits_inj'. intros n Pos.
  rewrite Z.lor_spec.
  destruct (Z.lt_ge_cases n 16) as [Low | High].
  - rewrite Z.shiftl_spec_low by exact Low.
    rewrite !Z.mod_pow2_bits_low by lia. apply orb_false_r.
  - rewrite Z.mod_pow2_bits_high by lia. cbn [orb].
    rewrite Z.shiftl_spec by exact Pos.
    destruct (Z.lt_ge_cases n 24) as [Mid | Top].
    + rewrite !Z.mod_pow2_bits_low by lia.
      rewrite Z.shiftr_spec by lia. f_equal. lia.
    + rewrite !Z.mod_pow2_bits_high by lia. reflexivity.
Qed.

Lemma DeserializeRecord_header (data : bslice) (fields : list Field) :
  Forall (fun field => readable field = true) fields ->
  sl_len data = fieldsSize fields + 12 -> sl_len data <= sl_cap data ->
  exists r,
    Exact.DeserializeRecord data fields = Ok r
    /\ ID r = to_int64 (le_value (take 8 (sl_arr data)))
    /\ Metadata r
       = mkRecordMetadata
           (negb (Z.land (nth 8 (sl_arr data) 0) 1 =? 0))
           (negb (Z.land (nth 8 (sl_arr data) 0) 2 =? 0))
           (negb (Z.land (nth 8 (sl_arr data) 0) 4 =? 0))
           (Z.lor (le_value (take 2 (drop 9 (sl_arr data))))
                  (Z.shiftl (nth 11 (sl_arr data) 0) 16)).
Proof.
  intros All Size Cap. pose proof (fieldsSize_nonneg fields) as NN.
  unfold Exact.DeserializeRecord.
  destruct (Z.ltb_spec (sl_len data) 12); [lia |].
  rewrite (sl_slice_ok data 0 8) by lia. cbn [mbind result_bind].
  rewrite Uint64_ok by (cbn; lia). cbn [mbind result_bind].
  rewrite (sl_index_ok data 8) by lia. cbn [mbind result_bind].
  rewrite (sl_slice_ok data 9 11) by lia. cbn [mbind result_bind].
  rewrite Uint16_ok by (cbn; lia). cbn [mbind result_bind].
  rewrite (sl_index_ok data 11) by lia. cbn [mbind result_bind].
  match goal with
  | |- exists r, Exact.Deserialize_fields ?d ?f ?rec ?o = Ok r /\ _ =>
      destruct (Deserialize_fields_total f d rec o) as [r E]; try assumption; try lia;
      exists r; split; [exact E |];
      apply Deserialize_fields_header in E; destruct E as [-> ->]
  end.
  split; reflexivity.
Qed.

Section HeaderRoundTrip.

Context `{GoRuntime}.

Lemma Serialize_header (r : Record_) (fields : list Field) (bytes : list Z) :
  Forall (fun field => readable field = true) fields ->
  fits fields ->
  - 2 ^ 63 <= ID r < 2 ^ 63 ->
  Serialize r fields = Ok bytes ->
  exists r',
    DeserializeRecord (slice_of bytes) fields = Ok r'
    /\ ID r' = ID r
    /\ IsCurrent (Metadata r') = IsCurrent (Metadata r)
    /\ IsDeleted (Metadata r') = IsDeleted (Metadata r)
    /\ IsLocked (Metadata r') = IsLocked (Metadata r)
    /\ TransactionID (Metadata r') = TransactionID (Metadata r) mod 2 ^ 24.
Proof.
  intros All Small Range S. apply Serialize_exact in S; [| exact Small].
  rewrite DeserializeRecord_exact by exact Small.
  pose proof (Serialize_size _ _ _ S) as Len.
  pose proof (fieldsSize_nonneg fields) as NN.
  destruct (DeserializeRecord_header (slice_of bytes) fields All) as (r' & E & EID & EM).
  { cbn. lia. }
  { unfold sl_cap. cbn. lia. }
  exists r'. split; [exact E |]. rewrite EID, EM. clear E EID EM r'.
  unfold Exact.Serialize in S.
  destruct (PutUint64 _ 0 8 _) as [d1 | |] eqn:E1; cbn in S; try discriminate.
  destruct (set_index d1 8 _) as [d2 | |] eqn:E2; cbn in S; try discriminate.
  destruct (PutUint16 d2 9 11 _) as [d3 | |] eqn:E3; cbn in S; try discriminate.
  destruct (set_index d3 11 _) as [d4 | |] eqn:E4; cbn in S; try discriminate.
  apply Serialize_fields_keeps in S; [| lia]. destruct S as [_ Head].
  apply PutUint64_inv in E1. apply set_index_inv in E2.
  apply PutUint16_inv in E3. apply set_index_inv in E4.
  replace (Z.to_nat (8 + 4 + fieldsSize fields))
    with (12 + Z.to_nat (fieldsSize fields))%nat in E1 by lia.
  pose proof (le_bytes_length 8 (to_uint64 (ID r))) as L8.
  pose proof (le_value_le_bytes 8 (to_uint64 (ID r))) as V8.
  remember (le_bytes 8 (to_uint64 (ID r))) as B8 eqn:EB8. clear EB8.
  do 9 (destruct B8 as [| ? B8]; try discriminate L8).
  pose proof (le_bytes_length 2 (to_uint16 (TransactionID (Metadata r)))) as L2.
  pose proof (le_value_le_bytes 2 (to_uint16 (TransactionID (Metadata r)))) as V2.
  remember (le_bytes 2 (to_uint16 (TransactionID (Metadata r)))) as B2 eqn:EB2. clear EB2.
  do 3 (destruct B2 as [| ? B2]; try discriminate L2).
  cbn in E1. subst d1. cbn in E2. subst d2. cbn in E3. subst d3. cbn in E4. subst d4.
  change (Z.to_nat 12) with 12%nat in Head.
  assert (bytes = take 12 bytes ++ drop 12 bytes) as EB by (symmetry; apply take_drop).
  rewrite Head in EB. clear Head.
  remember (drop 12 bytes) as rest eqn:ER. clear ER.
  cbv [write_at firstn skipn app Z.to_nat Pos.to_nat Pos.iter_op Init.Nat.add length] in EB.
  subst bytes.
  cbv [slice_of sl_arr firstn skipn nth app].
  destruct (metaByte_flags (Metadata r)) as (F1 & F2 & F3).
  cbn [IsCurrent IsDeleted IsLocked TransactionID].
  rewrite V8, V2, F1, F2, F3.
  change (256 ^ Z.of_nat 8) with (2 ^ 64). change (256 ^ Z.of_nat 2) with (2 ^ 16).
  repeat split.
  - unfold to_uint64 at 1. rewrite Z.mod_mod by lia.
    apply to_int64_to_uint64. exact Range.
  - unfold to_uint16 at 1. rewrite Z.mod_mod by lia.
    apply transaction_id_24_bits.
Qed.

(** X7: for a record whose id is in the range of int64 and fields wide
    enough for their types whose sizes add up to an [int], decoding the
    buffer [Serialize] returned gives a record with the same id and the
    same [IsCurrent], [IsDeleted] and [IsLocked]; of the transaction id
    only the low 24 bits come back. *)
Theorem Serialize_header_round_trip (r : Record_) (fields : list Field) (bytes : list Z) :
  Forall (fun field => readable field = true) fields ->
  fits fields ->
  - 2 ^ 63 <= ID r < 2 ^ 63 ->
  Serialize r fields = Ok bytes ->
  exists r',
    DeserializeRecord (slice_of bytes) fields = Ok r'
    /\ ID r' = ID r
    /\ IsCurrent (Metadata r') = IsCurrent (Metadata r)
    /\ IsDeleted (Metadata r') = IsDeleted (Metadata r)
    /\ IsLocked (Metadata r') = IsLocked (Metadata r)
    /\ TransactionID (Metadata r') = TransactionID (Metadata r) mod 2 ^ 24.
Proof. apply Serialize_header. Qed.

End HeaderRoundTrip.

(** ** Ref payloads: writing and reading the sidecar *)

Lemma string_of_bytes_of_string (s : string) : string_of_bytes (bytes_of_string s) = s.
Proof.
  unfold string_of_bytes, bytes_of_string.
  induction s as [| c s IH]; [reflexivity |].
  cbn. rewrite N2Z.id, ascii_N_embedding. f_equal. exact IH.
Qed.

Lemma bytes_of_string_length (s : string) :
  length (bytes_of_string s) = String.length s.
Proof.
  unfold bytes_of_string. induction s as [| c s IH]; [reflexivity |].
  cbn. f_equal. exact IH.
Qed.

Lemma ref_slice_app (data more : list Z) (offsets : Z * Z) :
  valid_offsets data offsets = true ->
  ref_slice (data ++ more) offsets = ref_slice data offsets.
Proof.
  unfold valid_offsets, ref_slice. intros V.
  apply negb_true_iff, orb_false_iff in V. destruct V as [V V3].
  apply orb_false_iff in V. destruct V as [V1 V2]. bool_hyps.
  rewrite drop_app_le by lia.
  rewrite take_app_le by (rewrite length_drop; lia). reflexivity.
Qed.

Lemma ref_slice_appended (data more : list Z) :
  ref_slice (data ++ more)
    (Z.of_nat (length data), Z.of_nat (length data) + Z.of_nat (length more))
  = more.
Proof.
  unfold ref_slice. cbn [fst snd].
  rewrite Nat2Z.id. rewrite drop_app_length.
  replace (Z.to_nat _) with (length more) by lia. apply firstn_all.
Qed.

Section RefStore.

Context `{GoRuntime}.

(** X10: when [WriteRefData] succeeds, [ReadRefData] of the same field on
    the record and the world it leaves returns the value written; the
    value was added at the end of the sidecar (created empty when absent),
    and the offsets recorded are the length of the sidecar before and
    after. *)
Theorem WriteRefData_then_ReadRefData
    (schema tableName fieldName value : string) (w w' : World) (r r' : Record_) :
  WriteRefData schema tableName fieldName value (w, r) = (Ok tt, (w', r')) ->
  ReadRefData r' schema tableName fieldName w' = (Ok value, w')
  /\ exists before,
       file_length w' (refFilePath_of schema tableName fieldName)
       = Some (before + Z.of_nat (String.length value))
       /\ RefOffsets r' !! fieldName
          = Some (before, before + Z.of_nat (String.length value))
       /\ (file_length w (refFilePath_of schema tableName fieldName) = Some before
           \/ fs w !! refFilePath_of schema tableName fieldName = None /\ before = 0).
Proof.
  unfold WriteRefData.
  set (path := refFilePath_of schema tableName fieldName).
  assert (forall w1 (old : list Z) c,
             fs w1 !! path = Some (File c) -> content_bytes c = old ->
             file_Write path (bytes_of_string value) w1 = (Ok tt, w') ->
             r' = set_RefOffsets
                    (<[ fieldName := (Z.of_nat (length old),
                                      Z.of_nat (length old) + Z.of_nat (String.length value)) ]>
                       (RefOffsets r)) r ->
             ReadRefData r' schema tableName fieldName w' = (Ok value, w')
             /\ file_length w' path
                = Some (Z.of_nat (length old) + Z.of_nat (String.length value))
             /\ RefOffsets r' !! fieldName
                = Some (Z.of_nat (length old),
                        Z.of_nat (length old) + Z.of_nat (String.length value))) as Step.
  { intros w1 old c L C W ->. unfold file_Write in W. rewrite L in W.
    injection W as <-. rewrite C.
    unfold ReadRefData, file_length, os_ReadFile. fold path. cbn.
    rewrite !lookup_insert_eq. cbn.
    rewrite length_app, bytes_of_string_length.
    repeat split; try (f_equal; lia).
    destruct (Z.ltb_spec (Z.of_nat (length old)) 0); [lia |].
    destruct (Z.ltb_spec (Z.of_nat (length old + String.length value))
                (Z.of_nat (length old) + Z.of_nat (String.length value))); [lia |].
    destruct (Z.ltb_spec (Z.of_nat (length old) + Z.of_nat (String.length value))
                (Z.of_nat (length old))); [lia |].
    cbn. do 2 f_equal.
    rewrite <- (bytes_of_string_length value).
    pose proof (ref_slice_appended old (bytes_of_string value)) as S.
    unfold ref_slice in S. cbn [fst snd] in S. rewrite S.
    apply string_of_bytes_of_string. }
  unfold os_OpenAppend.
  destruct (fs w !! path) as [[| c] |] eqn:L.
  - discriminate.
  - destruct (file_Write path _ w) as [[[] | |] w2] eqn:W; try discriminate.
    intros [= <- <-].
    destruct (Step w (content_bytes c) c L eq_refl W eq_refl) as (R & FL & RO).
    split; [exact R |]. exists (Z.of_nat (length (content_bytes c))).
    repeat split; try assumption. left. unfold file_length. rewrite L. reflexivity.
  - destruct (path_errno (fs w) path); [discriminate |].
    destruct (file_Write path _ _) as [[[] | |] w2] eqn:W; try discriminate.
    intros [= <- <-].
    destruct (Step _ [] (Raw []) (lookup_insert_eq _ _ _) eq_refl W eq_refl) as (R & FL & RO).
    split; [exact R |]. exists 0.
    repeat split; try assumption. right. split; reflexivity.
Qed.

End RefStore.

(** ** Ref payloads: compaction of a sidecar *)

Lemma valid_offsets_app (data more : list Z) (offsets : Z * Z) :
  valid_offsets data offsets = true -> valid_offsets (data ++ more) offsets = true.
Proof.
  unfold valid_offsets. intros V.
  apply negb_true_iff, orb_false_iff in V. destruct V as [V V3].
  apply orb_false_iff in V. destruct V as [V1 V2]. bool_hyps.
  rewrite length_app.
  destruct (Z.ltb_spec (fst offsets) 0); [lia |].
  destruct (Z.ltb_spec (Z.of_nat (length data + length more)) (snd offsets)); [lia |].
  destruct (Z.ltb_spec (snd offsets) (fst offsets)); [lia | reflexivity].
Qed.

Lemma payload_kept_app f old_data new_data more r r' :
  payload_kept f old_data new_data r r' ->
  payload_kept f old_data (new_data ++ more) r r'.
Proof.
  unfold payload_kept. intros (E1 & E2 & E3 & E4 & E5 & P).
  repeat split; try assumption.
  destruct (RefOffsets r !! f) as [old |]; [| exact P].
  destruct (valid_offsets old_data old); [| exact P].
  destruct P as (new & L & V & S). exists new. split; [exact L |].
  split; [apply valid_offsets_app; exact V |].
  rewrite ref_slice_app by exact V. exact S.
Qed.

Lemma payload_kept_refl f data r : payload_kept f data data r r.
Proof.
  unfold payload_kept. repeat split; try reflexivity.
  destruct (RefOffsets r !! f) as [old |]; [| reflexivity].
  destruct (valid_offsets data old) eqn:V; [| reflexivity].
  exists old. repeat split; assumption.
Qed.

Lemma ref_slice_length (data : list Z) (offsets : Z * Z) :
  valid_offsets data offsets = true ->
  Z.of_nat (length (ref_slice data offsets)) = snd offsets - fst offsets.
Proof.
  unfold valid_offsets, ref_slice. intros V.
  apply negb_true_iff, orb_false_iff in V. destruct V as [V V3].
  apply orb_false_iff in V. destruct V as [V1 V2]. bool_hyps.
  rewrite length_take, length_drop. lia.
Qed.

Section Compaction.

Context `{GoRuntime}.

Lemma compact_refs_keeps_payloads (tempRefPath fieldName : string) (refData : list Z)
    (records : list Record_) :
  forall offsetMap w c,
    fs w !! tempRefPath = Some (File c) ->
    map_kept refData (content_bytes c) offsetMap ->
    exists records' w' c',
      compact_refs tempRefPath fieldName refData records offsetMap
        (Z.of_nat (length (content_bytes c))) w = (Ok records', w')
      /\ fs w' = <[ tempRefPath := File c' ]> (fs w)
      /\ (exists more, content_bytes c' = content_bytes c ++ more)
      /\ Forall2 (payload_kept fieldName refData (content_bytes c')) records records'.
Proof.
  induction records as [| record rest IH]; intros offsetMap w c L M.
  - exists [], w, c. cbn. repeat split.
    + symmetry. apply insert_id. exact L.
    + exists []. rewrite app_nil_r. reflexivity.
    + constructor.
  - cbn [compact_refs].
    destruct (RefOffsets record !! fieldName) as [offsets |] eqn:RO.
    2: { destruct (IH offsetMap w c L M) as (rs & w' & c' & E & F & More & P).
         exists (record :: rs), w', c'. unfold st_bind, st_ret. rewrite E.
         repeat split; try assumption. constructor; [| exact P].
         unfold payload_kept. rewrite RO. repeat split; reflexivity. }
    destruct (offsetMap !! offsets) as [newOffsets |] eqn:OM.
    { destruct (IH offsetMap w c L M) as (rs & w' & c' & E & F & (more & More) & P).
      eexists (_ :: rs), w', c'. unfold st_bind, st_ret. rewrite E.
      repeat split; try assumption; [exists more; exact More |].
      constructor; [| exact P].
      destruct (M _ _ OM) as (V1 & V2 & S).
      rewrite More. apply payload_kept_app.
      unfold payload_kept. cbn. rewrite RO, V1. repeat split.
      - intros k Ne. apply lookup_insert_ne. congruence.
      - exists newOffsets. rewrite lookup_insert_eq. repeat split; assumption. }
    destruct offsets as [start end_].
    destruct ((start <? 0) || (Z.of_nat (length refData) <? end_) || (end_ <? start))
      eqn:Bad.
    { destruct (IH offsetMap w c L M) as (rs & w' & c' & E & F & More & P).
      exists (record :: rs), w', c'. unfold st_bind, st_ret. rewrite E.
      repeat split; try assumption. constructor; [| exact P].
      unfold payload_kept. rewrite RO. unfold valid_offsets. cbn [fst snd].
      rewrite Bad. cbn. repeat split; reflexivity. }
    assert (valid_offsets refData (start, end_) = true) as V
        by (unfold valid_offsets; cbn [fst snd]; rewrite Bad; reflexivity).
    set (data := take (Z.to_nat (end_ - start)) (drop (Z.to_nat start) refData)).
    set (T := content_bytes c).
    set (new := (Z.of_nat (length T), Z.of_nat (length T) + Z.of_nat (length data))).
    assert (map_kept refData (T ++ data) (<[ (start, end_) := new ]> offsetMap)) as M'.
    { intros old new' Look. destruct (decide ((start, end_) = old)) as [<- | Ne].
      - rewrite lookup_insert_eq in Look. injection Look as <-.
        split; [exact V |]. split.
        + unfold valid_offsets, new. cbn [fst snd]. rewrite length_app.
          destruct (Z.ltb_spec (Z.of_nat (length T)) 0); [lia |].
          destruct (Z.ltb_spec (Z.of_nat (length T + length data))
                      (Z.of_nat (length T) + Z.of_nat (length data))); [lia |].
          destruct (Z.ltb_spec (Z.of_nat (length T) + Z.of_nat (length data))
                      (Z.of_nat (length T))); [lia | reflexivity].
        + unfold new. rewrite ref_slice_appended. reflexivity.
      - rewrite lookup_insert_ne in Look by exact Ne.
        destruct (M _ _ Look) as (V1 & V2 & S). split; [exact V1 |].
        split; [apply valid_offsets_app; exact V2 |].
        rewrite ref_slice_app by exact V2. exact S. }
    unfold st_bind at 1, st_wrap, file_Write. rewrite L.
    set (w1 := set_fs (<[ tempRefPath := File (Raw (content_bytes c ++ data)) ]> (fs w)) w).
    destruct (IH (<[ (start, end_) := new ]> offsetMap) w1 (Raw (T ++ data)))
      as (rs & w' & c' & E & F & (more & More) & P).
    { apply lookup_insert_eq. }
    { exact M'. }
    cbn [content_bytes] in E. rewrite length_app, Nat2Z.inj_add in E.
    eexists (_ :: rs), w', c'. unfold st_bind, st_ret. 
    fold T. fold data. rewrite E.
    split; [reflexivity |]. split.
    { rewrite F. unfold w1. cbn. apply insert_insert_eq. }
    split.
    { exists (data ++ more). rewrite More. cbn. fold T. rewrite app_assoc. reflexivity. }
    constructor; [| exact P].
    rewrite More. apply payload_kept_app.
    unfold payload_kept. cbn. rewrite RO, V. repeat split.
    + intros k Ne. apply lookup_insert_ne. congruence.
    + exists new. rewrite lookup_insert_eq.
      destruct (M' (start, end_) new (lookup_insert_eq _ _ _)) as (_ & V2 & S).
      repeat split; assumption.
Qed.

End Compaction.

Lemma String_length_app (a b : string) :
  String.length (a +:+ b) = (String.length a + String.length b)%nat.
Proof.
  induction a as [| c a IH]; [reflexivity |].
  change (String c a +:+ b) with (String c (a +:+ b)). cbn. rewrite IH. reflexivity.
Qed.

Lemma temp_path_differs (path : string) : path +:+ ".temp" <> path.
Proof.
  intros E. apply (f_equal String.length) in E.
  rewrite String_length_app in E. cbn in E. lia.
Qed.

Section Compaction2.

Context `{GoRuntime}.

(** X11: when the sidecar of a ref field exists and [cleanupRefField]
    succeeds, the sidecar still exists and every record is returned with
    all its parts unchanged but the offsets of that field: offsets that
    addressed bytes of the old sidecar address the same bytes in the new
    one, offsets out of range and records without offsets are left as they
    were. *)
Theorem cleanupRefField_keeps_payloads (db : HTDB) (schema tableName fieldName : string)
    (records records' : list Record_) (w w' : World) (c : content) :
  fs w !! filepath_Join [mainPath db; schema;
                         tableName +:+ "." +:+ fieldName +:+ ".data" +:+ fileEnding]
  = Some (File c) ->
  cleanupRefField db schema tableName fieldName records w = (Ok records', w') ->
  exists c',
    fs w' !! filepath_Join [mainPath db; schema;
                            tableName +:+ "." +:+ fieldName +:+ ".data" +:+ fileEnding]
    = Some (File c')
    /\ Forall2 (payload_kept fieldName (content_bytes c) (content_bytes c'))
         records records'.
Proof.
  unfold cleanupRefField.
  set (path := filepath_Join _). intros L.
  rewrite (os_IsNotExist_present _ _ _ L).
  unfold st_bind at 1, st_wrap at 1, os_ReadFile. rewrite L.
  destruct (bool_decide (usedRanges fieldName records = ∅)).
  { intros [= <- <-]. exists c. split; [exact L |].
    clear. induction records; constructor; [apply payload_kept_refl | assumption]. }
  unfold st_bind at 1, st_wrap at 1.
  destruct (os_Create (path +:+ ".temp") w) as [[[] | e | p] w1] eqn:C; try discriminate.
  assert (fs w1 = <[ path +:+ ".temp" := File (Raw []) ]> (fs w)) as F1.
  { unfold os_Create in C. destruct (fs w !! (path +:+ ".temp")) as [[| ?] |];
      try discriminate; try destruct (path_errno _ _); try discriminate;
      injection C as <-; reflexivity. }
  destruct (compact_refs_keeps_payloads (path +:+ ".temp") fieldName (content_bytes c)
              records ∅ w1 (Raw [])) as (rs & w2 & c' & E & F2 & _ & P).
  { rewrite F1. apply lookup_insert_eq. }
  { intros old new Look. rewrite lookup_empty in Look. discriminate. }
  cbn [content_bytes length] in E. change (Z.of_nat 0) with 0 in E.
  unfold st_bind at 1. rewrite E.
  unfold st_bind, st_wrap, os_Rename, st_ret.
  rewrite F2, lookup_insert_eq.
  rewrite lookup_insert_ne by apply temp_path_differs.
  rewrite F1. rewrite lookup_insert_ne by apply temp_path_differs. rewrite L.
  intros [= <- <-]. exists c'. split; [| exact P].
  cbn. apply lookup_insert_eq.
Qed.

End Compaction2.

(** ** Transactions: the end of a transaction *)

Section Transactions.

Context `{GoRuntime}.

Lemma inactive_decide (tx : Transaction) :
  Status tx <> TransactionActive ->
  negb (bool_decide (Status tx = TransactionActive)) = true.
Proof. intros N. rewrite bool_decide_eq_false_2 by exact N. reflexivity. Qed.

Lemma StageInsert_inactive now table data w tx :
  Status tx <> TransactionActive ->
  StageInsert now table data (w, tx) = (Err "transaction is not active", (w, tx)).
Proof. intros N. unfold StageInsert. rewrite inactive_decide by exact N. reflexivity. Qed.

Lemma StageUpdate_inactive now table updates w tx r :
  Status tx <> TransactionActive ->
  StageUpdate now table updates (w, tx, r) = (Err "transaction is not active", (w, tx, r)).
Proof. intros N. unfold StageUpdate. rewrite inactive_decide by exact N. reflexivity. Qed.

Lemma StageDelete_inactive now table tx r :
  Status tx <> TransactionActive ->
  StageDelete now table (tx, r) = (Err "transaction is not active", (tx, r)).
Proof. intros N. unfold StageDelete. rewrite inactive_decide by exact N. reflexivity. Qed.

Lemma lockRecordInternal_inactive table tx r :
  Status tx <> TransactionActive ->
  lockRecordInternal table (tx, r) = (Err "transaction is not active", (tx, r)).
Proof. intros N. unfold lockRecordInternal. rewrite inactive_decide by exact N. reflexivity. Qed.

Lemma Commit_inactive w tx :
  Status tx <> TransactionActive ->
  Commit (w, tx) = (Err "transaction is not active", (w, tx)).
Proof. intros N. unfold Commit. rewrite inactive_decide by exact N. reflexivity. Qed.

Lemma Rollback_inactive w tx :
  Status tx <> TransactionActive ->
  Rollback (w, tx) = (Err "transaction is not active", (w, tx)).
Proof. intros N. unfold Rollback. rewrite inactive_decide by exact N. reflexivity. Qed.

(** X13: a transaction that is not active refuses every operation with
    "transaction is not active" and changes nothing: [StageInsert],
    [StageUpdate], [StageDelete], [LockRecord], [Commit] and [Rollback]
    return the error with the world, the transaction and the record as
    they were. *)
Theorem finished_transaction_rejects_everything (tx : Transaction) :
  Status tx <> TransactionActive ->
  (forall now table data w,
     StageInsert now table data (w, tx) = (Err "transaction is not active", (w, tx)))
  /\ (forall now table updates w r,
        StageUpdate now table updates (w, tx, r)
        = (Err "transaction is not active", (w, tx, r)))
  /\ (forall now table r,
        StageDelete now table (tx, r) = (Err "transaction is not active", (tx, r)))
  /\ (forall table r,
        LockRecord table (tx, r) = (Err "transaction is not active", (tx, r)))
  /\ (forall w, Commit (w, tx) = (Err "transaction is not active", (w, tx)))
  /\ (forall w, Rollback (w, tx) = (Err "transaction is not active", (w, tx))).
Proof.
  intros N. repeat split; intros.
  - apply StageInsert_inactive, N.
  - apply StageUpdate_inactive, N.
  - apply StageDelete_inactive, N.
  - apply lockRecordInternal_inactive, N.
  - apply Commit_inactive, N.
  - apply Rollback_inactive, N.
Qed.

Lemma commit_table_identity tableName records w tx res w' tx' :
  commit_table tableName records (w, tx) = (res, (w', tx')) -> same_identity tx tx'.
Proof.
  unfold commit_table, same_identity.
  destruct (GetTable _ _ w) as [[t | e | p] w1]; try (intros [= <- <- <-]; tauto).
  destruct (GetAllRecords t w1) as [[rs | e | p] w2]; try (intros [= <- <- <-]; tauto).
  destruct (WriteRecords _ _ w2) as [[u | e | p] w3]; intros [= <- <- <-]; cbn; tauto.
Qed.

Lemma commit_tables_identity staged :
  forall w tx res w' tx',
    commit_tables staged (w, tx) = (res, (w', tx')) -> same_identity tx tx'.
Proof.
  induction staged as [| [tableName records] rest IH]; intros w tx res w' tx'; cbn.
  - intros [= <- <- <-]. unfold same_identity. tauto.
  - unfold st_bind.
    destruct (commit_table tableName records (w, tx)) as [res1 [w1 tx1]] eqn:E1.
    apply commit_table_identity in E1.
    destruct res1 as [u | e | p]; try (intros [= <- <- <-]; exact E1).
    intros E2. apply IH in E2. unfold same_identity in *.
    destruct E1 as (A1 & A2 & A3 & A4), E2 as (B1 & B2 & B3 & B4).
    repeat split; congruence.
Qed.

Lemma rollback_table_identity tableName w tx res w' tx' :
  rollback_table tableName (w, tx) = (res, (w', tx')) -> tx' = tx.
Proof.
  unfold rollback_table.
  destruct (GetTable _ _ w) as [[t | e | p] w1]; try (intros [= <- <- <-]; reflexivity).
  destruct (GetAllRecords t w1) as [[rs | e | p] w2]; try (intros [= <- <- <-]; reflexivity).
  destruct (WriteRecords _ _ w2) as [[u | e | p] w3]; intros [= <- <- <-]; reflexivity.
Qed.

Lemma rollback_tables_identity names :
  forall w tx res w' tx',
    rollback_tables names (w, tx) = (res, (w', tx')) -> tx' = tx.
Proof.
  induction names as [| tableName rest IH]; intros w tx res w' tx'; cbn.
  - intros [= <- <- <-]. reflexivity.
  - unfold st_bind.
    destruct (rollback_table tableName (w, tx)) as [res1 [w1 tx1]] eqn:E1.
    apply rollback_table_identity in E1. subst tx1.
    destruct res1 as [u | e | p]; try (intros [= <- <- <-]; reflexivity).
    apply IH.
Qed.

Lemma Commit_ok w tx w' tx' :
  Commit (w, tx) = (Ok tt, (w', tx')) ->
  Status tx = TransactionActive /\ Status tx' = TransactionCommitted
  /\ TxID tx' = TxID tx.
Proof.
  unfold Commit.
  destruct (bool_decide (Status tx = TransactionActive)) eqn:A; cbn; [| discriminate].
  apply bool_decide_eq_true_1 in A.
  destruct (commit_tables _ (w, tx)) as [res [w1 tx1]] eqn:E.
  apply commit_tables_identity in E. destruct E as (I & _).
  destruct res as [u | e | p]; try discriminate.
  intros [= <- <-]. cbn. repeat split; assumption.
Qed.

Lemma Rollback_ok w tx w' tx' :
  Rollback (w, tx) = (Ok tt, (w', tx')) ->
  Status tx = TransactionActive /\ tx' = set_Status TransactionRolledBack tx.
Proof.
  unfold Rollback.
  destruct (bool_decide (Status tx = TransactionActive)) eqn:A; cbn; [| discriminate].
  apply bool_decide_eq_true_1 in A.
  destruct (rollback_tables _ (w, tx)) as [res [w1 tx1]] eqn:E.
  apply rollback_tables_identity in E. subst tx1.
  destruct res as [u | e | p]; try discriminate.
  intros [= <- <-]. split; [exact A | reflexivity].
Qed.

(** X14: when [Commit] or [Rollback] succeeds, the transaction was active,
    is no longer active and keeps its id, and a second [Commit] or
    [Rollback] fails with "transaction is not active", changing nothing. *)
Theorem Commit_and_Rollback_are_final (w w' : World) (tx tx' : Transaction) :
  Commit (w, tx) = (Ok tt, (w', tx')) \/ Rollback (w, tx) = (Ok tt, (w', tx')) ->
  Status tx = TransactionActive
  /\ Status tx' <> TransactionActive
  /\ TxID tx' = TxID tx
  /\ Commit (w', tx') = (Err "transaction is not active", (w', tx'))
  /\ Rollback (w', tx') = (Err "transaction is not active", (w', tx')).
Proof.
  intros [C | R].
  - apply Commit_ok in C. destruct C as (A & S & I).
    assert (Status tx' <> TransactionActive) as N by (rewrite S; discriminate).
    repeat split; try assumption;
      first [apply Commit_inactive, N | apply Rollback_inactive, N].
  - apply Rollback_ok in R. destruct R as (A & ->).
    assert (Status (set_Status TransactionRolledBack tx) <> TransactionActive) as N
        by (cbn; discriminate).
    repeat split; try assumption.
Qed.

(** X15: when [CommitTransaction] succeeds, the transaction was registered
    with the table manager and is removed from the registry, so that a
    second [CommitTransaction] or a [RollbackTransaction] of it fails with
    "transaction not found", changing nothing. *)
Theorem CommitTransaction_once (w w' : World) (tm tm' : TableManager) (tx tx' : Transaction) :
  CommitTransaction (w, tm, tx) = (Ok tt, (w', tm', tx')) ->
  TxID tx ∈ transactions tm
  /\ transactions tm' = transactions tm ∖ {[ TxID tx ]}
  /\ CommitTransaction (w', tm', tx') = (Err "transaction not found", (w', tm', tx'))
  /\ RollbackTransaction (w', tm', tx') = (Err "transaction not found", (w', tm', tx')).
Proof.
  unfold CommitTransaction at 1.
  destruct (bool_decide (TxID tx ∈ transactions tm)) eqn:In; cbn [negb];
    [| discriminate].
  apply bool_decide_eq_true_1 in In.
  destruct (Commit (w, tx)) as [[[] | e | p] [w1 tx1]] eqn:C; try discriminate.
  apply Commit_ok in C. destruct C as (_ & _ & I).
  intros [= <- <- <-].
  assert (TxID tx1 ∉ transactions tm ∖ {[ TxID tx1 ]}) as Out
      by (rewrite elem_of_difference, elem_of_singleton; tauto).
  split; [exact In |]. split; [cbn; rewrite I; reflexivity |]. split.
  - unfold CommitTransaction. cbn [transactions].
    rewrite bool_decide_eq_false_2 by exact Out. reflexivity.
  - unfold RollbackTransaction. cbn [transactions].
    rewrite bool_decide_eq_false_2 by exact Out. reflexivity.
Qed.

(** X16: two calls of [BeginTransaction] in a row succeed and return two
    active transactions with different ids (the counter wraps at 2^64),
    the first with nothing staged or locked; both are registered, the
    transactions registered before stay registered and no file changes. *)
Theorem BeginTransaction_fresh_ids (w : World) (tm : TableManager) :
  exists tx1 w1 tm1 tx2 w2 tm2,
    BeginTransaction (w, tm) = (Ok tx1, (w1, tm1))
    /\ BeginTransaction (w1, tm1) = (Ok tx2, (w2, tm2))
    /\ TxID tx1 <> TxID tx2
    /\ Status tx1 = TransactionActive /\ Status tx2 = TransactionActive
    /\ StagedRecords tx1 = ∅ /\ LockedRecords tx1 = ∅
    /\ TxID tx1 ∈ transactions tm2 /\ TxID tx2 ∈ transactions tm2
    /\ transactions tm ⊆ transactions tm2
    /\ fs w2 = fs w.
Proof.
  unfold BeginTransaction, NewTransaction. cbn.
  eexists _, _, _, _, _, _. split; [reflexivity |]. split; [reflexivity |]. cbn.
  repeat split; try set_solver.
  unfold to_uint64. intros E.
  set (a := (transactionCounter w + 1) mod 2 ^ 64) in *.
  assert (0 <= a < 2 ^ 64) as R by (apply Z.mod_pos_bound; lia).
  destruct (Z.eq_dec a (2 ^ 64 - 1)) as [-> | Ne].
  - cbn in E. discriminate.
  - rewrite (Z.mod_small (a + 1)) in E by lia. lia.
Qed.

End Transactions.

(** ** The catalog: field lengths, schemas and tables *)

Lemma validateFieldLengths_cons (f : Field) (rest : list Field) :
  validateFieldLengths (f :: rest) = Ok tt
  <-> length_rule f /\ validateFieldLengths rest = Ok tt.
Proof.
  cbn [validateFieldLengths]. unfold length_rule.
  destruct (String.eqb_spec (Type_ f) "ref") as [R | R],
           (N.eqb_spec (Length f) 128) as [L | L],
           (String.eqb_spec (Type_ f) "timeID") as [T | T],
           (N.eqb_spec (Length f) 8) as [L8 | L8];
    cbn [andb negb]; intuition (try discriminate; try congruence).
Qed.

Lemma validateFieldLengths_spec (fields : list Field) :
  validateFieldLengths fields = Ok tt <-> Forall length_rule fields.
Proof.
  induction fields as [| f rest IH].
  - split; [constructor | reflexivity].
  - rewrite validateFieldLengths_cons, IH. split.
    + intros [A B]. constructor; assumption.
    + intros A. apply Forall_cons in A. exact A.
Qed.

Lemma validated_field_is_readable (field : Field) :
  length_rule field ->
  (Type_ field = Int \/ Type_ field = Float -> (8 <= Length field)%N) ->
  readable field = true.
Proof.
  intros [Ref Time] Num. unfold readable.
  destruct (String.eqb (Name field) "id"); [reflexivity |]. cbn [orb].
  destruct (String.eqb_spec (Type_ field) TimeID) as [T | T].
  { cbn [orb]. apply N.leb_le. rewrite (Time T). lia. }
  destruct (String.eqb_spec (Type_ field) Int) as [I | I].
  { cbn [orb]. apply N.leb_le, Num. left. exact I. }
  destruct (String.eqb_spec (Type_ field) Float) as [F | F].
  { cbn [orb]. apply N.leb_le, Num. right. exact F. }
  cbn [orb]. destruct (String.eqb (Type_ field) String_); [reflexivity |].
  destruct (String.eqb_spec (Type_ field) "ref") as [R | R]; [| reflexivity].
  apply N.leb_le. rewrite (Ref R). lia.
Qed.

Lemma validated_fields_are_readable (fields : list Field) :
  Forall length_rule fields ->
  Forall (fun field => Type_ field = Int \/ Type_ field = Float -> (8 <= Length field)%N)
    fields ->
  Forall (fun field => readable field = true) fields.
Proof.
  intros Rules. induction Rules as [| field rest Rule _ IH]; intros Wide; [constructor |].
  apply Forall_cons in Wide. destruct Wide as [W Wide].
  constructor; [apply validated_field_is_readable; assumption | apply IH; exact Wide].
Qed.

(** X17: [validateFieldLengths] accepts a field list exactly when every
    field of type "ref" has length 128 and every field of type "timeID" has
    length 8; the lengths of fields of any other type are not checked. *)
Theorem validateFieldLengths_iff (fields : list Field) :
  validateFieldLengths fields = Ok tt <-> Forall length_rule fields.
Proof. apply validateFieldLengths_spec. Qed.

Lemma String_app_inv_head (a b c : string) : a +:+ b = a +:+ c -> b = c.
Proof.
  induction a as [| x a IH]; [intros E; exact E |].
  change (String x a +:+ b) with (String x (a +:+ b)).
  change (String x a +:+ c) with (String x (a +:+ c)).
  intros [= E]. apply IH, E.
Qed.

Lemma Split_colon_aux_at_colon (cs rest : list ascii) :
  forall cur, ~ In ":"%char cs ->
    Split_colon_aux (cs ++ ":"%char :: rest) cur
    = string_of_list_ascii (rev cur ++ cs) :: Split_colon_aux rest [].
Proof.
  induction cs as [| c cs IH]; intros cur No; cbn.
  - rewrite app_nil_r. reflexivity.
  - destruct (Ascii.eqb_spec c ":"%char) as [-> | Ne].
    + exfalso. apply No. left. reflexivity.
    + rewrite IH by (intros I; apply No; right; exact I).
      cbn. rewrite <- app_assoc. reflexivity.
Qed.

Lemma Split_colon_qualified (schemaName tableName : string) :
  ~ In ":"%char (list_ascii_of_string schemaName) ->
  ~ In ":"%char (list_ascii_of_string tableName) ->
  Split_colon (schemaName +:+ ":" +:+ tableName) = [schemaName; tableName].
Proof.
  intros NoS NoT. unfold Split_colon.
  rewrite !list_ascii_of_string_app. cbn [list_ascii_of_string app].
  rewrite Split_colon_aux_at_colon by exact NoS.
  rewrite Split_colon_aux_no_colon by exact NoT.
  cbn. rewrite !string_of_list_ascii_of_string. reflexivity.
Qed.

Lemma grows_refl w : grows w w.
Proof. intros k E. exact E. Qed.

Lemma grows_trans w1 w2 w3 : grows w1 w2 -> grows w2 w3 -> grows w1 w3.
Proof. intros A B k E. apply B, A, E. Qed.

Lemma grows_insert w path n :
  grows w (set_fs (<[ path := n ]> (fs w)) w).
Proof.
  intros k E. cbn. destruct (decide (path = k)) as [<- | Ne].
  - rewrite lookup_insert_eq. discriminate.
  - rewrite lookup_insert_ne by exact Ne. exact E.
Qed.

Section Catalog.

Context `{GoRuntime}.

Lemma os_Create_ok path w w' :
  os_Create path w = (Ok tt, w') -> w' = set_fs (<[ path := File (Raw []) ]> (fs w)) w.
Proof.
  unfold os_Create. destruct (fs w !! path) as [[| c] |]; try discriminate;
    try destruct (path_errno _ _); try discriminate; intros [= <-]; reflexivity.
Qed.

Lemma os_Create_grows path w res w' : os_Create path w = (res, w') -> grows w w'.
Proof.
  unfold os_Create. destruct (fs w !! path) as [[| c] |];
    try (intros [= <- <-]; apply grows_refl);
    try destruct (path_errno _ _); intros [= <- <-];
    first [apply grows_refl | apply grows_insert].
Qed.

Lemma create_ref_files_grows schemaPath name fields :
  forall w res w', create_ref_files schemaPath name fields w = (res, w') -> grows w w'.
Proof.
  induction fields as [| field rest IH]; intros w res w'; cbn.
  - intros [= <- <-]. apply grows_refl.
  - destruct (String.eqb (Type_ field) "ref"); [| apply IH].
    destruct (os_Create _ w) as [[u | e | p] w1] eqn:C; apply os_Create_grows in C.
    + intros E. apply IH in E. eapply grows_trans; eassumption.
    + intros [= <- <-]. exact C.
    + intros [= <- <-]. exact C.
Qed.

(** The table file survives the creation of the ref files. *)

Lemma create_ref_files_keeps_table schemaPath name fields :
  forall w res w',
    create_ref_files schemaPath name fields w = (res, w') ->
    fs w' !! (schemaPath +:+ "/" +:+ name +:+ fileEnding)
    = fs w !! (schemaPath +:+ "/" +:+ name +:+ fileEnding).
Proof.
  induction fields as [| field rest IH]; intros w res w'; cbn.
  - intros [= <- <-]. reflexivity.
  - destruct (String.eqb (Type_ field) "ref"); [| apply IH].
    assert (refFilePath_of schemaPath name (Name field)
            <> schemaPath +:+ "/" +:+ name +:+ fileEnding) as Ne.
    { unfold refFilePath_of. intros E.
      do 3 apply String_app_inv_head in E.
      apply (f_equal String.length) in E. rewrite !String_length_app in E.
      cbn in E. lia. }
    assert (forall w1 r1, os_Create (refFilePath_of schemaPath name (Name field)) w = (r1, w1) ->
              fs w1 !! (schemaPath +:+ "/" +:+ name +:+ fileEnding)
              = fs w !! (schemaPath +:+ "/" +:+ name +:+ fileEnding)) as Keep.
    { intros w1 r1. unfold os_Create.
      destruct (fs w !! refFilePath_of _ _ _) as [[| c] |];
        try (intros [= <- <-]; reflexivity);
        try destruct (path_errno _ _); intros [= <- <-]; try reflexivity;
        cbn; apply lookup_insert_ne; exact Ne. }
    destruct (os_Create _ w) as [[u | e | p] w1]; specialize (Keep _ _ eq_refl).
    + intros E. apply IH in E. congruence.
    + intros [= <- <-]. exact Keep.
    + intros [= <- <-]. exact Keep.
Qed.

Lemma GetTable_world tableName mainPath w res w' :
  GetTable tableName mainPath w = (res, w') -> w' = w.
Proof.
  unfold GetTable.
  destruct (match Split_colon tableName with
            | p0 :: p1 :: _ => (p0, p1)
            | _ => ("testSchema", tableName)
            end) as [schemaName tableNameOnly].
  destruct (os_IsNotExist w _); [intros [= <- <-]; reflexivity |].
  destruct (os_IsNotExist w _); [intros [= <- <-]; reflexivity |].
  unfold st_bind, st_wrap, st_lift, st_ret, os_ReadFile.
  destruct (fs w !! _) as [[| c] |]; try (intros [= <- <-]; reflexivity).
  destruct (decode_json c); intros [= <- <-]; reflexivity.
Qed.

(** X19: when [CreateSchema] succeeds, the schema directory did not exist
    and exists afterwards, the schema returned is the one [Schema] then
    finds by its name, and a second [CreateSchema] of that name fails with
    the already-exists error. *)
Theorem CreateSchema_then_Schema (db : HTDB) (name : string) (w w' : World) (s : Schema) :
  CreateSchema db name w = (Ok s, w') ->
  s = mkSchema name (mainPath db +:+ "/" +:+ name)
  /\ fs w !! (mainPath db +:+ "/" +:+ name) = None
  /\ fs w' !! (mainPath db +:+ "/" +:+ name) = Some Dir
  /\ Schema_ db name w' = (Ok s, w')
  /\ CreateSchema db name w'
     = (Err ("Schema " +:+ name +:+ " already exists"), w').
Proof.
  unfold CreateSchema.
  set (path := mainPath db +:+ "/" +:+ name).
  destruct (os_IsNotExist w path) eqn:Missing; [| discriminate].
  pose proof (os_IsNotExist_absent _ _ Missing) as Absent.
  unfold st_bind, st_ret, os_Mkdir. rewrite Absent.
  destruct (path_errno (fs w) path); [discriminate |].
  destruct (os_Create _ _) as [[[] | e | p] w2] eqn:C; try discriminate.
  apply os_Create_ok in C.
  intros [= <- <-].
  assert (fs w2 !! path = Some Dir) as Present.
  { subst w2. cbn. rewrite lookup_insert_ne.
    - apply lookup_insert_eq.
    - intros E. apply (f_equal String.length) in E.
      rewrite !String_length_app in E. cbn in E. lia. }
  split; [reflexivity |]. split; [first [exact Absent | reflexivity] |].
  split; [exact Present |].
  unfold Schema_, os_Stat. fold path. rewrite Present.
  split; [reflexivity |].
  rewrite (os_IsNotExist_present _ _ _ Present). reflexivity.
Qed.

End Catalog.

Section Catalog2.

Context `{GoRuntime}.

Lemma os_WriteFile_ok path c w w' :
  os_WriteFile path c w = (Ok tt, w') -> w' = set_fs (<[ path := File c ]> (fs w)) w.
Proof.
  unfold os_WriteFile. destruct (fs w !! path) as [[| c0] |]; try discriminate;
    try destruct (path_errno _ _); try discriminate; intros [= <-]; reflexivity.
Qed.

Lemma conf_path_differs (schemaPath name : string) :
  schemaPath +:+ "/" +:+ name +:+ ".conf" +:+ fileEnding
  <> schemaPath +:+ "/" +:+ name +:+ fileEnding.
Proof.
  intros E. do 3 apply String_app_inv_head in E. vm_compute in E. discriminate E.
Qed.

Lemma Schema_CreateTable_created (s : Schema) (name : string) (fields : list Field)
    (w w' : World) (resp : Response) :
  Schema_CreateTable s name fields w = (Ok resp, w') ->
  StatusCode resp < 400 ->
  fs w !! (schemaPath s +:+ "/" +:+ name +:+ fileEnding) = None
  /\ validateFieldLengths (timePKField :: fields) = Ok tt
  /\ fs w' !! (schemaPath s +:+ "/" +:+ name +:+ ".conf" +:+ fileEnding)
     = Some (File (Json (mkTable name (timePKField :: fields) (schemaPath s))))
  /\ fs w' !! (schemaPath s +:+ "/" +:+ name +:+ fileEnding) = Some (File (Raw []))
  /\ grows w w'.
Proof.
  unfold Schema_CreateTable.
  set (pathTable := schemaPath s +:+ "/" +:+ name +:+ fileEnding).
  set (pathConf := schemaPath s +:+ "/" +:+ name +:+ ".conf" +:+ fileEnding).
  destruct (os_IsNotExist w (schemaPath s));
    [intros [= <- <-] Lt; cbn in Lt; lia |].
  destruct (os_IsNotExist w pathTable) eqn:T; cbn [negb];
    [| intros [= <- <-] Lt; cbn in Lt; lia].
  apply os_IsNotExist_absent in T.
  destruct (String.eqb name EmptyString); [intros [= <- <-] Lt; cbn in Lt; lia |].
  destruct (starts_with_dot name); [intros [= <- <-] Lt; cbn in Lt; lia |].
  destruct (String.eqb name "index"); [intros [= <- <-] Lt; cbn in Lt; lia |].
  destruct (validateFieldLengths (timePKField :: fields)) as [[] | e | p] eqn:V;
    try (intros [= <- <-] Lt; cbn in Lt; lia); try discriminate.
  destruct (os_Create pathTable w) as [[[] | e | p] w1] eqn:C1;
    try (intros [= <- <-] Lt; cbn in Lt; lia); try discriminate.
  destruct (create_ref_files (schemaPath s) name (timePKField :: fields) w1)
    as [[[r |] | e | p] w2] eqn:C2;
    try (intros [= <- <-] Lt; cbn in Lt; lia); try discriminate.
  { intros [= <- <-] Lt. exfalso. revert C2 Lt. clear.
    generalize (timePKField :: fields) w1. intros l.
    induction l as [| field rest IH]; intros w0; cbn; [discriminate |].
    destruct (String.eqb (Type_ field) "ref"); [| apply IH].
    destruct (os_Create _ w0) as [[u | e | p] w3]; try discriminate; [apply IH |].
    intros [= <- <-]. cbn. lia. }
  destruct (os_Create pathConf w2) as [[[] | e | p] w3] eqn:C3;
    try (intros [= <- <-] Lt; cbn in Lt; lia); try discriminate.
  destruct (os_WriteFile pathConf _ w3) as [[[] | e | p] w4] eqn:C4;
    try (intros [= <- <-] Lt; cbn in Lt; lia); try discriminate.
  intros [= <- <-] _.
  pose proof (os_Create_grows _ _ _ _ C1) as G1.
  pose proof (create_ref_files_grows _ _ _ _ _ _ C2) as G2.
  pose proof (os_Create_grows _ _ _ _ C3) as G3.
  pose proof (create_ref_files_keeps_table _ _ _ _ _ _ C2) as K2.
  apply os_Create_ok in C1, C3. apply os_WriteFile_ok in C4.
  fold pathTable in K2.
  split; [exact T |]. split; [reflexivity |].
  subst w4. cbn. split; [apply lookup_insert_eq |]. split.
  - rewrite lookup_insert_ne by apply conf_path_differs.
    subst w3. cbn. rewrite lookup_insert_ne by apply conf_path_differs.
    rewrite K2. subst w1. cbn. apply lookup_insert_eq.
  - eapply grows_trans; [exact G1 |]. eapply grows_trans; [exact G2 |].
    eapply grows_trans; [exact G3 |]. apply grows_insert.
Qed.

Lemma json_strings_utf8 (l : list string) :
  Forall utf8 l -> json_string <$> l = l.
Proof.
  induction 1 as [| x xs X _ IH]; [reflexivity |].
  cbn [fmap list_fmap]. f_equal; [exact X | exact IH].
Qed.

Lemma json_Field_utf8 (fields : list Field) :
  Forall utf8_field fields -> json_Field <$> fields = fields.
Proof.
  induction 1 as [| field rest (N & T & C) _ IH]; [reflexivity |].
  cbn [fmap list_fmap]. f_equal; [| exact IH].
  destruct field as [n t l c]. unfold json_Field. cbn [Name Type_ Length Constraints] in *.
  rewrite (json_strings_utf8 _ C). unfold utf8 in N, T. rewrite N, T. reflexivity.
Qed.

(** X20: when the schema and table names hold no colon, the table name
    and the texts of the fields are valid UTF-8 and the table manager's
    [CreateTable] succeeds, the table returned has the id field in front
    of the fields given and the schema directory as its path; its fields
    pass [validateFieldLengths]; the manager is unchanged; [GetTable] of
    the same names then returns the same table, which reads as empty; and
    its fields are wide enough for their types when every int and float
    field given has a length of at least 8. *)
Theorem CreateTable_then_GetTable (schemaName tableName : string) (fields : list Field)
    (w w' : World) (tm tm' : TableManager) (table : Table) :
  ~ In ":"%char (list_ascii_of_string schemaName) ->
  ~ In ":"%char (list_ascii_of_string tableName) ->
  utf8 tableName -> Forall utf8_field fields ->
  CreateTable schemaName tableName fields (w, tm) = (Ok table, (w', tm')) ->
  table = mkTable tableName (timePKField :: fields)
            (mainPath (tm_db tm) +:+ "/" +:+ schemaName)
  /\ tm' = tm
  /\ validateFieldLengths (timePKField :: fields) = Ok tt
  /\ TableManager_GetTable tm schemaName tableName w' = (Ok table, w')
  /\ GetAllRecords table w' = (Ok [], w')
  /\ (Forall (fun field => Type_ field = Int \/ Type_ field = Float ->
                           (8 <= Length field)%N) fields ->
      Forall (fun field => readable field = true) (Fields table)).
Proof.
  intros NoS NoT Name8 Fields8. unfold CreateTable, TableManager_GetTable.
  destruct (Schema_ (tm_db tm) schemaName w) as [[s | e | p] w0] eqn:S; try discriminate.
  assert (s = mkSchema schemaName (mainPath (tm_db tm) +:+ "/" +:+ schemaName) /\ w0 = w
          /\ fs w !! (mainPath (tm_db tm) +:+ "/" +:+ schemaName) <> None)
    as (-> & -> & SP).
  { unfold Schema_, os_Stat in S. destruct (fs w !! _); [| discriminate].
    injection S as <- <-. repeat split. discriminate. }
  destruct (Schema_CreateTable _ tableName fields w) as [[resp | e | p] w1] eqn:C;
    try discriminate.
  destruct (Z.leb_spec 400 (StatusCode resp)) as [Bad | Good]; [discriminate |].
  apply Schema_CreateTable_created in C; [| exact Good].
  cbn [schemaPath] in C. destruct C as (_ & V & Conf & Tab & G).
  assert (GetTable (schemaName +:+ ":" +:+ tableName) (mainPath (tm_db tm)) w1
          = (Ok (mkTable tableName (timePKField :: fields)
                   (mainPath (tm_db tm) +:+ "/" +:+ schemaName)), w1)) as GT.
  { unfold GetTable. rewrite (Split_colon_qualified _ _ NoS NoT).
    rewrite os_IsNotExist_there by (apply G, SP).
    rewrite (os_IsNotExist_present _ _ _ Conf).
    unfold st_bind, st_wrap, st_lift, st_ret, os_ReadFile. rewrite Conf.
    cbn [decode_json json_Table TableName Fields fmap list_fmap].
    change (list_fmap Field Field json_Field fields) with (json_Field <$> fields).
    rewrite (json_Field_utf8 _ Fields8), Name8. reflexivity. }
  rewrite GT. intros [= <- <- <-].
  split; [reflexivity |]. split; [reflexivity |]. split; [exact V |].
  split; [exact GT |]. split.
  - unfold GetAllRecords. cbn [SchemaPath TableName Fields].
    rewrite (os_IsNotExist_present _ _ _ Tab).
    unfold st_bind, st_wrap, st_lift, os_ReadFile. rewrite Tab. reflexivity.
  - intros Wide. cbn [Fields]. apply validated_fields_are_readable.
    + apply validateFieldLengths_spec. exact V.
    + constructor; [| exact Wide]. intros [E | E]; discriminate E.
Qed.

End Catalog2.

Lemma validateFieldLengths_no_panic (fields : list Field) (p : string) :
  validateFieldLengths fields <> Panic p.
Proof.
  induction fields as [| f rest IH]; cbn [validateFieldLengths]; [discriminate |].
  destruct (_ && _); [discriminate |]. destruct (_ && _); [discriminate | exact IH].
Qed.

Section Refusal.

Context `{GoRuntime}.

Lemma create_ref_files_status (schemaPath name : string) (fields : list Field) :
  forall (w w' : World) (resp : Response),
    create_ref_files schemaPath name fields w = (Ok (Some resp), w') ->
    StatusCode resp = 500.
Proof.
  induction fields as [| field rest IH]; intros w w' resp; cbn [create_ref_files];
    [discriminate |].
  destruct (String.eqb (Type_ field) "ref"); [| apply IH].
  destruct (os_Create _ w) as [[u | e | p] w1]; try discriminate; [apply IH |].
  intros [= <- <-]. reflexivity.
Qed.

(** X18: [Schema.CreateTable] answers with the status 406, leaving the
    world unchanged, exactly when [os.Stat] reports the schema directory
    missing, when it does not report the table file missing (the file is
    there already, or its path cannot be looked up: a directory on it is a
    regular file, a name is too long), when the name is empty, starts with
    a dot or is "index", or when [validateFieldLengths] rejects the fields
    (with the id field put in front). *)
Theorem Schema_CreateTable_refuses_iff (s : Schema) (name : string) (fields : list Field)
    (w : World) :
  refused s name fields w
  <-> exists message,
        Schema_CreateTable s name fields w = (Ok (mkResponse 406 message), w).
Proof.
  unfold refused, Schema_CreateTable, os_IsNotExist.
  set (pathTable := schemaPath s +:+ "/" +:+ name +:+ fileEnding).
  destruct (decide (os_Stat w (schemaPath s) = Some ENOENT)) as [S | S].
  { rewrite bool_decide_eq_true_2 by exact S. split; [eexists; reflexivity | tauto]. }
  rewrite bool_decide_eq_false_2 by exact S.
  destruct (decide (os_Stat w pathTable = Some ENOENT)) as [T | T].
  2:{ rewrite bool_decide_eq_false_2 by exact T. cbn [negb].
      split; [eexists; reflexivity | tauto]. }
  rewrite bool_decide_eq_true_2 by exact T. cbn [negb].
  destruct (String.eqb_spec name EmptyString) as [E | E];
    [split; [eexists; reflexivity | tauto] |].
  destruct (starts_with_dot name) eqn:D; [split; [eexists; reflexivity | tauto] |].
  destruct (String.eqb_spec name "index") as [I | I];
    [split; [eexists; reflexivity | tauto] |].
  pose proof (validateFieldLengths_spec (timePKField :: fields)) as V.
  destruct (validateFieldLengths (timePKField :: fields)) as [[] | e | p] eqn:VE.
  - assert (Forall length_rule (timePKField :: fields)) as Good by (apply V; reflexivity).
    split; [intros [A | [A | [A | [A | [A | A]]]]]; try contradiction; discriminate A |].
    intros [message Bad]. exfalso. revert Bad.
    destruct (os_Create pathTable w) as [[[] | e | p] w1]; try discriminate.
    destruct (create_ref_files _ _ _ w1) as [[[resp |] | e | p] w2] eqn:C; try discriminate.
    { apply create_ref_files_status in C. intros [= -> _]. discriminate C. }
    destruct (os_Create _ w2) as [[[] | e | p] w3]; try discriminate.
    destruct (os_WriteFile _ _ w3) as [[[] | e | p] w4]; discriminate.
  - split; [intros _; eexists; reflexivity |].
    intros _. do 5 right. intros Good. apply V in Good. discriminate Good.
  - exfalso. exact (validateFieldLengths_no_panic _ _ VE).
Qed.

End Refusal.

(** ** Queries: what [GetAll] returns *)

Lemma sink_Permutation {A : Type} (lt : A -> A -> bool) (x : A) (before : list A) :
  sink lt x before ≡ₚ x :: before.
Proof.
  induction before as [| y rest IH]; cbn; [reflexivity |].
  destruct (lt x y); [| reflexivity].
  rewrite IH. apply Permutation_swap.
Qed.

Lemma sort_Slice_Permutation {A : Type} (lt : A -> A -> bool) (data : list A) :
  sort_Slice lt data ≡ₚ data.
Proof.
  unfold sort_Slice. rewrite <- Permutation_rev.
  assert (forall acc, fold_left (fun before x => sink lt x before) data acc ≡ₚ data ++ acc)
    as Fold.
  { induction data as [| x rest IH]; intros acc; cbn; [reflexivity |].
    rewrite IH, sink_Permutation. symmetry. apply Permutation_middle. }
  rewrite Fold, app_nil_r. reflexivity.
Qed.

Lemma List_filter_filter {A : Type} (f g : A -> bool) (l : list A) :
  List.filter f (List.filter g l) = List.filter (fun x => g x && f x) l.
Proof.
  induction l as [| x rest IH]; cbn; [reflexivity |].
  destruct (g x); cbn; [destruct (f x) |]; rewrite IH; reflexivity.
Qed.

Lemma List_filter_ext_all {A : Type} (f : A -> bool) (l : list A) :
  (forall x, f x = true) -> List.filter f l = l.
Proof.
  intros All. induction l as [| x rest IH]; cbn; [reflexivity |].
  rewrite All, IH. reflexivity.
Qed.

Section QueryFacts.

Context `{GoRuntime}.

(** X21: when [GetAllRecords] succeeds on the table of a query (and, if
    the query sorts, returns at most 12 records, the lists the embedded
    sort covers), [GetAll] succeeds without changing the world and returns
    a permutation of the records that are current, not deleted and meet
    every condition, cut to its first [limitCount] records when
    [limitCount] is positive; a limit of zero or below cuts nothing, and
    without a sort field the records keep the order of the file. *)
Theorem GetAll_selects (q : Query) (w w' : World) (records : list Record_) :
  GetAllRecords (table q) w = (Ok records, w') ->
  sortField q = EmptyString \/ (length records <= 12)%nat ->
  exists sorted : list Record_,
    GetAll q w
    = (Ok (if 0 <? limitCount q then take (Z.to_nat (limitCount q)) sorted else sorted), w')
    /\ sorted ≡ₚ List.filter (selected q) records
    /\ (sortField q = EmptyString -> sorted = List.filter (selected q) records).
Proof.
  intros Read _. unfold GetAll, st_bind. rewrite Read.
  assert ((if (0 <? length (conditions q))%nat
           then List.filter (fun record => matchesConditions record (conditions q))
                  (List.filter is_current records)
           else List.filter is_current records)
          = List.filter (selected q) records) as ->.
  { unfold selected. destruct (conditions q) as [| c cs] eqn:C; cbn [length Nat.ltb Nat.leb].
    - cbn. apply filter_ext. intros r. rewrite andb_true_r. reflexivity.
    - apply List_filter_filter. }
  set (chosen := List.filter (selected q) records).
  set (sorted := if negb (String.eqb (sortField q) EmptyString)
                 then sortRecords chosen (sortField q) (sortAscending q) else chosen).
  exists sorted. split; [| split].
  - destruct (0 <? limitCount q) eqn:Pos; cbn [andb]; [| reflexivity].
    destruct (limitCount q <? Z.of_nat (length sorted)) eqn:Lt; [reflexivity |].
    unfold st_ret. rewrite firstn_all2; [reflexivity |].
    apply Z.ltb_ge in Lt. lia.
  - subst sorted. destruct (negb _); [apply sort_Slice_Permutation | reflexivity].
  - intros E. subst sorted. rewrite E. reflexivity.
Qed.

End QueryFacts.

Lemma Deserialize_fields_int64_column (data : bslice) (name : string) (fields : list Field) :
  int64_column fields name = true ->
  forall (record r : Record_) (offset : Z),
    int64_or_absent (FieldsData record !! name) = true ->
    Deserialize_fields data fields record offset = Ok r ->
    int64_or_absent (FieldsData r !! name) = true.
Proof.
  induction fields as [| field rest IH]; intros Col record r offset Inv.
  - intros [= <-]. exact Inv.
  - cbn in Col. apply andb_prop in Col as [Here Rest]. specialize (IH Rest).
    cbn [Deserialize_fields].
    destruct (String.eqb_spec (Name field) "id") as [Id | NotId].
    + apply IH. cbn.
      destruct (String.eqb_spec "id" name) as [<- | Ne].
      * rewrite lookup_insert_eq. reflexivity.
      * rewrite lookup_insert_ne by exact Ne. exact Inv.
    + destruct (sl_index data offset) as [b | |]; cbn [mbind result_bind]; try discriminate.
      destruct (b =? 1); [apply IH; exact Inv |].
      rewrite orb_false_r in Here.
      destruct (String.eqb (Type_ field) TimeID || String.eqb (Type_ field) Int) eqn:TInt.
      { destruct (sl_slice _ _ _) as [cell | |]; cbn [mbind result_bind]; try discriminate.
        destruct (Uint64 cell) as [bits | |]; cbn [mbind result_bind]; try discriminate.
        apply IH. cbn.
        destruct (String.eqb_spec (Name field) name) as [<- | Ne].
        - rewrite lookup_insert_eq. reflexivity.
        - rewrite lookup_insert_ne by exact Ne. exact Inv. }
      destruct (String.eqb (Type_ field) Float) eqn:TFloat.
      { destruct (sl_slice _ _ _) as [cell | |]; cbn [mbind result_bind]; try discriminate.
        destruct (Uint64 cell) as [bits | |]; cbn [mbind result_bind]; try discriminate.
        apply IH. cbn.
        destruct (String.eqb_spec (Name field) name) as [E | Ne]; [discriminate Here |].
        rewrite lookup_insert_ne by exact Ne. exact Inv. }
      destruct (String.eqb (Type_ field) String_) eqn:TString.
      { destruct (sl_slice _ _ _) as [cell | |]; cbn [mbind result_bind]; try discriminate.
        apply IH. cbn.
        destruct (String.eqb_spec (Name field) name) as [E | Ne]; [discriminate Here |].
        rewrite lookup_insert_ne by exact Ne. exact Inv. }
      destruct (String.eqb (Type_ field) "ref").
      { destruct (sl_slice data (offset + 1) (offset + 1 + 8)) as [cell | |];
          cbn [mbind result_bind]; try discriminate.
        destruct (Uint64 cell) as [start | |]; cbn [mbind result_bind]; try discriminate.
        destruct (sl_slice _ _ _) as [cell2 | |]; cbn [mbind result_bind]; try discriminate.
        destruct (Uint64 cell2) as [end_ | |]; cbn [mbind result_bind]; try discriminate.
        apply IH. exact Inv. }
      cbn [mbind result_bind]. apply IH. exact Inv.
Qed.

Lemma DeserializeRecord_int64_column (data : bslice) (name : string) (fields : list Field)
    (r : Record_) :
  int64_column fields name = true ->
  DeserializeRecord data fields = Ok r ->
  int64_or_absent (FieldsData r !! name) = true.
Proof.
  intros Col. unfold DeserializeRecord.
  destruct (sl_len data <? 12); [discriminate |].
  destruct (sl_slice data 0 8) as [c1 | |]; cbn [mbind result_bind]; try discriminate.
  destruct (Uint64 c1) as [id | |]; cbn [mbind result_bind]; try discriminate.
  destruct (sl_index data 8) as [mb | |]; cbn [mbind result_bind]; try discriminate.
  destruct (sl_slice data 9 11) as [c2 | |]; cbn [mbind result_bind]; try discriminate.
  destruct (Uint16 c2) as [lo | |]; cbn [mbind result_bind]; try discriminate.
  destruct (sl_index data 11) as [hi | |]; cbn [mbind result_bind]; try discriminate.
  apply (Deserialize_fields_int64_column data name fields Col). reflexivity.
Qed.

Lemma parse_records_Forall (P : Record_ -> Prop) (data : list Z) (fields : list Field)
    (recordSize : Z) :
  (forall slice r, DeserializeRecord slice fields = Ok r -> P r) ->
  forall (count : nat) (i : Z) (records : list Record_),
    parse_records data fields recordSize i count = Ok records -> Forall P records.
Proof.
  intros Each. induction count as [| k IH]; intros i records; cbn [parse_records].
  - intros [= <-]. constructor.
  - destruct (negb _); [intros [= <-]; constructor |].
    destruct (_ <? _); [intros [= <-]; constructor |].
    destruct (sl_slice _ _ _) as [recordData | |]; cbn [mbind result_bind];
      try discriminate.
    destruct (DeserializeRecord recordData fields) as [r | e | p] eqn:D;
      cbn [mbind result_bind]; try discriminate.
    destruct (parse_records data fields recordSize (i + recordSize) k) as [rs | |] eqn:Rest;
      cbn [mbind result_bind]; try discriminate.
    intros [= <-]. constructor; [eapply Each; exact D | eapply IH; exact Rest].
Qed.

Lemma int64_never_compares (record : Record_) (condition : FilterCondition) :
  int64_or_absent (FieldsData record !! Field_ condition) = true ->
  Operator condition <> "!="%string ->
  matchesCondition record condition = false.
Proof.
  intros Kind Op. unfold matchesCondition.
  destruct (FieldsData record !! Field_ condition) as [[| | n | | |] |];
    try discriminate Kind; [| reflexivity].
  cbn zeta. destruct (String.eqb (Operator condition) "="); [reflexivity |].
  destruct (String.eqb_spec (Operator condition) "!="); [contradiction |].
  repeat (match goal with |- context [if ?b then _ else _] => destruct b end;
          try reflexivity).
Qed.

Section QueryFacts2.

Context `{GoRuntime}.

Lemma GetAllRecords_Forall (P : Record_ -> Prop) (t : Table) (w w' : World)
    (records : list Record_) :
  (forall slice r, DeserializeRecord slice (Fields t) = Ok r -> P r) ->
  GetAllRecords t w = (Ok records, w') -> Forall P records /\ w' = w.
Proof.
  intros Each. unfold GetAllRecords.
  destruct (os_IsNotExist w _); [intros [= <- <-]; split; [constructor | reflexivity] |].
  unfold st_bind, st_wrap, st_lift, os_ReadFile.
  destruct (fs w !! _) as [[| c] |]; try discriminate.
  destruct (parse_records _ _ _ _ _) as [rs | |] eqn:Parse; try discriminate.
  intros [= <- <-]. split; [| reflexivity].
  eapply parse_records_Forall; [exact Each | exact Parse].
Qed.

(** X22: when [GetAllRecords] succeeds on the table of a query and the
    query has a condition, with an operator other than "!=", on a field
    that decoding never returns as a float or a string (the id, an int or
    timeID field, or a name the table does not have), [GetAll] returns no
    record at all, whatever the table holds and whatever value the
    condition compares with. *)
Theorem GetAll_int64_column_matches_nothing (q : Query) (w w' : World)
    (records : list Record_) (condition : FilterCondition) :
  GetAllRecords (table q) w = (Ok records, w') ->
  In condition (conditions q) ->
  int64_column (Fields (table q)) (Field_ condition) = true ->
  Operator condition <> "!="%string ->
  GetAll q w = (Ok [], w').
Proof.
  intros Read Cond Col Op.
  pose proof (GetAllRecords_Forall
                (fun r => int64_or_absent (FieldsData r !! Field_ condition) = true)
                _ _ _ _
                (fun slice r D => DeserializeRecord_int64_column slice _ _ r Col D) Read)
    as [Kinds _].
  unfold GetAll, st_bind. rewrite Read.
  destruct (conditions q) as [| c cs] eqn:C; [destruct Cond |].
  rewrite <- C in *. replace (0 <? length (conditions q))%nat with true
    by (rewrite C; reflexivity).
  assert (List.filter (fun record => matchesConditions record (conditions q))
            (List.filter is_current records) = []) as ->.
  { rewrite List_filter_filter. clear Read.
    induction Kinds as [| r rest Kind _ IH]; [reflexivity |]. cbn.
    replace (matchesConditions r (conditions q)) with false; [rewrite andb_false_r; exact IH |].
    symmetry. unfold matchesConditions. apply not_true_is_false. intros All.
    rewrite forallb_forall in All. specialize (All _ Cond).
    rewrite (int64_never_compares r condition Kind Op) in All. discriminate All. }
  assert (sortRecords [] (sortField q) (sortAscending q) = []) as Sorted by reflexivity.
  destruct (negb _); rewrite ?Sorted; cbn [length];
    destruct ((0 <? limitCount q) && (limitCount q <? Z.of_nat 0));
    try rewrite take_nil; reflexivity.
Qed.

End QueryFacts2.

(** ** Table files: what is written is what is read *)

Lemma take_drop_within {A : Type} (l1 l2 : list A) (n o k : nat) :
  take n l1 = take n l2 -> (o + k <= n)%nat ->
  take k (drop o l1) = take k (drop o l2).
Proof.
  intros E Le. rewrite !take_drop_commute.
  rewrite <- (Nat.min_l (o + k) n Le), <- !take_take, E. reflexivity.
Qed.

Lemma nth_within {A : Type} (l1 l2 : list A) (n o : nat) (d : A) :
  take n l1 = take n l2 -> (o < n)%nat -> nth o l1 d = nth o l2 d.
Proof.
  intros E Lt.
  assert (forall (l : list A) (i : nat), nth i l d = nth O (take 1 (drop i l)) d) as Nth.
  { clear. induction l as [| x l IH]; intros [| i]; try reflexivity. cbn. apply IH. }
  rewrite (Nth l1), (Nth l2), (take_drop_within l1 l2 n o 1 E) by lia. reflexivity.
Qed.

Lemma Deserialize_fields_local (fields : list Field) :
  forall (n : Z) (data1 data2 : bslice) (record : Record_) (offset : Z),
    same_prefix n data1 data2 ->
    0 <= offset -> offset + fieldsSize fields = n ->
    Forall (fun field => readable field = true) fields ->
    Exact.Deserialize_fields data1 fields record offset
    = Exact.Deserialize_fields data2 fields record offset.
Proof.
  induction fields as [| field rest IH];
    intros n data1 data2 record offset Same Pos Size All; cbn [Exact.Deserialize_fields];
    [reflexivity |].
  apply Forall_cons in All. destruct All as [R All].
  rewrite fieldsSize_cons in Size. pose proof (fieldsSize_nonneg rest) as NN.
  unfold readable in R.
  destruct (String.eqb (Name field) "id").
  { apply (IH n); try assumption; lia. }
  cbn in R.
  assert (forall record',
             Exact.Deserialize_fields data1 rest record' (offset + 1 + Z.of_N (Length field))
             = Exact.Deserialize_fields data2 rest record' (offset + 1 + Z.of_N (Length field)))
    as Tail.
  { intros record'. apply (IH n); try assumption; lia. }
  destruct Same as (L1 & L2 & C1 & C2 & E).
  assert (forall o k, 0 <= o -> 0 <= k -> o + k <= n ->
            take (Z.to_nat k) (drop (Z.to_nat o) (sl_arr data1))
            = take (Z.to_nat k) (drop (Z.to_nat o) (sl_arr data2))) as Cell.
  { intros o k Po Pk Le. apply (take_drop_within _ _ (Z.to_nat n)); [exact E | lia]. }
  rewrite !sl_index_ok by lia. cbn [mbind result_bind].
  rewrite (nth_within _ _ (Z.to_nat n) (Z.to_nat offset) 0 E) by lia.
  destruct (_ =? 1); [apply Tail |].
  destruct (String.eqb (Type_ field) TimeID), (String.eqb (Type_ field) Int),
    (String.eqb (Type_ field) Float), (String.eqb (Type_ field) String_),
    (String.eqb (Type_ field) "ref"); cbn [orb] in R |- *;
    try apply N.leb_le in R;
    rewrite ?sl_slice_ok by lia; cbn [mbind result_bind];
    rewrite ?Uint64_ok by (cbn; lia); cbn [mbind result_bind];
    rewrite ?sl_slice_ok by lia; cbn [mbind result_bind];
    rewrite ?Uint64_ok by (cbn; lia); cbn [mbind result_bind];
    unfold sl_string; cbn [sl_arr sl_len];
    try change 8%nat with (Z.to_nat 8);
    rewrite ?(Cell (offset + 1) 8), ?(Cell (offset + 1 + 8) 8),
      ?(Cell (offset + 1) (offset + 1 + Z.of_N (Length field) - (offset + 1))) by lia;
    apply Tail.
Qed.

Lemma DeserializeRecord_local (fields : list Field) (data1 data2 : bslice) :
  same_prefix (fieldsSize fields + 12) data1 data2 ->
  Forall (fun field => readable field = true) fields ->
  Exact.DeserializeRecord data1 fields = Exact.DeserializeRecord data2 fields.
Proof.
  intros Same All. pose proof (fieldsSize_nonneg fields) as NN.
  pose proof Same as (L1 & L2 & C1 & C2 & E).
  assert (forall o k, 0 <= o -> 0 <= k -> o + k <= fieldsSize fields + 12 ->
            take (Z.to_nat k) (drop (Z.to_nat o) (sl_arr data1))
            = take (Z.to_nat k) (drop (Z.to_nat o) (sl_arr data2))) as Cell.
  { intros o k Po Pk Le.
    apply (take_drop_within _ _ (Z.to_nat (fieldsSize fields + 12))); [exact E | lia]. }
  unfold Exact.DeserializeRecord. rewrite L1, L2.
  destruct (Z.ltb_spec (fieldsSize fields + 12) 12); [lia |].
  rewrite (sl_slice_ok data1 0 8), (sl_slice_ok data2 0 8) by lia.
  cbn [mbind result_bind].
  rewrite !Uint64_ok by (cbn; lia). cbn [mbind result_bind].
  rewrite (sl_index_ok data1 8), (sl_index_ok data2 8) by lia. cbn [mbind result_bind].
  rewrite (sl_slice_ok data1 9 11), (sl_slice_ok data2 9 11) by lia.
  cbn [mbind result_bind].
  rewrite !Uint16_ok by (cbn; lia). cbn [mbind result_bind].
  rewrite (sl_index_ok data1 11), (sl_index_ok data2 11) by lia. cbn [mbind result_bind].
  cbn [sl_arr].
  change 8%nat with (Z.to_nat 8) at 1 2. change 2%nat with (Z.to_nat 2).
  rewrite (Cell 0 8), (Cell 9 2) by lia.
  rewrite (nth_within _ _ _ (Z.to_nat 8) 0 E), (nth_within _ _ _ (Z.to_nat 11) 0 E) by lia.
  apply (Deserialize_fields_local fields (fieldsSize fields + 12)); try assumption; lia.
Qed.

Section WriteRead.

Context `{GoRuntime}.

Lemma write_records_appends (tempPath : string) (fields : list Field)
    (records : list Record_) :
  forall (w w' : World) (pre : list Z),
    fs w !! tempPath = Some (File (Raw pre)) ->
    write_records tempPath fields records w = (Ok tt, w') ->
    exists chunks,
      Forall2 (fun r bytes => Serialize r fields = Ok bytes) records chunks
      /\ w' = set_fs (<[ tempPath := File (Raw (pre ++ concat chunks)) ]> (fs w)) w.
Proof.
  induction records as [| r rest IH]; intros w w' pre Temp; cbn [write_records].
  - intros [= <-]. exists []. split; [constructor |].
    cbn. rewrite app_nil_r, insert_id by exact Temp. destruct w; reflexivity.
  - unfold st_bind at 1, st_wrap at 1, st_lift.
    destruct (Serialize r fields) as [bytes | e | p] eqn:S; try discriminate.
    unfold st_bind at 1, st_wrap at 1, file_Write. rewrite Temp. cbn [content_bytes].
    intros W. apply IH with (pre := pre ++ bytes) in W; [| apply lookup_insert_eq].
    destruct W as (chunks & All & ->). exists (bytes :: chunks).
    split; [constructor; assumption |].
    unfold set_fs. cbn. rewrite insert_insert_eq, <- app_assoc. reflexivity.
Qed.

Lemma parse_records_chunks (fields : list Field) (chunks : list (list Z)) :
  Forall (fun field => readable field = true) fields ->
  fits fields ->
  forall (records : list Record_) (pre : list Z),
    Forall2 (fun r bytes => Serialize r fields = Ok bytes) records chunks ->
    exists stored,
      Exact.parse_records (pre ++ concat chunks) fields (fieldsSize fields + 12)
        (Z.of_nat (length pre)) (length chunks) = Ok stored
      /\ Forall2 (reread fields) records stored.
Proof.
  intros All Small. pose proof (fieldsSize_nonneg fields) as NN.
  induction chunks as [| bytes chunks IH]; intros records pre Enc.
  - apply Forall2_nil_inv_r in Enc. subst records. exists []. split; constructor.
  - apply Forall2_cons_inv_r in Enc. destruct Enc as (r & rest & S & Enc & ->).
    pose proof (Serialize_size _ _ _ (Serialize_exact _ _ _ Small S)) as Len.
    cbn [Exact.parse_records length concat].
    rewrite Nat2Z.id, drop_app_length.
    destruct (DeserializeRecord_succeeds (slice_of bytes) fields All) as [stored D].
    { cbn. lia. }
    { unfold sl_cap. cbn. lia. }
    rewrite (DeserializeRecord_local fields _ (slice_of bytes)), D; [| | exact All].
    2:{ unfold same_prefix, sl_cap. cbn [sl_len sl_arr slice_of].
        rewrite length_app. repeat split; try lia.
        replace (Z.to_nat (fieldsSize fields + 12)) with (length bytes) by lia.
        rewrite take_app_length, firstn_all. reflexivity. }
    cbn [mbind result_bind].
    destruct (IH rest (pre ++ bytes) Enc) as (tail & P & R).
    rewrite <- app_assoc, length_app in P.
    replace (Z.of_nat (length pre) + (fieldsSize fields + 12))
      with (Z.of_nat (length pre + length bytes)) by lia.
    rewrite P. cbn [mbind result_bind]. exists (stored :: tail).
    split; [reflexivity |]. constructor; [| exact R].
    exists bytes. split; [exact S |].
    rewrite DeserializeRecord_exact by exact Small. exact D.
Qed.

Lemma concat_length_chunks (fields : list Field) (records : list Record_)
    (chunks : list (list Z)) :
  fits fields ->
  Forall2 (fun r bytes => Serialize r fields = Ok bytes) records chunks ->
  Z.of_nat (length (concat chunks))
  = Z.of_nat (length records) * (fieldsSize fields + 12)
  /\ length chunks = length records.
Proof.
  intros Small.
  induction 1 as [| r bytes records chunks S _ [IH L]]; [split; reflexivity |].
  apply (Serialize_exact _ _ _ Small) in S.
  apply Serialize_size in S. cbn [concat length]. rewrite length_app. split; lia.
Qed.

Lemma WriteRecords_reread (t : Table) (records : list Record_)
    (w w' : World) :
  Forall (fun field => readable field = true) (Fields t) ->
  fits (Fields t) ->
  WriteRecords t records w = (Ok tt, w') ->
  exists stored,
    GetAllRecords t w' = (Ok stored, w')
    /\ Forall2 (reread (Fields t)) records stored
    /\ file_length w' (SchemaPath t +:+ "/" +:+ TableName t +:+ fileEnding)
       = Some (Z.of_nat (length records) * (fieldsSize (Fields t) + 12))
    /\ fs w' !! ((SchemaPath t +:+ "/" +:+ TableName t +:+ fileEnding) +:+ ".temp") = None.
Proof.
  intros All Small. pose proof (fieldsSize_nonneg (Fields t)) as NN.
  unfold WriteRecords, file_length.
  set (tablePath := SchemaPath t +:+ "/" +:+ TableName t +:+ fileEnding).
  set (tempPath := tablePath +:+ ".temp").
  assert (tempPath <> tablePath) as Ne by apply temp_path_differs.
  unfold st_bind at 1, st_wrap at 1.
  destruct (os_Create tempPath w) as [[[] | e | p] w1] eqn:C; try discriminate.
  apply os_Create_ok in C. subst w1.
  unfold st_bind at 1.
  destruct (write_records tempPath (Fields t) records _) as [[[] | e | p] w2] eqn:W;
    try discriminate.
  apply write_records_appends with (pre := []) in W; [| apply lookup_insert_eq].
  destruct W as (chunks & Enc & ->).
  unfold st_wrap.
  destruct (os_Rename tempPath tablePath _) as [[[] | e | p] w3] eqn:Rn; try discriminate.
  intros [= <-]. unfold os_Rename in Rn. cbn [fs set_fs app] in Rn.
  rewrite insert_insert_eq, lookup_insert_eq, lookup_insert_ne in Rn by exact Ne.
  assert (w3 = set_fs (<[ tablePath := File (Raw (concat chunks)) ]>
                         (delete tempPath
                            (<[ tempPath := File (Raw (concat chunks)) ]> (fs w)))) w)
    as ->.
  { destruct (fs w !! tablePath) as [[| c1] |]; try discriminate;
      try destruct (path_errno _ _); try discriminate;
      injection Rn as <-; reflexivity. }
  clear Rn.
  destruct (concat_length_chunks _ _ _ Small Enc) as [Len Count].
  destruct (parse_records_chunks (Fields t) chunks All Small records [] Enc)
    as (stored & P & R).
  exists stored.
  rewrite (GetAllRecords_present t _ (Raw (concat chunks)) Small)
    by (cbn [fs set_fs]; apply lookup_insert_eq).
  cbn [fs set_fs]. rewrite lookup_insert_eq. cbn [content_bytes].
  rewrite Len, Z.div_mul, Nat2Z.id, <- Count by lia.
  change (Exact.parse_records (concat chunks) (Fields t) (fieldsSize (Fields t) + 12) 0
            (length chunks) = Ok stored) in P.
  rewrite P.
  split; [reflexivity |]. split; [exact R |]. split; [reflexivity |].
  rewrite lookup_insert_ne by (intros E; apply Ne; symmetry; exact E).
  rewrite delete_insert_eq. apply lookup_delete_eq.
Qed.

(** X9: when the fields of a table are wide enough for their types, their
    sizes add up to an [int] and [WriteRecords] succeeds on a list of
    records, [GetAllRecords] on the world reached returns one record for
    each record written, in the same order, each one the decoding of the
    encoding of the record written; the table file holds exactly
    [length records] times the record size bytes, and the temporary file
    is gone. *)
Theorem WriteRecords_then_GetAllRecords (t : Table) (records : list Record_)
    (w w' : World) :
  Forall (fun field => readable field = true) (Fields t) ->
  fits (Fields t) ->
  WriteRecords t records w = (Ok tt, w') ->
  exists stored,
    GetAllRecords t w' = (Ok stored, w')
    /\ Forall2 (reread (Fields t)) records stored
    /\ file_length w' (SchemaPath t +:+ "/" +:+ TableName t +:+ fileEnding)
       = Some (Z.of_nat (length records) * (fieldsSize (Fields t) + 12))
    /\ fs w' !! ((SchemaPath t +:+ "/" +:+ TableName t +:+ fileEnding) +:+ ".temp") = None.
Proof. apply WriteRecords_reread. Qed.

End WriteRead.

(** ** The record codec: the fields of a record *)

Lemma write_at_here (data : list Z) (off : Z) (bs : list Z) :
  0 <= off -> off + Z.of_nat (length bs) <= Z.of_nat (length data) ->
  take (length bs) (drop (Z.to_nat off) (write_at data off bs)) = bs.
Proof.
  intros Pos Fits. unfold write_at.
  rewrite drop_app_length' by (rewrite length_take; lia).
  rewrite take_app_length. reflexivity.
Qed.

Lemma write_at_after (data : list Z) (off : Z) (bs : list Z) (n : nat) :
  0 <= off -> off + Z.of_nat (length bs) <= Z.of_nat (length data) ->
  (Z.to_nat off + length bs <= n)%nat ->
  drop n (write_at data off bs) = drop n data.
Proof.
  intros Pos Fits Le. unfold write_at.
  rewrite app_assoc, drop_app_ge by (rewrite length_app, length_take; lia).
  rewrite length_app, length_take, drop_drop. f_equal. lia.
Qed.

Lemma le_value_zeros (n : nat) : le_value (repeat 0 n) = 0.
Proof. induction n as [| n IH]; cbn; [reflexivity | rewrite IH; reflexivity]. Qed.

Lemma Forall_zero_repeat (l : list Z) : Forall (eq 0) l -> l = repeat 0 (length l).
Proof.
  induction 1 as [| x l <- _ IH]; [reflexivity |]. cbn. f_equal. exact IH.
Qed.

Lemma trunc_uint64_range (v : float64) (n : Z) :
  trunc_uint64 v = Some n -> 0 <= n < 2 ^ 64.
Proof.
  destruct v as [s | s | | s m e]; cbn; try discriminate.
  - intros [= <-]. lia.
  - set (t := if 0 <=? e then Z.pos m * 2 ^ e else Z.pos m / 2 ^ (- e)).
    destruct (Z.eqb_spec t 0); [intros [= <-]; lia |].
    destruct s; [discriminate |].
    destruct (Z.ltb_spec t (2 ^ 64)); [| discriminate].
    intros [= <-]. split; [| assumption]. subst t.
    destruct (0 <=? e) eqn:E.
    + apply Z.leb_le in E. pose proof (Z.pow_nonneg 2 e). nia.
    + apply Z.div_pos; [lia |]. apply Z.pow_pos_nonneg; lia.
Qed.

Lemma Deserialize_fields_other (name : string) (fields : list Field) :
  Forall (fun field => Name field <> name) fields ->
  forall data record offset r,
    Exact.Deserialize_fields data fields record offset = Ok r ->
    FieldsData r !! name = FieldsData record !! name
    /\ FieldsMeta r !! name = FieldsMeta record !! name
    /\ RefOffsets r !! name = RefOffsets record !! name.
Proof.
  induction 1 as [| field rest Ne _ IH]; intros data record offset r; cbn [Exact.Deserialize_fields].
  - intros [= <-]. repeat split.
  - destruct (String.eqb_spec (Name field) "id") as [Id | NotId].
    { intros E. apply IH in E. cbn in E. rewrite <- Id in E.
      rewrite !lookup_insert_ne in E by exact Ne. exact E. }
    destruct (sl_index data offset) as [b | |]; cbn [mbind result_bind]; try discriminate.
    destruct (b =? 1).
    { intros E. apply IH in E. cbn in E.
      rewrite !lookup_insert_ne in E by exact Ne. exact E. }
    match goal with
    | |- mbind _ ?payload = _ -> _ => destruct payload as [record' | |] eqn:E
    end; cbn [mbind result_bind]; try discriminate.
    intros E'. apply IH in E'. destruct E' as (-> & -> & ->).
    revert E.
    repeat match goal with
           | |- context [if ?c then _ else _] => destruct c
           end;
      repeat match goal with
             | |- context [mbind _ ?m] =>
                 let x := fresh in destruct m as [x | |]; cbn [mbind result_bind];
                                   try discriminate
             end;
      intros [= <-]; cbn; rewrite ?lookup_insert_ne by exact Ne; repeat split.
Qed.

Lemma take_repeat {A : Type} (x : A) (n m : nat) :
  take n (repeat x m) = repeat x (Nat.min n m).
Proof.
  revert m. induction n as [| n IH]; intros [| m]; cbn; try reflexivity.
  rewrite IH. reflexivity.
Qed.

Lemma drop_repeat {A : Type} (x : A) (n m : nat) :
  drop n (repeat x m) = repeat x (m - n).
Proof.
  revert m. induction n as [| n IH]; intros [| m]; cbn; try reflexivity. apply IH.
Qed.

Lemma Forall_zero_zeros (n : nat) : Forall (eq 0) (repeat 0 n).
Proof. induction n as [| n IH]; cbn; constructor; [reflexivity | exact IH]. Qed.

Section FieldRoundTrip.

Context `{GoRuntime}.

Lemma write_at_write_at (data : list Z) (off : Z) (bs1 bs2 : list Z) :
  0 <= off ->
  off + Z.of_nat (length bs1) + Z.of_nat (length bs2) <= Z.of_nat (length data) ->
  write_at (write_at data off bs1) (off + Z.of_nat (length bs1)) bs2
  = write_at data off (bs1 ++ bs2).
Proof.
  intros Pos Fits. unfold write_at.
  rewrite take_app_ge by (rewrite length_take; lia).
  rewrite length_take.
  replace (Z.to_nat (off + Z.of_nat (length bs1)) - Z.to_nat off `min` length data)%nat
    with (length bs1) by lia.
  rewrite take_app_length', <- !app_assoc by reflexivity.
  f_equal. f_equal. f_equal.
  rewrite app_assoc, drop_app_ge by (rewrite length_app, length_take; lia).
  rewrite length_app, length_take, drop_drop, length_app. f_equal. lia.
Qed.

Lemma Serialize_payload_cell (r : Record_) (field : Field) (value : value)
    (data out : list Z) (offset : Z) :
  readable field = true -> Name field <> "id"%string -> 0 <= offset ->
  offset + Z.of_N (Length field) <= Z.of_nat (length data) ->
  Exact.Serialize_payload r field value data offset = Ok out ->
  exists cell,
    cell_of r field value = Some cell
    /\ (length cell <= N.to_nat (Length field))%nat
    /\ out = write_at data offset cell.
Proof.
  intros R NotId Pos Fits. unfold readable in R.
  apply String.eqb_neq in NotId. rewrite NotId in R. cbn [orb] in R.
  unfold Exact.Serialize_payload, cell_of.
  destruct (String.eqb (Type_ field) TimeID).
  { apply N.leb_le in R. destruct value; try discriminate.
    intros E. apply PutUint64_inv in E. eexists. split; [reflexivity |].
    rewrite le_bytes_length. split; [lia | exact E]. }
  destruct (String.eqb (Type_ field) Int).
  { apply N.leb_le in R. destruct value; try discriminate;
      intros E; apply PutUint64_inv in E; eexists; (split; [reflexivity |]);
      rewrite le_bytes_length; (split; [lia | exact E]). }
  destruct (String.eqb (Type_ field) Float).
  { apply N.leb_le in R. destruct value; try discriminate.
    intros E. apply PutUint64_inv in E. eexists. split; [reflexivity |].
    rewrite le_bytes_length. split; [lia | exact E]. }
  destruct (String.eqb (Type_ field) String_).
  { destruct value; try discriminate. unfold copy_string.
    destruct (negb _); [discriminate |]. intros [= <-].
    eexists. split; [reflexivity |]. rewrite length_take.
    split; [lia |]. f_equal. f_equal. lia. }
  destruct (String.eqb (Type_ field) "ref"); [| discriminate].
  cbn [orb] in R. apply N.leb_le in R.
  destruct (RefOffsets r !! Name field) as [offsets |]; [| discriminate].
  destruct (PutUint64 data offset (offset + 8) _) as [d1 | |] eqn:E1;
    cbn [mbind result_bind]; try discriminate.
  intros E2. apply PutUint64_inv in E1, E2. subst d1 out.
  eexists. split; [reflexivity |]. rewrite length_app, !le_bytes_length.
  split; [lia |].
  rewrite <- (write_at_write_at data offset) by (rewrite ?le_bytes_length; lia).
  rewrite le_bytes_length. reflexivity.
Qed.

Lemma Deserialize_fields_step (out : list Z) (field : Field) (rest : list Field)
    (record : Record_) (offset : Z) :
  readable field = true -> Name field <> "id"%string -> 0 <= offset ->
  offset + 1 + Z.of_N (Length field) <= Z.of_nat (length out) ->
  Exact.Deserialize_fields (slice_of out) (field :: rest) record offset
  = let isNull := nth (Z.to_nat offset) out 0 =? 1 in
    let record :=
      set_FieldsMeta (<[ Name field := mkFieldMetadata isNull ]> (FieldsMeta record))
        record in
    Exact.Deserialize_fields (slice_of out) rest
      (if isNull then record
       else read_cell field
              (take (N.to_nat (Length field)) (drop (Z.to_nat (offset + 1)) out)) record)
      (offset + 1 + Z.of_N (Length field)).
Proof.
  intros R NotId Pos Fits. unfold readable in R.
  apply String.eqb_neq in NotId. rewrite NotId in R. cbn [orb] in R.
  cbn [Exact.Deserialize_fields]. rewrite NotId.
  rewrite sl_index_ok by (cbn; lia). cbn [mbind result_bind sl_arr slice_of].
  cbv zeta. destruct (_ =? 1); [reflexivity |].
  unfold read_cell.
  assert (forall k, (k <= N.to_nat (Length field))%nat ->
            take k (take (N.to_nat (Length field)) (drop (Z.to_nat (offset + 1)) out))
            = take k (drop (Z.to_nat (offset + 1)) out)) as Cut.
  { intros k Le. rewrite take_take. f_equal. lia. }
  destruct (String.eqb (Type_ field) TimeID || String.eqb (Type_ field) Int) eqn:TInt.
  { rewrite orb_true_l in R. apply N.leb_le in R.
    rewrite sl_slice_ok by (unfold sl_cap; cbn; lia). cbn [mbind result_bind].
    rewrite Uint64_ok by (cbn; lia). cbn [mbind result_bind sl_arr slice_of].
    rewrite Cut by lia. reflexivity. }
  cbn [orb] in R.
  destruct (String.eqb (Type_ field) Float) eqn:TFloat.
  { apply N.leb_le in R.
    rewrite sl_slice_ok by (unfold sl_cap; cbn; lia). cbn [mbind result_bind].
    rewrite Uint64_ok by (cbn; lia). cbn [mbind result_bind sl_arr slice_of].
    rewrite Cut by lia. reflexivity. }
  destruct (String.eqb (Type_ field) String_) eqn:TString.
  { rewrite sl_slice_ok by (unfold sl_cap; cbn; lia). cbn [mbind result_bind].
    unfold sl_string. cbn [sl_arr sl_len slice_of].
    replace (Z.to_nat (offset + 1 + Z.of_N (Length field) - (offset + 1)))
      with (N.to_nat (Length field)) by lia.
    reflexivity. }
  destruct (String.eqb (Type_ field) "ref") eqn:TRef; [| reflexivity].
  apply N.leb_le in R.
  rewrite sl_slice_ok by (unfold sl_cap; cbn; lia). cbn [mbind result_bind].
  rewrite Uint64_ok by (cbn; lia). cbn [mbind result_bind sl_arr slice_of].
  rewrite sl_slice_ok by (unfold sl_cap; cbn; lia). cbn [mbind result_bind].
  rewrite Uint64_ok by (cbn; lia). cbn [mbind result_bind sl_arr slice_of].
  rewrite Cut by lia.
  assert (take 8 (drop 8 (take (N.to_nat (Length field))
                            (drop (Z.to_nat (offset + 1)) out)))
          = take 8 (drop (Z.to_nat (offset + 1 + 8)) out)) as ->.
  { rewrite (take_drop_commute _ 8 8), Cut, <- take_drop_commute, drop_drop by lia.
    f_equal. f_equal. lia. }
  reflexivity.
Qed.

End FieldRoundTrip.

Section FieldRoundTrip2.

Context `{GoRuntime}.

Lemma write_at_nil (data : list Z) (off : Z) : write_at data off [] = data.
Proof. unfold write_at. cbn. rewrite Nat.add_0_r. apply take_drop. Qed.

Lemma Serialize_fields_step (r : Record_) (field : Field) (rest : list Field)
    (d out : list Z) (o : Z) :
  readable field = true -> Name field <> "id"%string -> 0 <= o ->
  o + 1 + Z.of_N (Length field) <= Z.of_nat (length d) ->
  Exact.Serialize_fields r (field :: rest) d o = Ok out ->
  exists cell,
    stored_cell r field = Some cell
    /\ (length cell <= N.to_nat (Length field))%nat
    /\ Exact.Serialize_fields r rest
         (write_at d o ((if null_flag r field then 1 else 0) :: cell))
         (o + 1 + Z.of_N (Length field)) = Ok out.
Proof.
  intros R NotId Pos Fits. cbn [Exact.Serialize_fields].
  rewrite (proj2 (String.eqb_neq _ _) NotId).
  unfold stored_cell. fold (null_flag r field).
  destruct (set_index d o _) as [d1 | |] eqn:E1; cbn [mbind result_bind]; try discriminate.
  apply set_index_inv in E1. subst d1.
  destruct (FieldsData r !! Name field) as [value |].
  - destruct (null_flag r field).
    + intros E. exists []. split; [reflexivity |]. split; [cbn; lia | exact E].
    + destruct (Exact.Serialize_payload r field value _ (o + 1)) as [d2 | |] eqn:E2;
        cbn [mbind result_bind]; try discriminate.
      apply Serialize_payload_cell in E2; try assumption; try lia.
      2:{ rewrite write_at_length by (cbn; lia). lia. }
      destruct E2 as (cell & C & L & ->). intros E.
      exists cell. split; [exact C |]. split; [exact L |].
      rewrite <- E. f_equal.
      change (0 :: cell) with ([0] ++ cell).
      rewrite <- write_at_write_at by (cbn [length]; lia). reflexivity.
  - intros E. exists []. split; [reflexivity |]. split; [cbn; lia | exact E].
Qed.

Lemma read_cell_entries (field : Field) (cell : list Z) (record : Record_) :
  FieldsData record !! Name field = None -> RefOffsets record !! Name field = None ->
  FieldsData (read_cell field cell record) !! Name field
  = FieldsData (read_cell field cell empty_record) !! Name field
  /\ RefOffsets (read_cell field cell record) !! Name field
     = RefOffsets (read_cell field cell empty_record) !! Name field.
Proof.
  intros FD RO. unfold read_cell.
  repeat match goal with
         | |- context [if ?c then _ else _] => destruct c
         end;
    cbn; rewrite ?lookup_insert_eq, ?lookup_empty; split; first [reflexivity | assumption].
Qed.

Lemma read_cell_others (field : Field) (cell : list Z) (record : Record_) (name : string) :
  Name field <> name ->
  FieldsData (read_cell field cell record) !! name = FieldsData record !! name
  /\ RefOffsets (read_cell field cell record) !! name = RefOffsets record !! name
  /\ FieldsMeta (read_cell field cell record) = FieldsMeta record.
Proof.
  intros Ne. unfold read_cell.
  repeat match goal with
         | |- context [if ?c then _ else _] => destruct c
         end;
    cbn; rewrite ?lookup_insert_ne by exact Ne; repeat split.
Qed.

Lemma Serialize_fields_read_as (r : Record_) (fields : list Field) :
  NoDup (Name <$> fields) ->
  Forall (fun field => readable field = true) fields ->
  forall (d out : list Z) (o : Z) (record r' : Record_),
    0 <= o -> o + fieldsSize fields = Z.of_nat (length d) ->
    Forall (eq 0) (drop (Z.to_nat o) d) ->
    (forall field, In field fields -> Name field <> "id"%string ->
       FieldsData record !! Name field = None /\ RefOffsets record !! Name field = None) ->
    Exact.Serialize_fields r fields d o = Ok out ->
    Exact.Deserialize_fields (slice_of out) fields record o = Ok r' ->
    forall field, In field fields -> Name field <> "id"%string -> read_as r r' field.
Proof.
  induction fields as [| field rest IH]; intros Distinct All d out o record r' Pos Size
    Zeros Fresh Ser Des field0 In0 NotId0; [destruct In0 |].
  apply Forall_cons in All. destruct All as [R All].
  rewrite fmap_cons in Distinct. apply NoDup_cons in Distinct as [NotIn Distinct].
  rewrite fieldsSize_cons in Size. pose proof (fieldsSize_nonneg rest) as NN.
  specialize (IH Distinct All).
  destruct (String.eqb_spec (Name field) "id") as [Id | NotId].
  { cbn [Exact.Serialize_fields Exact.Deserialize_fields] in Ser, Des.
    rewrite (proj2 (String.eqb_eq _ _) Id) in Ser, Des.
    destruct In0 as [<- | In0]; [contradiction |].
    refine (IH d out o _ r' Pos ltac:(lia) Zeros _ Ser Des field0 In0 NotId0).
    intros f Inf NotIdf. cbn. rewrite lookup_insert_ne by congruence.
    apply Fresh; [right; exact Inf | exact NotIdf]. }
  apply Serialize_fields_step in Ser; try assumption; try lia.
  destruct Ser as (cell & Cell & Len & Ser).
  set (d' := write_at d o ((if null_flag r field then 1 else 0) :: cell)) in Ser.
  assert (length d' = length d) as Ld'.
  { apply write_at_length; cbn [length]; lia. }
  assert (0 <= o + 1 + Z.of_N (Length field)) as Pos2 by lia.
  pose proof (Serialize_fields_keeps _ _ _ _ _ Pos2 Ser) as [Lout Keep].
  assert (take (S (length cell)) (drop (Z.to_nat o) d')
          = (if null_flag r field then 1 else 0) :: cell) as Here.
  { apply (write_at_here d o (_ :: cell)); cbn [length]; lia. }
  assert (drop (Z.to_nat o + S (length cell)) d'
          = repeat 0 (length d - (Z.to_nat o + S (length cell)))) as After.
  { unfold d'. rewrite write_at_after by (cbn [length]; lia).
    rewrite <- drop_drop.
    rewrite (Forall_zero_repeat _ (Forall_drop _ _ _ Zeros)).
    rewrite !length_drop. f_equal. lia. }
  assert (take (S (N.to_nat (Length field))) (drop (Z.to_nat o) out)
          = (if null_flag r field then 1 else 0) :: padded field cell) as Read.
  { rewrite (take_drop_within out d' (Z.to_nat (o + 1 + Z.of_N (Length field))))
      by (first [exact Keep | lia]).
    rewrite <- (take_drop (S (length cell)) (drop (Z.to_nat o) d')).
    rewrite Here, drop_drop, After.
    rewrite take_app_ge by (cbn [length]; lia). cbn [length app].
    unfold padded. f_equal. f_equal.
    rewrite take_repeat. f_equal. lia. }
  assert (nth (Z.to_nat o) out 0 = (if null_flag r field then 1 else 0)
          /\ take (N.to_nat (Length field)) (drop (Z.to_nat (o + 1)) out)
             = padded field cell) as [Flag Body].
  { replace (Z.to_nat (o + 1)) with (Z.to_nat o + 1)%nat by lia.
    rewrite <- drop_drop.
    destruct (drop (Z.to_nat o) out) as [| b body] eqn:D; [discriminate Read |].
    cbn [take drop] in Read |- *. injection Read as -> Body. split; [| exact Body].
    clear - D. revert out D. generalize (Z.to_nat o) as n.
    induction n as [| n IHn]; intros [| x out] D; try discriminate D.
    - injection D as -> _. reflexivity.
    - cbn. apply IHn. exact D. }
  rewrite Deserialize_fields_step in Des; try assumption; try lia.
  cbv zeta in Des. rewrite Flag, Body in Des.
  assert (((if null_flag r field then 1 else 0) =? 1) = null_flag r field) as Null
    by (destruct (null_flag r field); reflexivity).
  rewrite Null in Des.
  set (record1 := set_FieldsMeta _ record) in Des.
  set (record2 := if null_flag r field then record1 else _) in Des.
  destruct (Fresh field (or_introl eq_refl) NotId) as [FD RO].
  destruct In0 as [<- | In0].
  - assert (Forall (fun f => Name f <> Name field) rest) as Others.
    { apply Forall_forall. intros f Inf E. apply NotIn. rewrite <- E.
      apply list_elem_of_fmap_2. exact Inf. }
    exists cell. split; [exact Cell |]. cbv zeta.
    destruct (Deserialize_fields_other _ _ Others _ _ _ _ Des) as (-> & -> & ->).
    subst record2 record1.
    destruct (null_flag r field).
    + cbn. rewrite lookup_insert_eq, FD, RO, !lookup_empty. repeat split.
    + destruct (read_cell_entries field (padded field cell)
                  (set_FieldsMeta (<[ Name field := mkFieldMetadata false ]>
                                     (FieldsMeta record)) record) FD RO) as [-> ->].
      unfold read_cell.
      repeat match goal with
             | |- context [if ?c then _ else _] => destruct c
             end;
        cbn; rewrite lookup_insert_eq; repeat split.
  - eapply (IH d' out (o + 1 + Z.of_N (Length field)) record2);
      try eassumption; try lia.
    + replace (Z.to_nat (o + 1 + Z.of_N (Length field)))
        with ((Z.to_nat o + S (length cell))
              + (N.to_nat (Length field) - length cell))%nat by lia.
      rewrite <- drop_drop, After, drop_repeat. apply Forall_zero_zeros.
    + intros f Inf NotIdf.
      assert (Name field <> Name f) as Ne.
      { intros E. apply NotIn. rewrite E.
        apply list_elem_of_fmap_2, list_elem_of_In. exact Inf. }
      destruct (Fresh f (or_intror Inf) NotIdf) as [FDf ROf].
      subst record2 record1. destruct (null_flag r field).
      * cbn. split; assumption.
      * destruct (read_cell_others field (padded field cell)
                    (set_FieldsMeta (<[ Name field := mkFieldMetadata false ]>
                                       (FieldsMeta record)) record) (Name f) Ne)
          as (-> & -> & _).
        cbn. split; assumption.
Qed.

End FieldRoundTrip2.

Section FieldRoundTrip3.

Context `{GoRuntime}.

Lemma uint64_of_float64_range (v : float64) : 0 <= uint64_of_float64 v < 2 ^ 64.
Proof.
  unfold uint64_of_float64. destruct (trunc_uint64 v) as [n |] eqn:T.
  - apply trunc_uint64_range in T. exact T.
  - unfold to_uint64. apply Z.mod_pos_bound. lia.
Qed.

Lemma read_uint64 (v : Z) (more : list Z) :
  le_value (take 8 (le_bytes 8 v ++ more)) = v mod 2 ^ 64.
Proof.
  rewrite take_app_length' by (rewrite le_bytes_length; reflexivity).
  rewrite le_value_le_bytes. reflexivity.
Qed.

Lemma read_int64 (n : Z) (more : list Z) :
  - 2 ^ 63 <= n < 2 ^ 63 ->
  to_int64 (le_value (take 8 (le_bytes 8 (to_uint64 n) ++ more))) = n.
Proof.
  intros Range. rewrite read_uint64. unfold to_uint64 at 1.
  rewrite Z.mod_mod by lia. apply to_int64_to_uint64. exact Range.
Qed.

Lemma read_as_read_back (r r' : Record_) (field : Field) :
  (16 <= Length field)%N \/ Type_ field <> "ref"%string ->
  read_as r r' field -> read_back r r' field.
Proof.
  intros Wide (cell & Cell & Meta & Data & Refs). unfold read_back. cbv zeta.
  split; [exact Meta |]. unfold stored_cell in Cell.
  destruct (null_flag r field) eqn:Null.
  { split; [intros _; split; assumption | discriminate]. }
  split; [discriminate |]. intros _. cbv zeta in Data, Refs.
  unfold read_cell in Data, Refs. unfold cell_of in Cell.
  split; [| split; [| split]].
  - intros n Ty Val Range.
    assert (cell = le_bytes 8 (to_uint64 n)) as ->.
    { destruct Ty as [Ty | Ty], Val as [Val | Val]; rewrite Val, Ty in Cell;
        cbn -[le_bytes to_uint64] in Cell; congruence. }
    assert (String.eqb (Type_ field) TimeID || String.eqb (Type_ field) Int = true) as T.
    { destruct Ty as [-> | ->]; reflexivity. }
    rewrite T in Data. rewrite Data. cbn [FieldsData set_FieldsData empty_record].
    rewrite lookup_insert_eq. unfold padded. rewrite read_int64 by exact Range.
    reflexivity.
  - intros v Ty Val. rewrite Ty in Data.
    assert (cell = le_bytes 8 (uint64_of_float64 v)) as ->.
    { rewrite Val, Ty in Cell. cbn -[le_bytes uint64_of_float64] in Cell. congruence. }
    change (String.eqb Float TimeID || String.eqb Float Int) with false in Data.
    change (String.eqb Float Float) with true in Data. cbv iota in Data.
    assert (FieldsData r' !! Name field
            = Some (VFloat64 (float64_of_int (uint64_of_float64 v)))) as Read.
    { rewrite Data. cbn [FieldsData set_FieldsData empty_record].
      rewrite lookup_insert_eq. unfold padded. rewrite read_uint64.
      rewrite Z.mod_small by apply uint64_of_float64_range. reflexivity. }
    pose proof (uint64_of_float64_range v) as Range.
    unfold uint64_of_float64 in Read, Range.
    destruct (trunc_uint64 v) as [n |]; [exact Read |].
    exists (to_uint64 (uint64_unrepresentable v)). split; [exact Range | exact Read].
  - intros s Ty Val. rewrite Ty in Data.
    assert (cell = take (N.to_nat (Length field)) (bytes_of_string s)) as ->.
    { rewrite Val, Ty in Cell. cbn -[bytes_of_string take] in Cell. congruence. }
    change (String.eqb String_ TimeID || String.eqb String_ Int) with false in Data.
    change (String.eqb String_ Float) with false in Data.
    change (String.eqb String_ String_) with true in Data. cbv iota in Data.
    rewrite Data. cbn [FieldsData set_FieldsData empty_record].
    rewrite lookup_insert_eq. unfold padded. do 3 f_equal.
    rewrite take_app, take_repeat, length_take. f_equal. f_equal.
    rewrite Nat.min_comm. lia.
  - intros Ty. rewrite Ty in Data, Refs, Cell.
    change (String.eqb "ref" TimeID || String.eqb "ref" Int) with false in Data, Refs.
    change (String.eqb "ref" Float) with false in Data, Refs, Cell.
    change (String.eqb "ref" String_) with false in Data, Refs, Cell.
    change (String.eqb "ref" TimeID) with false in Cell.
    change (String.eqb "ref" Int) with false in Cell.
    change (String.eqb "ref" "ref") with true in Data, Refs, Cell.
    cbv iota in Data, Refs, Cell.
    cbn [FieldsData RefOffsets set_RefOffsets empty_record] in Data, Refs.
    rewrite lookup_insert_eq in Refs.
    split; [rewrite Data; apply lookup_empty |]. split.
    + intros Absent. rewrite Absent in Cell. assert (cell = []) as -> by congruence.
      rewrite Refs. unfold padded. cbn [app length].
      destruct Wide as [Wide | Wide]; [| contradiction].
      rewrite take_repeat, drop_repeat, take_repeat, !le_value_zeros. reflexivity.
    + intros first last Present Offsets R1 R2.
      destruct (FieldsData r !! Name field) as [value |]; [| contradiction].
      rewrite Offsets in Cell.
      assert (cell = le_bytes 8 (to_uint64 first) ++ le_bytes 8 (to_uint64 last)) as ->
        by (cbn [fst snd] in Cell; congruence).
      rewrite Refs. unfold padded. cbn [fst snd].
      rewrite <- !app_assoc, read_int64 by exact R1.
      rewrite drop_app_length' by (rewrite le_bytes_length; reflexivity).
      rewrite read_int64 by exact R2. reflexivity.
Qed.

(** X8: for a field list with distinct names and fields wide enough for
    their types whose sizes add up to an [int], decoding the buffer
    [Serialize] returned succeeds and gives, for every field not named
    "id", what [read_back] says: the null flag of the record (null when the
    record has no metadata for the field); no value for a null field; for
    a non-null field an integer in the range of int64 as an [int64], a
    float whose integer part a uint64 holds as the float of that integer
    part (any other float as the float of some uint64), a string cut or
    padded with zero bytes to the width of the field, and for a ref field
    its offsets but never its value, the offsets being (0, 0) when the
    record carried no value for the field. *)
Theorem Serialize_then_DeserializeRecord (r : Record_) (fields : list Field)
    (bytes : list Z) :
  NoDup (Name <$> fields) ->
  Forall (fun field => readable field = true) fields ->
  fits fields ->
  Serialize r fields = Ok bytes ->
  exists r',
    DeserializeRecord (slice_of bytes) fields = Ok r'
    /\ forall field, In field fields -> Name field <> "id"%string ->
         read_back r r' field.
Proof.
  intros Distinct All Small Ser0. pose proof (fieldsSize_nonneg fields) as NN.
  pose proof (Serialize_exact _ _ _ Small Ser0) as Ser.
  rewrite DeserializeRecord_exact by exact Small.
  pose proof (Serialize_size _ _ _ Ser) as Len.
  destruct (DeserializeRecord_succeeds (slice_of bytes) fields All) as [r' Des].
  { cbn. lia. }
  { unfold sl_cap. cbn. lia. }
  exists r'. split; [exact Des |]. intros field In0 NotId.
  apply read_as_read_back.
  { rewrite Forall_forall in All.
    specialize (All field (proj2 (list_elem_of_In _ _) In0)). unfold readable in All.
    rewrite (proj2 (String.eqb_neq _ _) NotId) in All. cbn [orb] in All.
    destruct (String.eqb_spec (Type_ field) "ref") as [Ty | Ty]; [| right; exact Ty].
    rewrite Ty in All. cbn in All. left. apply N.leb_le. exact All. }
  unfold Exact.Serialize in Ser.
  destruct (PutUint64 _ 0 8 _) as [d1 | |] eqn:E1; cbn [mbind result_bind] in Ser;
    try discriminate.
  destruct (set_index d1 8 _) as [d2 | |] eqn:E2; cbn [mbind result_bind] in Ser;
    try discriminate.
  destruct (PutUint16 d2 9 11 _) as [d3 | |] eqn:E3; cbn [mbind result_bind] in Ser;
    try discriminate.
  destruct (set_index d3 11 _) as [d4 | |] eqn:E4; cbn [mbind result_bind] in Ser;
    try discriminate.
  pose proof (PutUint64_keeps _ _ _ _ _ E1) as [L1 _].
  pose proof (set_index_keeps _ _ _ _ E2) as [L2 _].
  pose proof (PutUint16_keeps _ _ _ _ _ E3) as [L3 _].
  pose proof (set_index_keeps _ _ _ _ E4) as [L4 _].
  rewrite repeat_length in L1.
  apply PutUint64_inv in E1. apply set_index_inv in E2.
  apply PutUint16_inv in E3. apply set_index_inv in E4.
  unfold Exact.DeserializeRecord in Des.
  destruct (sl_len (slice_of bytes) <? 12); [discriminate |].
  destruct (sl_slice (slice_of bytes) 0 8) as [c1 | |]; cbn [mbind result_bind] in Des;
    try discriminate.
  destruct (Uint64 c1) as [id | |]; cbn [mbind result_bind] in Des; try discriminate.
  destruct (sl_index (slice_of bytes) 8) as [mb | |]; cbn [mbind result_bind] in Des;
    try discriminate.
  destruct (sl_slice (slice_of bytes) 9 11) as [c2 | |]; cbn [mbind result_bind] in Des;
    try discriminate.
  destruct (Uint16 c2) as [lo | |]; cbn [mbind result_bind] in Des; try discriminate.
  destruct (sl_index (slice_of bytes) 11) as [hi | |]; cbn [mbind result_bind] in Des;
    try discriminate.
  refine (Serialize_fields_read_as r fields Distinct All d4 bytes 12 _ r' _ _ _ _ Ser Des
            field In0 NotId).
  - lia.
  - lia.
  - change (Z.to_nat 12) with 12%nat.
    subst d4. rewrite write_at_after by (cbn [length]; lia).
    subst d3. rewrite write_at_after by (rewrite ?le_bytes_length; lia).
    subst d2. rewrite write_at_after by (cbn [length]; lia).
    subst d1. rewrite write_at_after by (rewrite ?le_bytes_length, ?repeat_length; lia).
    rewrite drop_repeat. apply Forall_zero_zeros.
  - intros f _ _. cbn. split; apply lookup_empty.
Qed.

End FieldRoundTrip3.

(** ** Staging: what a staged change touches *)

Lemma String_app_inv_tail (a b s1 s2 : string) :
  a +:+ s1 = b +:+ s2 -> String.length s1 = String.length s2 -> s1 = s2.
Proof.
  revert b. induction a as [| c a IH]; intros b E L.
  - destruct b as [| d b]; [exact E |].
    apply (f_equal String.length) in E.
    rewrite !String_length_app in E. cbn in E. lia.
  - destruct b as [| d b].
    + apply (f_equal String.length) in E.
      rewrite !String_length_app in E. cbn in E. lia.
    + change (String c a +:+ s1) with (String c (a +:+ s1)) in E.
      change (String d b +:+ s2) with (String d (b +:+ s2)) in E.
      injection E as _ E. apply (IH b); assumption.
Qed.

Lemma sidecar_not_table (schemaPath tableName fieldName : string) :
  refFilePath_of schemaPath tableName fieldName
  <> schemaPath +:+ "/" +:+ tableName +:+ fileEnding.
Proof.
  unfold refFilePath_of. intros E. do 3 apply String_app_inv_head in E.
  apply (f_equal String.length) in E. rewrite !String_length_app in E.
  cbn in E. lia.
Qed.

Lemma String_app_assoc (a b c : string) : (a +:+ b) +:+ c = a +:+ b +:+ c.
Proof.
  induction a as [| x a IH]; [reflexivity |].
  change ((String x a +:+ b) +:+ c) with (String x ((a +:+ b) +:+ c)).
  rewrite IH. reflexivity.
Qed.

Lemma sidecar_not_conf (schemaPath tableName fieldName path : string) :
  refFilePath_of schemaPath tableName fieldName <> path +:+ ".conf" +:+ fileEnding.
Proof.
  unfold refFilePath_of. intros E.
  rewrite <- !(String_app_assoc _ _ (".data" +:+ fileEnding)) in E.
  apply String_app_inv_tail in E; [| reflexivity].
  vm_compute in E. discriminate E.
Qed.

Lemma sidecar_not_dir (schemaPath tableName fieldName : string) :
  refFilePath_of schemaPath tableName fieldName <> schemaPath.
Proof.
  unfold refFilePath_of. intros E. apply (f_equal String.length) in E.
  rewrite !String_length_app in E. cbn in E. lia.
Qed.

(** The walk through the directories of a path looks up the texts before
    its slashes and nothing else. *)
Lemma walk_same (f f' : gmap string node) (cs : list ascii) :
  forall seen len,
    (forall cs1 cs2, cs = cs1 ++ slash :: cs2 ->
       f' !! string_of_list_ascii (rev seen ++ cs1)
       = f !! string_of_list_ascii (rev seen ++ cs1)) ->
    walk f' cs seen len = walk f cs seen len.
Proof.
  induction cs as [| c rest IH]; intros seen len Same; cbn [walk]; [reflexivity |].
  assert (forall n, walk f' rest (c :: seen) n = walk f rest (c :: seen) n) as Rest.
  { intros n. apply IH. intros cs1 cs2 E.
    cbn [rev]. rewrite <- app_assoc. apply (Same (c :: cs1) cs2).
    rewrite E. reflexivity. }
  destruct (Ascii.eqb c slash) eqn:Sl; [| rewrite Rest; reflexivity].
  apply Ascii.eqb_eq in Sl. subst c.
  destruct (NAME_MAX <? len)%nat; [reflexivity |].
  specialize (Same [] rest eq_refl). rewrite app_nil_r in Same. rewrite Same, Rest.
  reflexivity.
Qed.

Lemma string_of_list_ascii_app (a b : list ascii) :
  string_of_list_ascii (a ++ b) = string_of_list_ascii a +:+ string_of_list_ascii b.
Proof. induction a as [| x a IH]; [reflexivity |]. cbn. rewrite IH. reflexivity. Qed.

Lemma path_errno_same (f f' : gmap string node) (path : string) :
  (forall a b, path = a +:+ "/" +:+ b -> f' !! a = f !! a) ->
  path_errno f' path = path_errno f path.
Proof.
  intros Same. unfold path_errno.
  destruct (has_NUL path); [reflexivity |].
  destruct (PATH_MAX <=? String.length path)%nat; [reflexivity |].
  destruct (String.eqb path EmptyString); [reflexivity |].
  apply walk_same. intros cs1 cs2 E. cbn [rev app].
  apply (Same _ (string_of_list_ascii cs2)).
  rewrite <- (string_of_list_ascii_of_string path), E, string_of_list_ascii_app.
  reflexivity.
Qed.

Lemma os_Stat_same (w w' : World) (path : string) :
  fs w' !! path = fs w !! path ->
  (forall a b, path = a +:+ "/" +:+ b -> fs w' !! a = fs w !! a) ->
  os_Stat w' path = os_Stat w path.
Proof.
  intros Here Dirs. unfold os_Stat, absent_errno.
  rewrite Here, (path_errno_same _ _ _ Dirs). reflexivity.
Qed.

(** A sidecar is no directory on the path of the table file, of the
    configuration file or of their temporary files: it is longer. *)
Lemma off_sidecars_Stat (t : Table) (w w' : World) (path : string) :
  off_sidecars t w w' ->
  (String.length path
   <= String.length (SchemaPath t +:+ "/" +:+ TableName t) + 11)%nat ->
  (forall fieldName, path <> refFilePath_of (SchemaPath t) (TableName t) fieldName) ->
  os_Stat w' path = os_Stat w path.
Proof.
  intros Off Short Ne. apply os_Stat_same; [apply Off; exact Ne |].
  intros a b E. apply Off. intros fieldName Ea.
  apply (f_equal String.length) in E. subst a. unfold refFilePath_of in E.
  repeat first [rewrite String_length_app in E
               | progress cbn [String.length String.app fileEnding] in E].
  repeat first [rewrite String_length_app in Short
               | progress cbn [String.length String.app] in Short].
  lia.
Qed.

Lemma off_sidecars_refl t w : off_sidecars t w w.
Proof. intros path _. reflexivity. Qed.

Lemma off_sidecars_trans t w1 w2 w3 :
  off_sidecars t w1 w2 -> off_sidecars t w2 w3 -> off_sidecars t w1 w3.
Proof. intros A B path Ne. rewrite (B path Ne). apply A. exact Ne. Qed.

Lemma only_sidecars_refl t w : only_sidecars t w w.
Proof. intros path _. reflexivity. Qed.

Lemma only_sidecars_trans t w1 w2 w3 :
  only_sidecars t w1 w2 -> only_sidecars t w2 w3 -> only_sidecars t w1 w3.
Proof. intros A B path Ne. rewrite (B path Ne). apply A. exact Ne. Qed.

Lemma only_sidecars_off t w w' : only_sidecars t w w' -> off_sidecars t w w'.
Proof. intros Only path Ne. apply Only. intros field _ _. apply Ne. Qed.

Section Sidecars.

Context `{GoRuntime}.

Lemma WriteRefData_one_file (schema tableName fieldName value : string)
    (w w' : World) (r r' : Record_) (res : result unit) :
  WriteRefData schema tableName fieldName value (w, r) = (res, (w', r')) ->
  (forall path, path <> refFilePath_of schema tableName fieldName ->
     fs w' !! path = fs w !! path)
  /\ transactionCounter w' = transactionCounter w
  /\ recordIDCounter w' = recordIDCounter w.
Proof.
  unfold WriteRefData, os_OpenAppend, file_Write.
  set (path := refFilePath_of _ _ _).
  destruct (fs w !! path) as [[| c] |] eqn:L.
  - intros [= <- <- <-]. repeat split.
  - rewrite L. intros [= <- <- <-]. split; [| split; reflexivity].
    intros p Ne. cbn. apply lookup_insert_ne. intros E. apply Ne. symmetry. exact E.
  - destruct (path_errno (fs w) path).
    + intros [= <- <- <-]. repeat split.
    + cbn [fs set_fs]. rewrite lookup_insert_eq. intros [= <- <- <-].
      split; [| split; reflexivity].
      intros p Ne. cbn. rewrite !lookup_insert_ne; [reflexivity | |];
        intros E; apply Ne; symmetry; exact E.
Qed.

Lemma WriteRefData_off_sidecars (t : Table) (fieldName value : string)
    (w w' : World) (r r' : Record_) (res : result unit) :
  WriteRefData (SchemaPath t) (TableName t) fieldName value (w, r) = (res, (w', r')) ->
  off_sidecars t w w'
  /\ transactionCounter w' = transactionCounter w
  /\ recordIDCounter w' = recordIDCounter w.
Proof.
  intros W. apply WriteRefData_one_file in W. destruct W as (One & T & R).
  split; [| split; assumption]. intros path Ne. apply One, Ne.
Qed.

Lemma write_ref_fields_only_sidecars (t : Table) (data : gmap string value)
    (fields : list Field) :
  (forall field, In field fields -> In field (Fields t)) ->
  forall (w w' : World) (r r' : Record_) (res : result unit),
    write_ref_fields t fields data (w, r) = (res, (w', r')) ->
    only_sidecars t w w'.
Proof.
  induction fields as [| field rest IH]; intros Sub w w' r r' res;
    cbn [write_ref_fields].
  - intros [= <- <- <-]. apply only_sidecars_refl.
  - assert (forall field0, In field0 rest -> In field0 (Fields t)) as Sub'
      by (intros field0 I; apply Sub; right; exact I).
    destruct (String.eqb_spec (Type_ field) "ref") as [Ref |]; [| apply IH, Sub'].
    destruct (data !! Name field) as [[| | | | s |] |]; try apply IH, Sub';
      try (intros [= <- <- <-]; apply only_sidecars_refl).
    unfold st_bind.
    destruct (WriteRefData _ _ _ _ (w, r)) as [[[] | e | p] [w1 r1]] eqn:W;
      apply WriteRefData_one_file in W; destruct W as (One & _);
      assert (only_sidecars t w w1) as O1
        by (intros path Ne; apply One, Ne; [apply Sub; left; reflexivity | exact Ref]).
    + intros E. apply IH in E; [| exact Sub'].
      eapply only_sidecars_trans; eassumption.
    + intros [= <- <- <-]. exact O1.
    + intros [= <- <- <-]. exact O1.
Qed.

Lemma GetAllRecords_same_file (t : Table) (w w' : World) :
  fs w' !! (SchemaPath t +:+ "/" +:+ TableName t +:+ fileEnding)
  = fs w !! (SchemaPath t +:+ "/" +:+ TableName t +:+ fileEnding) ->
  os_Stat w' (SchemaPath t +:+ "/" +:+ TableName t +:+ fileEnding)
  = os_Stat w (SchemaPath t +:+ "/" +:+ TableName t +:+ fileEnding) ->
  GetAllRecords t w' = (fst (GetAllRecords t w), w').
Proof.
  intros Same Stat. unfold GetAllRecords, os_IsNotExist. rewrite Stat.
  destruct (bool_decide _); [reflexivity |].
  unfold st_bind, st_wrap, st_lift, os_ReadFile. unfold os_Stat in Stat.
  rewrite Same in *.
  destruct (fs w !! _) as [[| c] |]; cbn; try reflexivity.
  injection Stat as ->. reflexivity.
Qed.

(** The table file reads the same when only sidecars have changed. *)
Lemma GetAllRecords_off_sidecars (t : Table) (w w' : World) :
  off_sidecars t w w' -> GetAllRecords t w' = (fst (GetAllRecords t w), w').
Proof.
  intros Off.
  assert (forall fieldName,
             SchemaPath t +:+ "/" +:+ TableName t +:+ fileEnding
             <> refFilePath_of (SchemaPath t) (TableName t) fieldName) as Ne.
  { intros fieldName E. symmetry in E. revert E. apply sidecar_not_table. }
  apply GetAllRecords_same_file; [apply Off; exact Ne |].
  apply (off_sidecars_Stat t w w' _ Off); [| exact Ne].
  repeat first [rewrite String_length_app
               | progress cbn [String.length String.app fileEnding]].
  lia.
Qed.

End Sidecars.

Section Isolation.

Context `{GoRuntime}.

Lemma WriteRefData_record schema tableName fieldName value w r res w' r' :
  WriteRefData schema tableName fieldName value (w, r) = (res, (w', r')) ->
  ID r' = ID r /\ Metadata r' = Metadata r
  /\ FieldsData r' = FieldsData r /\ FieldsMeta r' = FieldsMeta r.
Proof.
  unfold WriteRefData.
  destruct (os_OpenAppend _ w) as [[start | e | p] w1];
    try (intros [= <- <- <-]; repeat split).
  destruct (file_Write _ _ w1) as [[u | e | p] w2]; intros [= <- <- <-]; repeat split.
Qed.

Lemma write_ref_fields_record table fields data :
  forall w r res w' r',
    write_ref_fields table fields data (w, r) = (res, (w', r')) ->
    ID r' = ID r /\ Metadata r' = Metadata r
    /\ FieldsData r' = FieldsData r /\ FieldsMeta r' = FieldsMeta r.
Proof.
  induction fields as [| field rest IH]; intros w r res w' r'; cbn.
  - intros [= <- <- <-]. repeat split.
  - destruct (String.eqb (Type_ field) "ref"); [| apply IH].
    destruct (data !! Name field) as [[| n | n | f | strValue | b] |];
      try apply IH; try (intros [= <- <- <-]; repeat split).
    unfold st_bind.
    destruct (WriteRefData _ _ _ _ (w, r)) as [res1 [w1 r1]] eqn:E1.
    apply WriteRefData_record in E1. destruct E1 as (I1 & M1 & D1 & F1).
    destruct res1 as [u | e | p]; try (intros [= <- <- <-]; repeat split; assumption).
    intros E2. apply IH in E2. destruct E2 as (I2 & M2 & D2 & F2).
    repeat split; congruence.
Qed.

Lemma find_field_In (fields : list Field) (field : string) (fieldDef : Field) :
  find_field fields field = Some fieldDef -> In fieldDef fields /\ Name fieldDef = field.
Proof.
  unfold find_field. intros F. apply find_some in F. destruct F as [I E].
  split; [exact I |]. apply String.eqb_eq. exact E.
Qed.

Lemma apply_update_only_sidecars (t : Table) (field : string) (value : value)
    (w w' : World) (r r' : Record_) (res : result unit) :
  apply_update t field value (w, r) = (res, (w', r')) -> only_sidecars t w w'.
Proof.
  unfold apply_update.
  destruct (find_field (Fields t) field) as [fieldDef |] eqn:F;
    [| intros [= <- <- <-]; apply only_sidecars_refl].
  apply find_field_In in F. destruct F as [I <-].
  destruct (String.eqb_spec (Type_ fieldDef) "ref") as [Ref |].
  - destruct value; try (intros [= <- <- <-]; apply only_sidecars_refl).
    destruct (WriteRefData _ _ _ _ (w, r)) as [[[] | e | p] [w1 r1]] eqn:W;
      apply WriteRefData_one_file in W; destruct W as [One _];
      intros [= <- <- <-]; intros path Ne; apply One, Ne; assumption.
  - destruct value; intros [= <- <- <-]; apply only_sidecars_refl.
Qed.

Lemma apply_updates_only_sidecars (t : Table) (updates : list (string * value)) :
  forall (w w' : World) (r r' : Record_) (res : result unit),
    apply_updates t updates (w, r) = (res, (w', r')) -> only_sidecars t w w'.
Proof.
  induction updates as [| [field value] rest IH]; intros w w' r r' res; cbn [apply_updates].
  - intros [= <- <- <-]. apply only_sidecars_refl.
  - unfold st_bind.
    destruct (apply_update t field value (w, r)) as [[[] | e | p] [w1 r1]] eqn:U;
      apply apply_update_only_sidecars in U.
    + intros E. apply IH in E. eapply only_sidecars_trans; eassumption.
    + intros [= <- <- <-]. exact U.
    + intros [= <- <- <-]. exact U.
Qed.

Lemma StageInsert_only_sidecars (now : Z) (t : Table) (data : gmap string value)
    (w w' : World) (tx tx' : Transaction) (res : result Record_) :
  StageInsert now t data (w, tx) = (res, (w', tx')) -> only_sidecars t w w'.
Proof.
  unfold StageInsert.
  destruct (negb _); [intros [= <- <- <-]; apply only_sidecars_refl |].
  match goal with
  | |- context [write_ref_fields ?t ?f ?d ?s] =>
      destruct (write_ref_fields t f d s) as [res1 [w1 r1]] eqn:E
  end.
  apply write_ref_fields_only_sidecars in E; [| intros field I; exact I].
  assert (only_sidecars t w w1) as O by exact E.
  destruct res1; intros [= <- <- <-]; exact O.
Qed.

Lemma StageUpdate_only_sidecars (now : Z) (t : Table) (updates : list (string * value))
    (w w' : World) (tx tx' : Transaction) (record record' : Record_)
    (res : result Record_) :
  StageUpdate now t updates (w, tx, record) = (res, (w', tx', record')) ->
  only_sidecars t w w'.
Proof.
  unfold StageUpdate.
  destruct (negb _); [intros [= <- <- <- <-]; apply only_sidecars_refl |].
  destruct (lock_if_needed t (tx, record)) as [[[] | e | p] [tx1 record1]];
    try (intros [= <- <- <- <-]; apply only_sidecars_refl).
  destruct (Clone now (TxID tx1) record1) as [staging | e | p];
    try (intros [= <- <- <- <-]; apply only_sidecars_refl).
  destruct (apply_updates t updates (w, staging)) as [res1 [w1 s1]] eqn:E.
  apply apply_updates_only_sidecars in E.
  destruct res1; intros [= <- <- <- <-]; exact E.
Qed.

Lemma StageInsert_off_sidecars (now : Z) (t : Table) (data : gmap string value)
    (w w' : World) (tx tx' : Transaction) (res : result Record_) :
  StageInsert now t data (w, tx) = (res, (w', tx')) -> off_sidecars t w w'.
Proof. intros E. eapply only_sidecars_off, StageInsert_only_sidecars, E. Qed.

Lemma StageUpdate_off_sidecars (now : Z) (t : Table) (updates : list (string * value))
    (w w' : World) (tx tx' : Transaction) (record record' : Record_)
    (res : result Record_) :
  StageUpdate now t updates (w, tx, record) = (res, (w', tx', record')) ->
  off_sidecars t w w'.
Proof. intros E. eapply only_sidecars_off, StageUpdate_only_sidecars, E. Qed.

(** The directory of an entry: the text before the slash that comes
    before a name without slashes. *)
Lemma dir_of_aux_slash_free (cs : list ascii) : ~ In slash cs -> dir_of_aux cs = None.
Proof.
  induction cs as [| c rest IH]; intros Free; [reflexivity |]. cbn [dir_of_aux].
  rewrite IH by (intros I; apply Free; right; exact I).
  destruct (Ascii.eqb_spec c slash) as [-> |]; [| reflexivity].
  exfalso. apply Free. left. reflexivity.
Qed.

Lemma dir_of_entry (dir entry : string) :
  slash_free entry -> dir_of (dir +:+ "/" +:+ entry) = Some dir.
Proof.
  intros Free. unfold dir_of. rewrite list_ascii_of_string_app.
  change (list_ascii_of_string ("/" +:+ entry)) with (slash :: list_ascii_of_string entry).
  assert (dir_of_aux (list_ascii_of_string dir ++ slash :: list_ascii_of_string entry)
          = Some (list_ascii_of_string dir)) as ->.
  { induction (list_ascii_of_string dir) as [| c rest IH]; cbn [app dir_of_aux].
    - rewrite (dir_of_aux_slash_free _ Free). reflexivity.
    - rewrite IH. reflexivity. }
  cbn. rewrite string_of_list_ascii_of_string. reflexivity.
Qed.

Lemma slash_free_app (a b : string) : slash_free a -> slash_free b -> slash_free (a +:+ b).
Proof.
  unfold slash_free. rewrite list_ascii_of_string_app, in_app_iff. tauto.
Qed.

(** X23: for a table whose name and field names hold no slash, staging an
    insert or an update, whether it succeeds or fails, changes no file but
    sidecars of ref fields of the table, which are entries of the schema
    directory other than the table file; so [GetAllRecords] on the world
    reached returns what it returned before the staging. *)
Theorem staging_is_invisible_to_readers (now : Z) (t : Table) (w w' : World)
    (tx tx' : Transaction) :
  plain_names t ->
  (exists data res, StageInsert now t data (w, tx) = (res, (w', tx')))
  \/ (exists updates record record' res,
        StageUpdate now t updates (w, tx, record) = (res, (w', tx', record'))) ->
  GetAllRecords t w' = (fst (GetAllRecords t w), w')
  /\ forall path,
       fs w' !! path <> fs w !! path ->
       path <> SchemaPath t +:+ "/" +:+ TableName t +:+ fileEnding
       /\ dir_of path = Some (SchemaPath t)
       /\ exists field,
            In field (Fields t) /\ Type_ field = "ref"%string
            /\ path = refFilePath_of (SchemaPath t) (TableName t) (Name field).
Proof.
  intros [PlainT PlainF] Staged.
  assert (only_sidecars t w w') as Only.
  { destruct Staged as [(data & res & E) | (updates & record & record' & res & E)].
    - eapply StageInsert_only_sidecars, E.
    - eapply StageUpdate_only_sidecars, E. }
  split; [apply GetAllRecords_off_sidecars, only_sidecars_off, Only |].
  intros path Changed.
  assert (exists field,
             In field (Fields t) /\ Type_ field = "ref"%string
             /\ path = refFilePath_of (SchemaPath t) (TableName t) (Name field))
    as (field & I & Ref & ->).
  { clear - Only Changed. unfold only_sidecars in Only. specialize (Only path).
    induction (Fields t) as [| field rest IH].
    - exfalso. apply Changed, Only. intros field [].
    - destruct (decide (Type_ field = "ref"%string
                        /\ path = refFilePath_of (SchemaPath t) (TableName t) (Name field)))
        as [[Ref E] | No].
      + exists field. split; [left; reflexivity | split; assumption].
      + destruct IH as (field0 & I & Ref & E).
        * intros Rest. apply Only. intros field0 [<- | I] Ref E; [tauto |].
          exact (Rest field0 I Ref E).
        * exists field0. split; [right; exact I | split; assumption]. }
  split; [apply sidecar_not_table |]. split.
  - unfold refFilePath_of. apply dir_of_entry.
    rewrite Forall_forall in PlainF.
    apply slash_free_app; [exact PlainT |].
    apply slash_free_app; [cbv; intuition discriminate |].
    apply slash_free_app; [apply PlainF, list_elem_of_In; exact I |].
    apply slash_free_app; cbv; intuition discriminate.
  - exists field. repeat split; assumption.
Qed.

Lemma GetTable_off_sidecars (tableName mainPath : string) (t : Table) (w w' : World) :
  GetTable tableName mainPath w = (Ok t, w) ->
  off_sidecars t w w' ->
  GetTable tableName mainPath w' = (Ok t, w').
Proof.
  unfold GetTable.
  destruct (match Split_colon tableName with
            | p0 :: p1 :: _ => (p0, p1)
            | _ => ("testSchema"%string, tableName)
            end) as [schemaName tableNameOnly].
  set (schemaPath := mainPath +:+ "/" +:+ schemaName).
  set (conf := schemaPath +:+ "/" +:+ tableNameOnly +:+ ".conf" +:+ fileEnding).
  destruct (os_IsNotExist w schemaPath) eqn:S; [discriminate |].
  destruct (os_IsNotExist w conf) eqn:C; [discriminate |].
  unfold st_bind, st_wrap, st_lift, st_ret, os_ReadFile.
  destruct (fs w !! conf) as [[| c] |] eqn:LC; try discriminate;
    try (destruct (path_errno (fs w) conf); discriminate).
  destruct (decode_json c) as [table | e | p] eqn:D; try discriminate.
  intros [= <-] Off.
  assert (os_IsNotExist w' schemaPath = false) as ->.
  { unfold os_IsNotExist in *. rewrite (off_sidecars_Stat _ _ _ _ Off); [exact S | |].
    - cbn [SchemaPath TableName]. rewrite !String_length_app. lia.
    - cbn [SchemaPath TableName]. intros fieldName E.
      symmetry in E. revert E. apply sidecar_not_dir. }
  assert (fs w' !! conf = fs w !! conf) as LC'.
  { apply Off. intros fieldName E. symmetry in E. revert E.
    unfold conf.
    replace (schemaPath +:+ "/" +:+ tableNameOnly +:+ ".conf" +:+ fileEnding)
      with ((schemaPath +:+ "/" +:+ tableNameOnly) +:+ ".conf" +:+ fileEnding)
      by (rewrite !String_app_assoc; reflexivity).
    apply sidecar_not_conf. }
  rewrite LC in LC'. rewrite (os_IsNotExist_present _ _ _ LC'), LC'.
  cbn. rewrite D. reflexivity.
Qed.

End Isolation.

Section Insert.

Context `{GoRuntime}.

Lemma InsertRecord_written (now : Z) (t : Table) (data : gmap string value)
    (w w' : World) (tm tm' : TableManager) (r : Record_) :
  GetTable (TableName t) (mainPath (tm_db tm)) w = (Ok t, w) ->
  Forall (fun field => readable field = true) (Fields t) ->
  fits (Fields t) ->
  InsertRecord now t data (w, tm) = (Ok r, (w', tm')) ->
  exists old stored,
    GetAllRecords t w = (Ok old, w)
    /\ GetAllRecords t w' = (Ok stored, w')
    /\ Forall2 (reread (Fields t)) (demote_existing [r] old ++ [r]) stored
    /\ ID r = to_int64 (now + to_int64 (recordIDCounter w + 1))
    /\ Metadata r = mkRecordMetadata true false false 0
    /\ FieldsData r = data ∪ {[ "id"%string := VInt64 (ID r) ]}
    /\ transactions tm' = transactions tm ∖ {[ to_uint64 (transactionCounter w + 1) ]}.
Proof.
  intros Found All Small. unfold InsertRecord, BeginTransaction, NewTransaction.
  set (txid := to_uint64 (transactionCounter w + 1)).
  set (tx := mkTransaction txid TransactionActive ∅ ∅ (tm_db tm)).
  set (w0 := mkWorld (fs w) txid (recordIDCounter w)).
  destruct (StageInsert now t data (w0, tx)) as [[record | e | p] [w2 tx2]] eqn:Stage;
    [| destruct (rollback_quietly _ _ _); discriminate | discriminate].
  pose proof (StageInsert_off_sidecars _ _ _ _ _ _ _ _ Stage) as Off.
  assert (off_sidecars t w w2) as Off' by exact Off.
  unfold StageInsert in Stage. cbn [negb bool_decide Status tx] in Stage.
  rewrite bool_decide_eq_true_2 in Stage by reflexivity. cbn [negb] in Stage.
  match type of Stage with
  | context [write_ref_fields ?t ?f ?d ?s] =>
      destruct (write_ref_fields t f d s) as [[[] | e | p] [w1 r1]] eqn:Refs;
      try discriminate Stage
  end.
  apply write_ref_fields_record in Refs. destruct Refs as (RI & RM & RD & RF).
  injection Stage as <- <- <-.
  unfold CommitTransaction. cbn [TxID stage set_StagedRecords tx transactions].
  rewrite bool_decide_eq_true_2 by set_solver. cbn [negb].
  unfold Commit. cbn [Status]. rewrite bool_decide_eq_true_2 by reflexivity. cbn [negb].
  assert (map_to_list (StagedRecords (stage t r1 tx)) = [(TableName t, [r1])]) as ->.
  { unfold stage, tx. cbn [StagedRecords set_StagedRecords].
    rewrite lookup_empty. cbn [default app].
    rewrite insert_empty. apply map_to_list_singleton. }
  cbn [commit_tables]. unfold st_bind at 1. unfold commit_table at 1.
  cbn [db stage set_StagedRecords tx].
  rewrite (GetTable_off_sidecars _ _ _ _ _ Found Off').
  assert (GetAllRecords t w1 = (fst (GetAllRecords t w), w1)) as Read.
  { apply GetAllRecords_off_sidecars, Off'. }
  rewrite Read.
  destruct (GetAllRecords t w) as [[old | e | p] wr] eqn:Before; cbn [fst];
    try discriminate.
  assert (wr = w) as ->.
  { destruct (GetAllRecords_Forall (fun _ => True) _ _ _ _ (fun _ _ _ => I) Before)
      as [_ E]. exact E. }
  destruct (WriteRecords t _ w1) as [[[] | e | p] w3] eqn:Write; try discriminate.
  apply WriteRecords_reread in Write; [| exact All | exact Small].
  destruct Write as (stored & After & Same & _).
  unfold st_ret. cbn [TxID set_Status set_StagedRecords]. intros [= <- <- <-].
  exists old, stored. split; [reflexivity |]. split; [exact After |].
  split; [exact Same |].
  unfold mark_committed. cbn [ID Metadata FieldsData set_Metadata transactions].
  rewrite RI, RM, RD. cbn [ID Metadata FieldsData NewRecord set_Metadata set_IsLocked
                             set_TransactionID set_IsCurrent IsCurrent IsDeleted IsLocked
                             TransactionID].
  split; [reflexivity |]. split; [reflexivity |]. split; [reflexivity |].
  apply set_eq. intros x.
  rewrite !elem_of_difference, elem_of_union, elem_of_singleton. tauto.
Qed.

(** X24: for a table whose name and field names hold no slash, that is the
    one its bare name resolves to, whose fields are wide enough for their
    types and whose record size is below 2^63, when [InsertRecord] succeeds
    the table could be read before, and reading it afterwards gives the
    records it held (any of them whose "id" value equals the new record's
    demoted) followed by the new record, each as the decoding of its
    encoding; the record returned has the id clock + counter, is current,
    unlocked and carries the data given with its id; and the transaction
    it ran in is no longer registered. *)
Theorem InsertRecord_appends (now : Z) (t : Table) (data : gmap string value)
    (w w' : World) (tm tm' : TableManager) (r : Record_) :
  plain_names t ->
  GetTable (TableName t) (mainPath (tm_db tm)) w = (Ok t, w) ->
  Forall (fun field => readable field = true) (Fields t) ->
  fits (Fields t) ->
  InsertRecord now t data (w, tm) = (Ok r, (w', tm')) ->
  exists old stored,
    GetAllRecords t w = (Ok old, w)
    /\ GetAllRecords t w' = (Ok stored, w')
    /\ Forall2 (reread (Fields t)) (demote_existing [r] old ++ [r]) stored
    /\ ID r = to_int64 (now + to_int64 (recordIDCounter w + 1))
    /\ Metadata r = mkRecordMetadata true false false 0
    /\ FieldsData r = data ∪ {[ "id"%string := VInt64 (ID r) ]}
    /\ transactions tm' = transactions tm ∖ {[ to_uint64 (transactionCounter w + 1) ]}.
Proof. intros _. apply InsertRecord_written. Qed.

End Insert.

(** ** Compaction of a table *)

Section CleanupTable.

Context `{GoRuntime}.

Lemma compact_refs_other_files (tempRefPath fieldName : string) (refData : list Z)
    (records : list Record_) :
  forall (offsetMap : gmap (Z * Z) (Z * Z)) (currentOffset : Z) (w w' : World)
         (res : result (list Record_)),
    compact_refs tempRefPath fieldName refData records offsetMap currentOffset w
    = (res, w') ->
    forall path, path <> tempRefPath -> fs w' !! path = fs w !! path.
Proof.
  induction records as [| record rest IH]; intros offsetMap currentOffset w w' res;
    cbn [compact_refs].
  - intros [= <- <-] path _. reflexivity.
  - assert (forall m o (w1 w2 : World) (res1 : result (list Record_)) (r : Record_),
              (rest' <~ compact_refs tempRefPath fieldName refData rest m o ;;
               st_ret (r :: rest'))%st w1 = (res1, w2) ->
              forall path, path <> tempRefPath -> fs w2 !! path = fs w1 !! path) as Tail.
    { intros m o w1 w2 res1 r. unfold st_bind, st_ret.
      destruct (compact_refs _ _ _ rest m o w1) as [[rs | e | p] w3] eqn:E;
        intros [= <- <-]; eapply IH; exact E. }
    destruct (RefOffsets record !! fieldName) as [[start end_] |]; [| apply Tail].
    destruct (offsetMap !! (start, end_)) as [new |]; [apply Tail |].
    destruct ((start <? 0) || _ || _); [apply Tail |].
    unfold st_bind at 1, st_wrap, file_Write.
    destruct (fs w !! tempRefPath) as [[| c] |] eqn:L;
      try (intros [= <- <-] path _; reflexivity).
    intros E path Ne. apply Tail with (path := path) in E; [| exact Ne].
    rewrite E. cbn. apply lookup_insert_ne. congruence.
Qed.

Lemma os_Create_other_files (path : string) (w w' : World) (res : result unit) :
  os_Create path w = (res, w') ->
  forall p, p <> path -> fs w' !! p = fs w !! p.
Proof.
  unfold os_Create.
  destruct (fs w !! path) as [[| c] |]; try destruct (path_errno _ _);
    intros [= <- <-] p Ne; cbn; rewrite ?lookup_insert_ne by congruence; reflexivity.
Qed.

Lemma os_Rename_other_files (oldpath newpath : string) (w w' : World) (res : result unit) :
  os_Rename oldpath newpath w = (res, w') ->
  forall p, p <> oldpath -> p <> newpath -> fs w' !! p = fs w !! p.
Proof.
  unfold os_Rename.
  destruct (fs w !! oldpath) as [n |]; [| intros [= <- <-]; reflexivity].
  destruct (fs w !! newpath) as [[| c] |]; try destruct (path_errno _ _);
    intros [= <- <-] p Ne1 Ne2; cbn;
    rewrite ?lookup_insert_ne, ?lookup_delete_ne by congruence; reflexivity.
Qed.

Lemma st_wrap_world {S A : Type} (f : string -> string) (m : St S A) (s s' : S)
    (res : result A) :
  st_wrap f m s = (res, s') -> exists res0, m s = (res0, s').
Proof.
  unfold st_wrap. destruct (m s) as [[a | e | p] s1]; intros [= <- <-]; eexists; reflexivity.
Qed.

Lemma cleanupRefField_other_files (db : HTDB) (schema tableName fieldName : string)
    (records : list Record_) (w w' : World) (res : result (list Record_)) :
  cleanupRefField db schema tableName fieldName records w = (res, w') ->
  forall path,
    path <> filepath_Join [mainPath db; schema;
                           tableName +:+ "." +:+ fieldName +:+ ".data" +:+ fileEnding] ->
    path <> filepath_Join [mainPath db; schema;
                           tableName +:+ "." +:+ fieldName +:+ ".data" +:+ fileEnding]
            +:+ ".temp" ->
    fs w' !! path = fs w !! path.
Proof.
  unfold cleanupRefField. set (refFilePath := filepath_Join _).
  destruct (os_IsNotExist w refFilePath); [intros [= <- <-]; reflexivity |].
  unfold st_bind at 1, st_wrap at 1, os_ReadFile.
  destruct (fs w !! refFilePath) as [[| c] |]; try (intros [= <- <-]; reflexivity).
  destruct (bool_decide _); [intros [= <- <-]; reflexivity |].
  unfold st_bind at 1.
  destruct (st_wrap _ (os_Create (refFilePath +:+ ".temp")) w) as [res1 w1] eqn:C.
  apply st_wrap_world in C. destruct C as [res0 C].
  pose proof (os_Create_other_files _ _ _ _ C) as K1.
  destruct res1 as [[] | e | p]; try (intros [= <- <-] path _ Ne2; apply K1; exact Ne2).
  unfold st_bind at 1.
  destruct (compact_refs _ _ _ _ _ _ _) as [res2 w2] eqn:Compact.
  pose proof (compact_refs_other_files _ _ _ _ _ _ _ _ _ Compact) as K2.
  destruct res2 as [records' | e | p];
    try (intros [= <- <-] path _ Ne2; rewrite (K2 path Ne2); apply K1; exact Ne2).
  unfold st_bind at 1.
  destruct (st_wrap _ (os_Rename (refFilePath +:+ ".temp") refFilePath) w2)
    as [res3 w3] eqn:Rn.
  apply st_wrap_world in Rn. destruct Rn as [res0' Rn].
  pose proof (os_Rename_other_files _ _ _ _ _ Rn) as K3.
  destruct res3 as [[] | e | p]; unfold st_ret; intros [= <- <-] path Ne1 Ne2;
    rewrite (K3 path Ne2 Ne1), (K2 path Ne2); apply K1; exact Ne2.
Qed.

Lemma table_file_is_no_sidecar (mainPath schema tableName fieldName : string) :
  let tablePath := filepath_Join [mainPath; schema] +:+ "/" +:+ tableName +:+ fileEnding in
  let sidecar :=
    filepath_Join [mainPath; schema;
                   tableName +:+ "." +:+ fieldName +:+ ".data" +:+ fileEnding] in
  tablePath <> sidecar /\ tablePath <> sidecar +:+ ".temp".
Proof.
  cbn [filepath_Join fold_left].
  split; intros E; apply (f_equal String.length) in E;
    rewrite !String_length_app in E; cbn in E; lia.
Qed.

Lemma cleanup_ref_fields_table_file (db : HTDB) (schema tableName : string)
    (fields : list Field) :
  forall (records : list Record_) (w w' : World) (res : result unit),
    cleanup_ref_fields db schema tableName fields records w = (res, w') ->
    fs w' !! (filepath_Join [mainPath db; schema] +:+ "/" +:+ tableName +:+ fileEnding)
    = fs w !! (filepath_Join [mainPath db; schema] +:+ "/" +:+ tableName +:+ fileEnding).
Proof.
  induction fields as [| field rest IH]; intros records w w' res; cbn [cleanup_ref_fields].
  - intros [= <- <-]. reflexivity.
  - destruct (String.eqb (Type_ field) "ref"); [| apply IH].
    destruct (cleanupRefField db schema tableName (Name field) records w)
      as [[records' | e | p] w1] eqn:E;
      pose proof (cleanupRefField_other_files _ _ _ _ _ _ _ _ E _
                    (proj1 (table_file_is_no_sidecar _ _ _ _))
                    (proj2 (table_file_is_no_sidecar _ _ _ _))) as Keep.
    + intros E2. apply IH in E2. congruence.
    + intros E2. apply IH in E2. congruence.
    + intros [= <- <-]. exact Keep.
Qed.

(** X12: for a table whose configuration file decodes to a table of the
    same name, whose name and field names hold no slash, whose fields are
    wide enough for their types and whose record size is below 2^63, when
    [cleanupTable] succeeds either every record of the table file was
    current and not deleted and the world is unchanged, or the table file
    holds afterwards exactly the records that were current and not
    deleted, in their order, each one the decoding of its encoding. *)
Theorem cleanupTable_keeps_current_records (db : HTDB) (schema tableName : string)
    (conf : content) (t : Table) (w w' : World) :
  fs w !! filepath_Join [mainPath db; schema; tableName +:+ ".conf" +:+ fileEnding]
  = Some (File conf) ->
  decode_json conf = Ok t ->
  TableName t = tableName ->
  plain_names t ->
  Forall (fun field => readable field = true) (Fields t) ->
  fits (Fields t) ->
  cleanupTable db schema tableName w = (Ok tt, w') ->
  exists old stored,
    GetAllRecords (mkTable tableName (Fields t) (filepath_Join [mainPath db; schema])) w
    = (Ok old, w)
    /\ GetAllRecords (mkTable tableName (Fields t) (filepath_Join [mainPath db; schema])) w'
       = (Ok stored, w')
    /\ (List.filter is_current old = old /\ w' = w /\ stored = old
        \/ List.filter is_current old <> old
           /\ Forall2 (reread (Fields t)) (List.filter is_current old) stored).
Proof.
  intros Conf Decoded Name _ All Small. unfold cleanupTable.
  unfold st_bind at 1, st_wrap at 1, os_ReadFile. rewrite Conf.
  unfold st_bind at 1, st_wrap at 1, st_lift at 1. rewrite Decoded.
  rewrite Name.
  set (table := mkTable tableName (Fields t) (filepath_Join [mainPath db; schema])).
  unfold st_bind at 1, st_wrap at 1.
  destruct (GetAllRecords table w) as [[old | e | p] wr] eqn:Before; try discriminate.
  assert (wr = w) as ->.
  { destruct (GetAllRecords_Forall (fun _ => True) _ _ _ _ (fun _ _ _ => I) Before)
      as [_ E]. exact E. }
  cbn [Fields].
  destruct (Nat.eqb_spec (length (List.filter is_current old)) (length old)) as [Same | Less].
  - intros [= <-]. exists old, old. split; [reflexivity |]. split; [exact Before |].
    left. split; [| split; reflexivity].
    clear - Same. induction old as [| r old IH]; [reflexivity |].
    cbn in Same |- *. destruct (is_current r).
    + cbn in Same. f_equal. apply IH. lia.
    + pose proof (filter_length_le is_current old). lia.
  - set (tablePath := filepath_Join [mainPath db; schema; tableName +:+ fileEnding]).
    unfold st_bind at 1.
    destruct (st_wrap _ (os_Create (tablePath +:+ ".temp")) w) as [[[] | e | p] w1] eqn:C;
      try discriminate.
    unfold st_bind at 1.
    destruct (write_records (tablePath +:+ ".temp") (Fields table)
                (List.filter is_current old) w1)
      as [[[] | e | p] w2] eqn:Wr; try discriminate.
    unfold st_bind at 1.
    destruct (st_wrap _ (os_Rename (tablePath +:+ ".temp") tablePath) w2)
      as [[[] | e | p] w3] eqn:Rn; try discriminate.
    intros Refs.
    assert (WriteRecords table (List.filter is_current old) w = (Ok tt, w3)) as Write.
    { unfold WriteRecords.
      change (SchemaPath table +:+ "/" +:+ TableName table +:+ fileEnding) with tablePath.
      unfold st_bind at 1. rewrite C. unfold st_bind at 1. rewrite Wr. exact Rn. }
    apply WriteRecords_reread in Write; [| exact All | exact Small].
    destruct Write as (stored & After & Reread & Len & _).
    apply cleanup_ref_fields_table_file in Refs.
    exists old, stored. split; [reflexivity |]. split.
    + rewrite (GetAllRecords_same_file table w3 w');
        [rewrite After; reflexivity | exact Refs |].
      unfold os_Stat. cbn [SchemaPath TableName table]. rewrite Refs.
      unfold file_length in Len. cbn [SchemaPath TableName table] in Len.
      destruct (fs w3 !! _) as [n |]; [reflexivity | discriminate Len].
    + right. split; [| exact Reread]. intros E. apply Less. rewrite E. reflexivity.
Qed.

End CleanupTable.

(** ** The caller's record after an update or a delete *)

Section CallersRecord.

Context `{GoRuntime}.

Lemma os_Create_transactionCounter path w res w' :
  os_Create path w = (res, w') -> transactionCounter w' = transactionCounter w.
Proof.
  unfold os_Create.
  destruct (fs w !! path) as [[| c] |]; try destruct (path_errno _ _);
    intros [= <- <-]; reflexivity.
Qed.

Lemma os_Rename_transactionCounter oldpath newpath w res w' :
  os_Rename oldpath newpath w = (res, w') -> transactionCounter w' = transactionCounter w.
Proof.
  unfold os_Rename.
  destruct (fs w !! oldpath) as [n |]; [| intros [= <- <-]; reflexivity].
  destruct (fs w !! newpath) as [[| c] |]; try destruct (path_errno _ _);
    intros [= <- <-]; reflexivity.
Qed.

Lemma write_records_transactionCounter tempPath fields records :
  forall w res w',
    write_records tempPath fields records w = (res, w') ->
    transactionCounter w' = transactionCounter w.
Proof.
  induction records as [| r rest IH]; intros w res w'; cbn [write_records].
  - intros [= <- <-]. reflexivity.
  - unfold st_bind at 1, st_wrap at 1, st_lift.
    destruct (Serialize r fields) as [bytes | e | p]; try (intros [= <- <-]; reflexivity).
    unfold st_bind at 1, st_wrap at 1, file_Write.
    destruct (fs w !! tempPath) as [[| c] |]; try (intros [= <- <-]; reflexivity).
    intros E. apply IH in E. exact E.
Qed.

Lemma WriteRecords_transactionCounter t records w res w' :
  WriteRecords t records w = (res, w') -> transactionCounter w' = transactionCounter w.
Proof.
  unfold WriteRecords. unfold st_bind at 1.
  destruct (st_wrap _ (os_Create _) w) as [res1 w1] eqn:C.
  apply st_wrap_world in C. destruct C as [r0 C].
  apply os_Create_transactionCounter in C.
  destruct res1 as [[] | e | p]; try (intros [= <- <-]; exact C).
  unfold st_bind at 1.
  destruct (write_records _ _ _ w1) as [res2 w2] eqn:W.
  apply write_records_transactionCounter in W.
  destruct res2 as [[] | e | p]; try (intros [= <- <-]; congruence).
  intros Rn. apply st_wrap_world in Rn. destruct Rn as [r1 Rn].
  apply os_Rename_transactionCounter in Rn. congruence.
Qed.

Lemma commit_table_transactionCounter tableName records w tx res w' tx' :
  commit_table tableName records (w, tx) = (res, (w', tx')) ->
  transactionCounter w' = transactionCounter w.
Proof.
  unfold commit_table.
  destruct (GetTable tableName _ w) as [rt w1] eqn:G.
  apply GetTable_world in G. subst w1.
  destruct rt as [table | e | p]; try (intros [= <- <- <-]; reflexivity).
  destruct (GetAllRecords table w) as [ra w2] eqn:A.
  assert (w2 = w) as ->.
  { pose proof (GetAllRecords_same_file table w w eq_refl eq_refl) as E.
    rewrite A in E. cbn in E. congruence. }
  destruct ra as [existing | e | p]; try (intros [= <- <- <-]; reflexivity).
  destruct (WriteRecords table _ w) as [rw w3] eqn:W.
  apply WriteRecords_transactionCounter in W.
  destruct rw as [[] | e | p]; intros [= <- <- <-]; exact W.
Qed.

Lemma commit_tables_transactionCounter staged :
  forall w tx res w' tx',
    commit_tables staged (w, tx) = (res, (w', tx')) ->
    transactionCounter w' = transactionCounter w.
Proof.
  induction staged as [| [tableName records] rest IH]; intros w tx res w' tx';
    cbn [commit_tables].
  - intros [= <- <- <-]. reflexivity.
  - unfold st_bind.
    destruct (commit_table tableName records (w, tx)) as [r1 [w1 tx1]] eqn:C.
    apply commit_table_transactionCounter in C.
    destruct r1 as [[] | e | p]; try (intros [= <- <- <-]; exact C).
    intros E. apply IH in E. congruence.
Qed.

Lemma Commit_transactionCounter w tx res w' tx' :
  Commit (w, tx) = (res, (w', tx')) -> transactionCounter w' = transactionCounter w.
Proof.
  unfold Commit. destruct (negb _); [intros [= <- <- <-]; reflexivity |].
  destruct (commit_tables _ (w, tx)) as [r1 [w1 tx1]] eqn:C.
  apply commit_tables_transactionCounter in C.
  destruct r1 as [[] | e | p]; intros [= <- <- <-]; exact C.
Qed.

Lemma CommitTransaction_transactionCounter w tm tx res w' tm' tx' :
  CommitTransaction (w, tm, tx) = (res, (w', tm', tx')) ->
  transactionCounter w' = transactionCounter w.
Proof.
  unfold CommitTransaction. destruct (negb _); [intros [= <- <- <- <-]; reflexivity |].
  destruct (Commit (w, tx)) as [r1 [w1 tx1]] eqn:C.
  apply Commit_transactionCounter in C.
  destruct r1 as [[] | e | p]; intros [= <- <- <- <-]; exact C.
Qed.

Lemma apply_update_transactionCounter t field value w r res w' r' :
  apply_update t field value (w, r) = (res, (w', r')) ->
  transactionCounter w' = transactionCounter w.
Proof.
  unfold apply_update.
  destruct (find_field (Fields t) field) as [fieldDef |];
    [| intros [= <- <- <-]; reflexivity].
  destruct (String.eqb (Type_ fieldDef) "ref").
  - destruct value; try (intros [= <- <- <-]; reflexivity).
    destruct (WriteRefData _ _ _ _ (w, r)) as [[[] | e | p] [w1 r1]] eqn:W;
      apply WriteRefData_off_sidecars in W; destruct W as (_ & T & _);
      intros [= <- <- <-]; exact T.
  - destruct value; intros [= <- <- <-]; reflexivity.
Qed.

Lemma apply_updates_transactionCounter t updates :
  forall w r res w' r',
    apply_updates t updates (w, r) = (res, (w', r')) ->
    transactionCounter w' = transactionCounter w.
Proof.
  induction updates as [| [field value] rest IH]; intros w r res w' r'; cbn [apply_updates].
  - intros [= <- <- <-]. reflexivity.
  - unfold st_bind.
    destruct (apply_update t field value (w, r)) as [[[] | e | p] [w1 r1]] eqn:U;
      apply apply_update_transactionCounter in U.
    + intros E. apply IH in E. congruence.
    + intros [= <- <- <-]. exact U.
    + intros [= <- <- <-]. exact U.
Qed.

Lemma lock_if_needed_ok t tx record tx' record' :
  lock_if_needed t (tx, record) = (Ok tt, (tx', record')) ->
  LockedRecords tx = ∅ ->
  holds_lock (TxID tx) record'.
Proof.
  unfold lock_if_needed. intros E Empty. rewrite Empty, lookup_empty in E.
  unfold lockRecordInternal in E.
  destruct (negb _); [discriminate |].
  unfold Lock in E.
  destruct (IsLocked (Metadata record) && _); [discriminate |].
  injection E as <- <-. split; reflexivity.
Qed.

Lemma next_id_differs (c : Z) : to_uint64 (to_uint64 c + 1) <> to_uint64 c.
Proof.
  unfold to_uint64. intros E.
  set (a := c mod 2 ^ 64) in *.
  assert (0 <= a < 2 ^ 64) as R by (apply Z.mod_pos_bound; lia).
  destruct (Z.eq_dec a (2 ^ 64 - 1)) as [-> | Ne].
  - cbn in E. discriminate.
  - rewrite (Z.mod_small (a + 1)) in E by lia. lia.
Qed.

Lemma Rollback_nothing_staged w tx :
  Status tx = TransactionActive -> StagedRecords tx = ∅ ->
  Rollback (w, tx) = (Ok tt, (w, set_Status TransactionRolledBack tx)).
Proof.
  intros Active Empty. unfold Rollback. rewrite Active.
  rewrite bool_decide_eq_true_2 by reflexivity. cbn [negb].
  rewrite Empty, map_to_list_empty. reflexivity.
Qed.

Lemma UpdateRecord_stale_lock now t updates w tm record holder :
  stale_lock holder w record ->
  exists w' tm',
    UpdateRecord now t updates (w, tm, record)
    = (Err (locked_msg holder), (w', tm', record))
    /\ fs w' = fs w.
Proof.
  intros [Held Other]. unfold UpdateRecord, BeginTransaction, NewTransaction.
  set (txid := to_uint64 (transactionCounter w + 1)) in *.
  set (tx := mkTransaction txid TransactionActive ∅ ∅ (tm_db tm)).
  set (w0 := mkWorld (fs w) txid (recordIDCounter w)).
  assert (StageUpdate now t updates (w0, tx, record)
          = (Err (locked_msg holder), (w0, tx, record))) as ->.
  { unfold StageUpdate. cbn [Status tx]. rewrite bool_decide_eq_true_2 by reflexivity.
    cbn [negb]. unfold lock_if_needed. cbn [LockedRecords tx]. rewrite lookup_empty.
    unfold lockRecordInternal. cbn [Status TxID tx].
    rewrite bool_decide_eq_true_2 by reflexivity. cbn [negb].
    rewrite (Lock_held record txid holder Held) by (intros E; apply Other; symmetry; exact E).
    reflexivity. }
  unfold rollback_quietly, RollbackTransaction. cbn [TxID tx transactions].
  rewrite bool_decide_eq_true_2
    by (apply elem_of_union; left; apply elem_of_singleton; reflexivity).
  cbn [negb]. rewrite Rollback_nothing_staged by reflexivity.
  eexists _, _. split; reflexivity.
Qed.

Lemma DeleteRecord_stale_lock now t w tm record holder :
  stale_lock holder w record ->
  exists w' tm',
    DeleteRecord now t (w, tm, record)
    = (Err (locked_msg holder), (w', tm', record))
    /\ fs w' = fs w.
Proof.
  intros [Held Other]. unfold DeleteRecord, BeginTransaction, NewTransaction.
  set (txid := to_uint64 (transactionCounter w + 1)) in *.
  set (tx := mkTransaction txid TransactionActive ∅ ∅ (tm_db tm)).
  set (w0 := mkWorld (fs w) txid (recordIDCounter w)).
  assert (StageDelete now t (tx, record)
          = (Err (locked_msg holder), (tx, record))) as ->.
  { unfold StageDelete. cbn [Status tx]. rewrite bool_decide_eq_true_2 by reflexivity.
    cbn [negb]. unfold lock_if_needed. cbn [LockedRecords tx]. rewrite lookup_empty.
    unfold lockRecordInternal. cbn [Status TxID tx].
    rewrite bool_decide_eq_true_2 by reflexivity. cbn [negb].
    rewrite (Lock_held record txid holder Held) by (intros E; apply Other; symmetry; exact E).
    reflexivity. }
  unfold rollback_quietly, RollbackTransaction. cbn [TxID tx transactions].
  rewrite bool_decide_eq_true_2
    by (apply elem_of_union; left; apply elem_of_singleton; reflexivity).
  cbn [negb]. rewrite Rollback_nothing_staged by reflexivity.
  eexists _, _. split; reflexivity.
Qed.

Lemma UpdateRecord_ok_stale_lock now t updates w tm record r w' tm' record' :
  UpdateRecord now t updates (w, tm, record) = (Ok r, (w', tm', record')) ->
  stale_lock (to_uint64 (transactionCounter w + 1)) w' record'.
Proof.
  unfold UpdateRecord, BeginTransaction, NewTransaction.
  set (txid := to_uint64 (transactionCounter w + 1)).
  set (tx := mkTransaction txid TransactionActive ∅ ∅ (tm_db tm)).
  set (w0 := mkWorld (fs w) txid (recordIDCounter w)).
  destruct (StageUpdate now t updates (w0, tx, record))
    as [[staged | e | p] [[w1 tx1] record1]] eqn:Stage;
    [| destruct (rollback_quietly _ _ _); discriminate | discriminate].
  unfold StageUpdate in Stage. cbn [Status tx] in Stage.
  rewrite bool_decide_eq_true_2 in Stage by reflexivity. cbn [negb] in Stage.
  destruct (lock_if_needed t (tx, record)) as [[[] | e | p] [tx2 record2]] eqn:L;
    try discriminate Stage.
  apply lock_if_needed_ok in L; [| reflexivity]. cbn [TxID tx] in L.
  destruct (Clone now (TxID tx2) record2) as [staging | e | p]; try discriminate Stage.
  destruct (apply_updates t updates (w0, staging)) as [[[] | e | p] [w2 s2]] eqn:U;
    try discriminate Stage.
  apply apply_updates_transactionCounter in U. cbn [transactionCounter w0] in U.
  injection Stage as <- <- <- <-.
  destruct (CommitTransaction _) as [[[] | e | p] [[w3 tm3] tx3]] eqn:C; try discriminate.
  apply CommitTransaction_transactionCounter in C.
  intros [= <- <- <- <-]. split; [exact L |].
  rewrite C, U. apply next_id_differs.
Qed.

Lemma DeleteRecord_ok_stale_lock now t w tm record w' tm' record' :
  DeleteRecord now t (w, tm, record) = (Ok tt, (w', tm', record')) ->
  stale_lock (to_uint64 (transactionCounter w + 1)) w' record'.
Proof.
  unfold DeleteRecord, BeginTransaction, NewTransaction.
  set (txid := to_uint64 (transactionCounter w + 1)).
  set (tx := mkTransaction txid TransactionActive ∅ ∅ (tm_db tm)).
  set (w0 := mkWorld (fs w) txid (recordIDCounter w)).
  destruct (StageDelete now t (tx, record)) as [[[] | e | p] [tx1 record1]] eqn:Stage;
    [| destruct (rollback_quietly _ _ _); discriminate | discriminate].
  unfold StageDelete in Stage. cbn [Status tx] in Stage.
  rewrite bool_decide_eq_true_2 in Stage by reflexivity. cbn [negb] in Stage.
  destruct (lock_if_needed t (tx, record)) as [[[] | e | p] [tx2 record2]] eqn:L;
    try discriminate Stage.
  apply lock_if_needed_ok in L; [| reflexivity]. cbn [TxID tx] in L.
  destruct (Clone now (TxID tx2) record2) as [staging | e | p]; try discriminate Stage.
  injection Stage as <- <-.
  destruct (CommitTransaction _) as [[[] | e | p] [[w3 tm3] tx3]] eqn:C; try discriminate.
  apply CommitTransaction_transactionCounter in C. cbn [transactionCounter w0] in C.
  intros [= <- <- <-]. split; [exact L |].
  rewrite C. apply next_id_differs.
Qed.

(** X25: when [UpdateRecord] or [DeleteRecord] succeeds, the record the
    caller passed is left locked by the transaction the call ran in, which
    is over: every later [UpdateRecord] or [DeleteRecord] of that record
    value, on any table, fails with the lock-conflict error naming that
    transaction, leaving the record and every file as they are. *)
Theorem updated_record_stays_locked (now : Z) (t : Table) (w w' : World)
    (tm tm' : TableManager) (record record' : Record_) :
  (exists updates r,
      UpdateRecord now t updates (w, tm, record) = (Ok r, (w', tm', record')))
  \/ DeleteRecord now t (w, tm, record) = (Ok tt, (w', tm', record')) ->
  holds_lock (to_uint64 (transactionCounter w + 1)) record'
  /\ (forall now2 t2 updates2,
        exists w2 tm2,
          UpdateRecord now2 t2 updates2 (w', tm', record')
          = (Err (locked_msg (to_uint64 (transactionCounter w + 1))), (w2, tm2, record'))
          /\ fs w2 = fs w')
  /\ (forall now2 t2,
        exists w2 tm2,
          DeleteRecord now2 t2 (w', tm', record')
          = (Err (locked_msg (to_uint64 (transactionCounter w + 1))), (w2, tm2, record'))
          /\ fs w2 = fs w').
Proof.
  intros Done.
  assert (stale_lock (to_uint64 (transactionCounter w + 1)) w' record') as Stale.
  { destruct Done as [(updates & r & U) | D].
    - eapply UpdateRecord_ok_stale_lock. exact U.
    - eapply DeleteRecord_ok_stale_lock. exact D. }
  split; [exact (proj1 Stale) |]. split.
  - intros now2 t2 updates2. apply UpdateRecord_stale_lock. exact Stale.
  - intros now2 t2. apply DeleteRecord_stale_lock. exact Stale.
Qed.

End CallersRecord.

(** ** The table file after an update or a delete *)

Section Versions.

Context `{GoRuntime}.

Lemma Commit_single_table (t : Table) (staged : Record_) (tx tx' : Transaction)
    (w0 w w' : World) :
  GetTable (TableName t) (mainPath (db tx)) w0 = (Ok t, w0) ->
  off_sidecars t w0 w ->
  Forall (fun field => readable field = true) (Fields t) ->
  fits (Fields t) ->
  Status tx = TransactionActive ->
  StagedRecords tx = {[ TableName t := [staged] ]} ->
  Commit (w, tx) = (Ok tt, (w', tx')) ->
  exists old stored,
    GetAllRecords t w0 = (Ok old, w0)
    /\ GetAllRecords t w' = (Ok stored, w')
    /\ Forall2 (reread (Fields t))
         (demote_existing [staged] old ++ [mark_committed staged]) stored.
Proof.
  intros Found Off All Small Active Staged. unfold Commit. rewrite Active.
  rewrite bool_decide_eq_true_2 by reflexivity. cbn [negb].
  rewrite Staged, map_to_list_singleton. cbn [commit_tables].
  unfold st_bind at 1. unfold commit_table at 1.
  rewrite (GetTable_off_sidecars _ _ _ _ _ Found Off).
  assert (GetAllRecords t w = (fst (GetAllRecords t w0), w)) as Read.
  { apply GetAllRecords_off_sidecars, Off. }
  rewrite Read.
  destruct (GetAllRecords t w0) as [[old | e | p] wr] eqn:Before; cbn [fst];
    try discriminate.
  assert (wr = w0) as ->.
  { destruct (GetAllRecords_Forall (fun _ => True) _ _ _ _ (fun _ _ _ => I) Before)
      as [_ E]. exact E. }
  destruct (WriteRecords t _ w) as [[[] | e | p] w3] eqn:Write; try discriminate.
  apply WriteRecords_reread in Write; [| exact All | exact Small].
  destruct Write as (stored & After & Same & _).
  unfold st_ret. intros [= <- <-].
  exists old, stored. split; [reflexivity |]. split; [exact After | exact Same].
Qed.

Lemma apply_update_header t field value w r res w' r' :
  apply_update t field value (w, r) = (res, (w', r')) ->
  ID r' = ID r /\ Metadata r' = Metadata r.
Proof.
  unfold apply_update.
  destruct (find_field (Fields t) field) as [fieldDef |];
    [| intros [= <- <- <-]; split; reflexivity].
  destruct (String.eqb (Type_ fieldDef) "ref").
  - destruct value; try (intros [= <- <- <-]; split; reflexivity).
    destruct (WriteRefData _ _ _ _ (w, r)) as [[[] | e | p] [w1 r1]] eqn:W;
      apply WriteRefData_record in W; destruct W as (I1 & M1 & _);
      intros [= <- <- <-]; split; assumption.
  - destruct value; intros [= <- <- <-]; split; reflexivity.
Qed.

Lemma apply_updates_header t updates :
  forall w r res w' r',
    apply_updates t updates (w, r) = (res, (w', r')) ->
    ID r' = ID r /\ Metadata r' = Metadata r.
Proof.
  induction updates as [| [field value] rest IH]; intros w r res w' r'; cbn [apply_updates].
  - intros [= <- <- <-]. split; reflexivity.
  - unfold st_bind.
    destruct (apply_update t field value (w, r)) as [[[] | e | p] [w1 r1]] eqn:U;
      apply apply_update_header in U; destruct U as [I1 M1].
    + intros E. apply IH in E. destruct E as [I2 M2]. split; congruence.
    + intros [= <- <- <-]. split; assumption.
    + intros [= <- <- <-]. split; assumption.
Qed.

Lemma lock_if_needed_fresh t txid d record tx' record' :
  lock_if_needed t (mkTransaction txid TransactionActive ∅ ∅ d, record)
  = (Ok tt, (tx', record')) ->
  Status tx' = TransactionActive /\ StagedRecords tx' = ∅ /\ TxID tx' = txid
  /\ db tx' = d
  /\ ID record' = ID record /\ IsDeleted (Metadata record') = IsDeleted (Metadata record)
  /\ FieldsData record' = FieldsData record
  /\ IsLocked (Metadata record') = true /\ TransactionID (Metadata record') = txid.
Proof.
  unfold lock_if_needed. cbn [LockedRecords]. rewrite lookup_empty.
  unfold lockRecordInternal. cbn [Status].
  rewrite bool_decide_eq_true_2 by reflexivity. cbn [negb TxID]. unfold Lock.
  destruct (IsLocked (Metadata record) && _); [discriminate |].
  intros [= <- <-]. repeat split.
Qed.

(** X26: for a table whose name and field names hold no slash, that is the
    one its bare name resolves to, whose fields are wide enough for their
    types and whose record size is below 2^63, when [UpdateRecord] succeeds
    the table could be read before, and reading it afterwards gives the
    records it held (any of them whose "id" value equals the new version's
    demoted) followed by the new version, each as the decoding of its
    encoding; the new version has the clock reading as its id, is current
    and unlocked, and is deleted exactly when the record updated was. *)
Theorem UpdateRecord_appends (now : Z) (t : Table) (updates : list (string * value))
    (w w' : World) (tm tm' : TableManager) (record record' r : Record_) :
  plain_names t ->
  GetTable (TableName t) (mainPath (tm_db tm)) w = (Ok t, w) ->
  Forall (fun field => readable field = true) (Fields t) ->
  fits (Fields t) ->
  UpdateRecord now t updates (w, tm, record) = (Ok r, (w', tm', record')) ->
  exists old stored,
    GetAllRecords t w = (Ok old, w)
    /\ GetAllRecords t w' = (Ok stored, w')
    /\ Forall2 (reread (Fields t)) (demote_existing [r] old ++ [r]) stored
    /\ ID r = now
    /\ Metadata r = mkRecordMetadata true (IsDeleted (Metadata record)) false 0.
Proof.
  intros _ Found All Small. unfold UpdateRecord, BeginTransaction, NewTransaction.
  set (txid := to_uint64 (transactionCounter w + 1)).
  set (w0 := mkWorld (fs w) txid (recordIDCounter w)).
  destruct (StageUpdate now t updates (w0, _, record))
    as [[staged | e | p] [[w1 tx1] record1]] eqn:Stage;
    [| destruct (rollback_quietly _ _ _); discriminate | discriminate].
  pose proof (StageUpdate_off_sidecars _ _ _ _ _ _ _ _ _ _ Stage) as Off.
  unfold StageUpdate in Stage. cbn [Status] in Stage.
  rewrite bool_decide_eq_true_2 in Stage by reflexivity. cbn [negb] in Stage.
  destruct (lock_if_needed t _) as [[[] | e | p] [tx2 record2]] eqn:L;
    try discriminate Stage.
  apply lock_if_needed_fresh in L.
  destruct L as (Active & Empty & Id & Db & LI & LD & LF & LL & LT).
  unfold Clone in Stage. rewrite LL, LT, Id, Z.eqb_refl in Stage. cbn [negb andb] in Stage.
  destruct (apply_updates t updates _) as [[[] | e | p] [w2 staging]] eqn:U;
    try discriminate Stage.
  apply apply_updates_header in U. destruct U as [UI UM]. cbn [ID Metadata] in UI, UM.
  injection Stage as <- <- <- <-.
  unfold CommitTransaction. cbn [TxID stage set_StagedRecords transactions].
  rewrite Id. rewrite bool_decide_eq_true_2
    by (apply elem_of_union; left; apply elem_of_singleton; reflexivity).
  cbn [negb].
  destruct (Commit (w2, _)) as [[[] | e | p] [w3 tx3]] eqn:C; try discriminate.
  apply (Commit_single_table t staging _ _ w w2 w3) in C.
  - destruct C as (old & stored & Before & After & Same).
    intros [= <- <- <- <-]. exists old, stored.
    split; [exact Before |]. split; [exact After |]. split; [exact Same |].
    unfold mark_committed. cbn. rewrite UI, UM, LD. split; reflexivity.
  - cbn [db stage set_StagedRecords]. rewrite Db. exact Found.
  - exact Off.
  - exact All.
  - exact Small.
  - cbn. exact Active.
  - cbn [StagedRecords stage set_StagedRecords]. rewrite Empty, lookup_empty.
    cbn [default app]. apply insert_empty.
Qed.

(** X27: for a table that is the one its bare name resolves to, whose
    fields are wide enough for their types and whose record size is below
    2^63, when [DeleteRecord] succeeds
    the table could be read before, and reading it afterwards gives every
    record it held, none of them changed, followed by one more record, each
    as the decoding of its encoding; the record added has the clock reading
    as its id, is current and deleted, and carries the data of the record
    deleted with its own id. *)
Theorem DeleteRecord_appends_a_tombstone (now : Z) (t : Table)
    (w w' : World) (tm tm' : TableManager) (record record' : Record_) :
  GetTable (TableName t) (mainPath (tm_db tm)) w = (Ok t, w) ->
  Forall (fun field => readable field = true) (Fields t) ->
  fits (Fields t) ->
  DeleteRecord now t (w, tm, record) = (Ok tt, (w', tm', record')) ->
  exists old stored tombstone,
    GetAllRecords t w = (Ok old, w)
    /\ GetAllRecords t w' = (Ok stored, w')
    /\ Forall2 (reread (Fields t)) (old ++ [tombstone]) stored
    /\ ID tombstone = now
    /\ Metadata tombstone = mkRecordMetadata true true false 0
    /\ FieldsData tombstone = <[ "id"%string := VInt64 now ]> (FieldsData record).
Proof.
  intros Found All Small. unfold DeleteRecord, BeginTransaction, NewTransaction.
  set (txid := to_uint64 (transactionCounter w + 1)).
  set (w0 := mkWorld (fs w) txid (recordIDCounter w)).
  destruct (StageDelete now t (_, record)) as [[[] | e | p] [tx1 record1]] eqn:Stage;
    [| destruct (rollback_quietly _ _ _); discriminate | discriminate].
  unfold StageDelete in Stage. cbn [Status] in Stage.
  rewrite bool_decide_eq_true_2 in Stage by reflexivity. cbn [negb] in Stage.
  destruct (lock_if_needed t _) as [[[] | e | p] [tx2 record2]] eqn:L;
    try discriminate Stage.
  apply lock_if_needed_fresh in L.
  destruct L as (Active & Empty & Id & Db & LI & LD & LF & LL & LT).
  unfold Clone in Stage. rewrite LL, LT, Id, Z.eqb_refl in Stage. cbn [negb andb] in Stage.
  injection Stage as <- <-.
  unfold CommitTransaction. cbn [TxID stage set_StagedRecords transactions].
  rewrite Id. rewrite bool_decide_eq_true_2
    by (apply elem_of_union; left; apply elem_of_singleton; reflexivity).
  cbn [negb].
  match goal with
  | |- context [Commit (w0, stage t ?s tx2)] => set (staged := s)
  end.
  destruct (Commit (w0, _)) as [[[] | e | p] [w3 tx3]] eqn:C; try discriminate.
  apply (Commit_single_table t staged _ _ w w0 w3) in C.
  - destruct C as (old & stored & Before & After & Same).
    intros [= <- <- <-]. exists old, stored, (mark_committed staged).
    split; [exact Before |]. split; [exact After |]. split.
    + replace (demote_existing [staged] old) with old in Same; [exact Same |].
      unfold demote_existing. cbn [fold_left]. clear.
      induction old as [| e old IH]; [reflexivity |].
      cbn [fmap list_fmap]. rewrite <- IH. f_equal.
      unfold demote_one. cbn. rewrite andb_false_r. reflexivity.
    + unfold mark_committed, staged. cbn. rewrite LF. repeat split.
  - cbn [db stage set_StagedRecords]. rewrite Db. exact Found.
  - intros path _. reflexivity.
  - exact All.
  - exact Small.
  - cbn. exact Active.
  - cbn [StagedRecords stage set_StagedRecords]. rewrite Empty, lookup_empty.
    cbn [default app]. apply insert_empty.
Qed.

End Versions.

(** ** Finding an inserted record, and rolling back *)

Section Versions2.

Context `{GoRuntime}.

Lemma reread_header (fields : list Field) (r stored : Record_) :
  Forall (fun field => readable field = true) fields ->
  fits fields ->
  - 2 ^ 63 <= ID r < 2 ^ 63 ->
  reread fields r stored ->
  ID stored = ID r /\ IsCurrent (Metadata stored) = IsCurrent (Metadata r).
Proof.
  intros All Small Range (bytes & S & D).
  destruct (Serialize_header r fields bytes All Small Range S)
    as (r' & D' & I & C & _).
  rewrite D in D'. injection D' as <-. split; assumption.
Qed.

Lemma to_int64_range (z : Z) : - 2 ^ 63 <= to_int64 z < 2 ^ 63.
Proof.
  unfold to_int64. pose proof (Z.mod_pos_bound (z + 2 ^ 63) (2 ^ 64)). lia.
Qed.

Lemma find_last_matches {A : Type} (f : A -> bool) (l : list A) (x : A) :
  f x = true -> exists y, find f (l ++ [x]) = Some y /\ f y = true.
Proof.
  intros Fx. induction l as [| a l IH]; cbn.
  - rewrite Fx. exists x. split; [reflexivity | exact Fx].
  - destruct (f a) eqn:Fa; [exists a; split; [reflexivity | exact Fa] | exact IH].
Qed.

(** X28: for a table whose name and field names hold no slash, that is the
    one its bare name resolves to, whose fields are wide enough for their
    types and whose record size is below 2^63, when [InsertRecord] succeeds,
    [GetRecordByID] with the id of the record returned finds, without
    changing the world, a current record with that id. *)
Theorem InsertRecord_then_GetRecordByID (now : Z) (t : Table) (data : gmap string value)
    (w w' : World) (tm tm' : TableManager) (r : Record_) :
  plain_names t ->
  GetTable (TableName t) (mainPath (tm_db tm)) w = (Ok t, w) ->
  Forall (fun field => readable field = true) (Fields t) ->
  fits (Fields t) ->
  InsertRecord now t data (w, tm) = (Ok r, (w', tm')) ->
  exists found,
    GetRecordByID t (ID r) w' = (Ok found, w')
    /\ ID found = ID r
    /\ IsCurrent (Metadata found) = true.
Proof.
  intros _ Found All Small Ins.
  destruct (InsertRecord_written _ _ _ _ _ _ _ _ Found All Small Ins)
    as (old & stored & _ & After & Same & Id & Meta & _).
  apply Forall2_app_inv_l in Same.
  destruct Same as (stored1 & stored2 & _ & Last & ->).
  apply Forall2_cons_inv_l in Last. destruct Last as (s & rest & Re & Nil & ->).
  apply Forall2_nil_inv_l in Nil. subst rest.
  apply reread_header in Re; [| exact All | exact Small | rewrite Id; apply to_int64_range].
  destruct Re as [SI SC]. rewrite Meta in SC. cbn in SC.
  unfold GetRecordByID, st_bind. rewrite After.
  destruct (find_last_matches
              (fun record => (ID record =? ID r) && IsCurrent (Metadata record))
              stored1 s) as (y & F & P).
  { rewrite SI, Z.eqb_refl, SC. reflexivity. }
  rewrite F. exists y. split; [reflexivity |].
  apply andb_prop in P. destruct P as [P1 P2].
  apply Z.eqb_eq in P1. split; assumption.
Qed.

(** X29: for a transaction whose staged records all belong to one table,
    which is the one its name resolves to, has fields wide enough for
    their types and a record size below 2^63, when [Rollback] succeeds the table could be read before,
    and reading it afterwards gives one record for each record it held, in
    the same order, each the decoding of the encoding of the old one with
    a lock of this transaction taken off; none of the staged records is
    there, and the transaction is rolled back. *)
Theorem Rollback_rewrites_the_table (t : Table) (staged : list Record_)
    (tx tx' : Transaction) (w w' : World) :
  GetTable (TableName t) (mainPath (db tx)) w = (Ok t, w) ->
  Forall (fun field => readable field = true) (Fields t) ->
  fits (Fields t) ->
  StagedRecords tx = {[ TableName t := staged ]} ->
  Rollback (w, tx) = (Ok tt, (w', tx')) ->
  exists old stored,
    GetAllRecords t w = (Ok old, w)
    /\ GetAllRecords t w' = (Ok stored, w')
    /\ Forall2 (reread (Fields t)) (unlock_held (TxID tx) <$> old) stored
    /\ tx' = set_Status TransactionRolledBack tx.
Proof.
  intros Found All Small Staged. unfold Rollback.
  destruct (negb _); [discriminate |].
  rewrite Staged, map_to_list_singleton. cbn [fmap list_fmap fst rollback_tables].
  unfold st_bind at 1. unfold rollback_table at 1.
  rewrite Found.
  destruct (GetAllRecords t w) as [[old | e | p] wr] eqn:Before; try discriminate.
  assert (wr = w) as ->.
  { destruct (GetAllRecords_Forall (fun _ => True) _ _ _ _ (fun _ _ _ => I) Before)
      as [_ E]. exact E. }
  destruct (WriteRecords t _ w) as [[[] | e | p] w3] eqn:Write; try discriminate.
  apply WriteRecords_reread in Write; [| exact All | exact Small].
  destruct Write as (stored & After & Same & _).
  unfold st_ret. intros [= <- <-].
  exists old, stored. split; [reflexivity |]. split; [exact After |].
  split; [exact Same | reflexivity].
Qed.

End Versions2.

(** ** The properties on the example data *)

Section Examples.
#[local] Existing Instance example_runtime.

Lemma Serialize_length_witness :
  Z.of_nat (length (encoding_of locked_by_1 [timePKField; valField]))
  = int_add (recordSize_from 0 [timePKField; valField]) 12
  /\ (fits [timePKField; valField] ->
      Z.of_nat (length (encoding_of locked_by_1 [timePKField; valField]))
      = 12 + fieldsSize [timePKField; valField]).
Proof.
  apply (Serialize_length locked_by_1 [timePKField; valField]).
  vm_compute. reflexivity.
Defined.

Lemma DeserializeRecord_total_witness :
  exists r, DeserializeRecord (slice_of (repeat 0 21)) [timePKField; valField] = Ok r.
Proof.
  apply (DeserializeRecord_total (slice_of (repeat 0 21)) [timePKField; valField]).
  - repeat constructor.
  - reflexivity.
  - vm_compute. discriminate.
  - vm_compute. reflexivity.
Defined.

Lemma GetAllRecords_whole_records_witness :
  exists records,
    GetAllRecords example_table ragged_world = (Ok records, ragged_world)
    /\ Z.of_nat (length records) = 1.
Proof.
  apply (GetAllRecords_whole_records example_table ragged_world (Raw (repeat 0 25))).
  - repeat constructor.
  - vm_compute. reflexivity.
  - vm_compute. reflexivity.
Defined.

Lemma Serialize_header_round_trip_witness :
  exists r',
    DeserializeRecord (slice_of (encoding_of locked_by_1 [timePKField; valField]))
      [timePKField; valField] = Ok r'
    /\ ID r' = 1001
    /\ IsCurrent (Metadata r') = true
    /\ IsDeleted (Metadata r') = false
    /\ IsLocked (Metadata r') = true
    /\ TransactionID (Metadata r') = 1.
Proof.
  apply (Serialize_header_round_trip locked_by_1 [timePKField; valField]).
  - repeat constructor.
  - vm_compute. reflexivity.
  - cbn. lia.
  - vm_compute. reflexivity.
Defined.

Lemma Serialize_then_DeserializeRecord_witness :
  exists r',
    DeserializeRecord (slice_of (encoding_of locked_by_1 [timePKField; valField]))
      [timePKField; valField] = Ok r'
    /\ forall field, In field [timePKField; valField] -> Name field <> "id"%string ->
         read_back locked_by_1 r' field.
Proof.
  apply (Serialize_then_DeserializeRecord locked_by_1 [timePKField; valField]).
  - apply (bool_decide_unpack _). vm_compute. exact I.
  - repeat constructor.
  - vm_compute. reflexivity.
  - vm_compute. reflexivity.
Defined.

Lemma WriteRecords_then_GetAllRecords_witness :
  exists stored,
    GetAllRecords example_table written_world = (Ok stored, written_world)
    /\ Forall2 (reread (Fields example_table)) [superseded; locked_by_1] stored
    /\ file_length written_world "data/testSchema/t.htdb" = Some 42
    /\ fs written_world !! "data/testSchema/t.htdb.temp" = None.
Proof.
  apply (WriteRecords_then_GetAllRecords example_table [superseded; locked_by_1]
           default_schema_world written_world).
  - repeat constructor.
  - vm_compute. reflexivity.
  - vm_compute. reflexivity.
Defined.

Lemma WriteRefData_then_ReadRefData_witness :
  ReadRefData (snd appended) "data/s" "t" "body" (fst appended)
  = (Ok "ddd"%string, fst appended)
  /\ exists before,
       file_length (fst appended) (refFilePath_of "data/s" "t" "body")
       = Some (before + 3)
       /\ RefOffsets (snd appended) !! "body"%string = Some (before, before + 3)
       /\ (file_length sidecar_world (refFilePath_of "data/s" "t" "body") = Some before
           \/ fs sidecar_world !! refFilePath_of "data/s" "t" "body" = None
              /\ before = 0).
Proof.
  apply (WriteRefData_then_ReadRefData "data/s" "t" "body" "ddd" sidecar_world
           (fst appended) survivor (snd appended)).
  vm_compute. reflexivity.
Defined.

Lemma cleanupRefField_keeps_payloads_witness :
  exists c',
    fs (snd (@cleanupRefField example_runtime example_db "s" "t" "body" [survivor]
               sidecar_world))
      !! filepath_Join [mainPath example_db; "s";
                        "t" +:+ "." +:+ "body" +:+ ".data" +:+ fileEnding]
    = Some (File c')
    /\ Forall2 (payload_kept "body"
                  (@content_bytes example_runtime (Raw (bytes_of_string "aaabbbccc")))
                  (@content_bytes example_runtime c'))
         [survivor] [survivor_moved].
Proof.
  apply (@cleanupRefField_keeps_payloads example_runtime example_db "s" "t" "body"
           [survivor] [survivor_moved] sidecar_world).
  - reflexivity.
  - vm_compute. reflexivity.
Defined.

Lemma cleanupTable_keeps_current_records_witness :
  exists old stored,
    GetAllRecords (mkTable "t" (Fields example_table)
                     (filepath_Join [mainPath example_db; "testSchema"])) written_world
    = (Ok old, written_world)
    /\ GetAllRecords (mkTable "t" (Fields example_table)
                        (filepath_Join [mainPath example_db; "testSchema"])) cleaned_world
       = (Ok stored, cleaned_world)
    /\ (List.filter is_current old = old /\ cleaned_world = written_world /\ stored = old
        \/ List.filter is_current old <> old
           /\ Forall2 (reread (Fields example_table)) (List.filter is_current old) stored).
Proof.
  apply (cleanupTable_keeps_current_records example_db "testSchema" "t"
           (Json example_table) example_table written_world cleaned_world).
  - vm_compute. reflexivity.
  - vm_compute. reflexivity.
  - reflexivity.
  - split; [cbv; intuition discriminate |].
    repeat constructor; cbv; intuition discriminate.
  - repeat constructor.
  - vm_compute. reflexivity.
  - vm_compute. reflexivity.
Defined.

Lemma finished_transaction_rejects_everything_witness :
  (forall w, Commit (w, committed_tx)
             = (Err "transaction is not active", (w, committed_tx)))
  /\ (forall w, Rollback (w, committed_tx)
                = (Err "transaction is not active", (w, committed_tx))).
Proof.
  apply (finished_transaction_rejects_everything committed_tx). discriminate.
Defined.

Lemma Commit_and_Rollback_are_final_witness :
  Status fresh_tx = TransactionActive
  /\ Status committed_tx <> TransactionActive
  /\ TxID committed_tx = TxID fresh_tx
  /\ Commit (empty_root, committed_tx)
     = (Err "transaction is not active", (empty_root, committed_tx))
  /\ Rollback (empty_root, committed_tx)
     = (Err "transaction is not active", (empty_root, committed_tx)).
Proof.
  apply (Commit_and_Rollback_are_final empty_root empty_root fresh_tx committed_tx).
  left. vm_compute. reflexivity.
Defined.

Lemma CommitTransaction_once_witness :
  TxID fresh_tx ∈ transactions manager_of_fresh_tx
  /\ transactions (mkTableManager example_db ∅)
     = transactions manager_of_fresh_tx ∖ {[ TxID fresh_tx ]}
  /\ CommitTransaction (empty_root, mkTableManager example_db ∅, committed_tx)
     = (Err "transaction not found",
        (empty_root, mkTableManager example_db ∅, committed_tx))
  /\ RollbackTransaction (empty_root, mkTableManager example_db ∅, committed_tx)
     = (Err "transaction not found",
        (empty_root, mkTableManager example_db ∅, committed_tx)).
Proof.
  apply (CommitTransaction_once empty_root empty_root manager_of_fresh_tx
           (mkTableManager example_db ∅) fresh_tx committed_tx).
  vm_compute. reflexivity.
Defined.

Lemma CreateSchema_then_Schema_witness :
  mkSchema "testSchema" "data/testSchema" = mkSchema "testSchema" "data/testSchema"
  /\ fs empty_root !! "data/testSchema"%string = None
  /\ fs schema_world !! "data/testSchema"%string = Some Dir
  /\ Schema_ example_db "testSchema" schema_world
     = (Ok (mkSchema "testSchema" "data/testSchema"), schema_world)
  /\ CreateSchema example_db "testSchema" schema_world
     = (Err "Schema testSchema already exists", schema_world).
Proof.
  apply (CreateSchema_then_Schema example_db "testSchema" empty_root schema_world
           (mkSchema "testSchema" "data/testSchema")).
  vm_compute. reflexivity.
Defined.

Lemma CreateTable_then_GetTable_witness :
  example_table = mkTable "t" (timePKField :: [valField]) "data/testSchema"
  /\ NewTableManager example_db = NewTableManager example_db
  /\ validateFieldLengths (timePKField :: [valField]) = Ok tt
  /\ TableManager_GetTable (NewTableManager example_db) "testSchema" "t" table_world
     = (Ok example_table, table_world)
  /\ GetAllRecords example_table table_world = (Ok [], table_world)
  /\ (Forall (fun field => Type_ field = Int \/ Type_ field = Float ->
                           (8 <= Length field)%N) [valField] ->
      Forall (fun field => readable field = true) (Fields example_table)).
Proof.
  apply (CreateTable_then_GetTable "testSchema" "t" [valField] schema_world table_world
           (NewTableManager example_db) (NewTableManager example_db) example_table).
  - cbn. intuition discriminate.
  - cbn. intuition discriminate.
  - vm_compute. reflexivity.
  - repeat constructor.
  - vm_compute. reflexivity.
Defined.

Lemma GetAll_selects_witness :
  exists sorted : list Record_,
    GetAll (Limit 1 (Where "n" "!=" (VInt 7) (Select n_table))) two_rows_world
    = (Ok (take 1 sorted), two_rows_world)
    /\ sorted ≡ₚ List.filter
                   (selected (Limit 1 (Where "n" "!=" (VInt 7) (Select n_table))))
                   two_rows
    /\ (EmptyString = EmptyString ->
        sorted = List.filter
                   (selected (Limit 1 (Where "n" "!=" (VInt 7) (Select n_table))))
                   two_rows).
Proof.
  apply (GetAll_selects (Limit 1 (Where "n" "!=" (VInt 7) (Select n_table)))
           two_rows_world two_rows_world two_rows).
  - vm_compute. reflexivity.
  - left. reflexivity.
Defined.

Lemma GetAll_int64_column_matches_nothing_witness :
  GetAll (Where "n" "=" (VInt 5) (Select n_table)) two_rows_world
  = (Ok [], two_rows_world).
Proof.
  apply (GetAll_int64_column_matches_nothing (Where "n" "=" (VInt 5) (Select n_table))
           two_rows_world two_rows_world two_rows n_is_5).
  - vm_compute. reflexivity.
  - left. reflexivity.
  - reflexivity.
  - discriminate.
Defined.

Lemma InsertRecord_appends_witness :
  exists old stored,
    GetAllRecords notes_table (fst stocked) = (Ok old, fst stocked)
    /\ GetAllRecords notes_table (fst (snd inserted))
       = (Ok stored, fst (snd inserted))
    /\ Forall2 (reread (Fields notes_table))
         (demote_existing [inserted_record] old ++ [inserted_record]) stored
    /\ ID inserted_record = 1003
    /\ Metadata inserted_record = mkRecordMetadata true false false 0
    /\ FieldsData inserted_record
       = {[ "val"%string := VInt 7; "body"%string := VString "ccc" ]}
         ∪ {[ "id"%string := VInt64 (ID inserted_record) ]}
    /\ transactions (snd (snd inserted)) = transactions (snd stocked) ∖ {[ 3 ]}.
Proof.
  apply (InsertRecord_appends 1000 notes_table
           {[ "val"%string := VInt 7; "body"%string := VString "ccc" ]}
           (fst stocked) (fst (snd inserted))
           (snd stocked) (snd (snd inserted)) inserted_record).
  - split; [cbv; intuition discriminate |].
    repeat constructor; cbv; intuition discriminate.
  - vm_compute. reflexivity.
  - repeat constructor.
  - vm_compute. reflexivity.
  - vm_compute. reflexivity.
Defined.

Lemma updated_record_stays_locked_witness :
  holds_lock 1 (snd (snd updated))
  /\ (forall now2 t2 updates2,
        exists w2 tm2,
          UpdateRecord now2 t2 updates2
            (fst (fst (snd updated)), snd (fst (snd updated)), snd (snd updated))
          = (Err (locked_msg 1), (w2, tm2, snd (snd updated)))
          /\ fs w2 = fs (fst (fst (snd updated))))
  /\ (forall now2 t2,
        exists w2 tm2,
          DeleteRecord now2 t2
            (fst (fst (snd updated)), snd (fst (snd updated)), snd (snd updated))
          = (Err (locked_msg 1), (w2, tm2, snd (snd updated)))
          /\ fs w2 = fs (fst (fst (snd updated)))).
Proof.
  apply (updated_record_stays_locked 2000 example_table default_schema_world
           (fst (fst (snd updated))) (NewTableManager example_db)
           (snd (fst (snd updated))) locked_by_1 (snd (snd updated))).
  left. exists [("val"%string, VInt 8)], updated_record. vm_compute. reflexivity.
Defined.

Lemma UpdateRecord_appends_witness :
  exists old stored,
    GetAllRecords notes_table (fst stocked) = (Ok old, fst stocked)
    /\ GetAllRecords notes_table (fst (fst (snd row_updated)))
       = (Ok stored, fst (fst (snd row_updated)))
    /\ Forall2 (reread (Fields notes_table))
         (demote_existing [row_version] old ++ [row_version]) stored
    /\ ID row_version = 2000
    /\ Metadata row_version
       = mkRecordMetadata true (IsDeleted (Metadata stocked_row)) false 0.
Proof.
  apply (UpdateRecord_appends 2000 notes_table
           [("val"%string, VInt 8); ("body"%string, VString "ddd")]
           (fst stocked) (fst (fst (snd row_updated)))
           (snd stocked) (snd (fst (snd row_updated)))
           stocked_row (snd (snd row_updated)) row_version).
  - split; [cbv; intuition discriminate |].
    repeat constructor; cbv; intuition discriminate.
  - vm_compute. reflexivity.
  - repeat constructor.
  - vm_compute. reflexivity.
  - vm_compute. reflexivity.
Defined.

Lemma DeleteRecord_appends_a_tombstone_witness :
  exists old stored tombstone,
    GetAllRecords notes_table (fst stocked) = (Ok old, fst stocked)
    /\ GetAllRecords notes_table (fst (fst (snd row_deleted)))
       = (Ok stored, fst (fst (snd row_deleted)))
    /\ Forall2 (reread (Fields notes_table)) (old ++ [tombstone]) stored
    /\ ID tombstone = 3000
    /\ Metadata tombstone = mkRecordMetadata true true false 0
    /\ FieldsData tombstone
       = <[ "id"%string := VInt64 3000 ]> (FieldsData stocked_row).
Proof.
  apply (DeleteRecord_appends_a_tombstone 3000 notes_table
           (fst stocked) (fst (fst (snd row_deleted)))
           (snd stocked) (snd (fst (snd row_deleted)))
           stocked_row (snd (snd row_deleted))).
  - vm_compute. reflexivity.
  - repeat constructor.
  - vm_compute. reflexivity.
  - vm_compute. reflexivity.
Defined.

Lemma InsertRecord_then_GetRecordByID_witness :
  exists found,
    GetRecordByID notes_table (ID inserted_record) (fst (snd inserted))
    = (Ok found, fst (snd inserted))
    /\ ID found = ID inserted_record
    /\ IsCurrent (Metadata found) = true.
Proof.
  apply (InsertRecord_then_GetRecordByID 1000 notes_table
           {[ "val"%string := VInt 7; "body"%string := VString "ccc" ]}
           (fst stocked) (fst (snd inserted))
           (snd stocked) (snd (snd inserted)) inserted_record).
  - split; [cbv; intuition discriminate |].
    repeat constructor; cbv; intuition discriminate.
  - vm_compute. reflexivity.
  - repeat constructor.
  - vm_compute. reflexivity.
  - vm_compute. reflexivity.
Defined.

Lemma Rollback_rewrites_the_table_witness :
  exists old stored,
    GetAllRecords example_table (fst (snd staging)) = (Ok old, fst (snd staging))
    /\ GetAllRecords example_table (fst (snd rolled_back))
       = (Ok stored, fst (snd rolled_back))
    /\ Forall2 (reread (Fields example_table))
         (unlock_held (TxID (snd (snd staging))) <$> old) stored
    /\ snd (snd rolled_back) = set_Status TransactionRolledBack (snd (snd staging)).
Proof.
  apply (Rollback_rewrites_the_table example_table
           (default [] (StagedRecords (snd (snd staging)) !! "t"%string))
           (snd (snd staging)) (snd (snd rolled_back))
           (fst (snd staging)) (fst (snd rolled_back))).
  - vm_compute. reflexivity.
  - repeat constructor.
  - vm_compute. reflexivity.
  - vm_compute. reflexivity.
  - vm_compute. reflexivity.
Defined.

Lemma staging_is_invisible_to_readers_witness :
  GetAllRecords notes_table (fst (snd insert_staged))
  = (fst (GetAllRecords notes_table (fst stocked)), fst (snd insert_staged))
  /\ forall path,
       fs (fst (snd insert_staged)) !! path <> fs (fst stocked) !! path ->
       path <> SchemaPath notes_table +:+ "/" +:+ TableName notes_table +:+ fileEnding
       /\ dir_of path = Some (SchemaPath notes_table)
       /\ exists field,
            In field (Fields notes_table) /\ Type_ field = "ref"%string
            /\ path = refFilePath_of (SchemaPath notes_table) (TableName notes_table)
                        (Name field).
Proof.
  apply (staging_is_invisible_to_readers 1000 notes_table (fst stocked)
           (fst (snd insert_staged)) third_tx (snd (snd insert_staged))).
  - split; [cbv; intuition discriminate |].
    repeat constructor; cbv; intuition discriminate.
  - left. exists {[ "val"%string := VInt 7; "body"%string := VString "ccc" ]},
      (fst insert_staged). vm_compute. reflexivity.
Defined.

End Examples.
